(** * icevision: the albumentations transform adapter

    A shallow embedding of [icevision/tfms/albumentations/tfms.py]:
    the geometry filters ([filter_boxes], [filter_keypoints],
    [_check_kps_coords]), the size arithmetic ([py3round],
    [_func_max_size]), the pipeline introspection ([get_transform]),
    the pipeline builders ([aug_tfms], [resize_and_pad]) and
    [Adapter.apply].

    Conventions.
    - Pixel coordinates, visibilities and sizes are integers ([Z]).
    - The size arithmetic goes through Python floats, which are binary64
      numbers ([spec_float] with the Standard Library's operations).
    - A Python exception is a value of [exn]; code that can raise returns
      a [result].
    - The albumentations [Compose] object is external: its run is a
      parameter of [apply], and [apply] returns the adapter as the call
      leaves it together with the call's result. *)

From stdpp Require Import base option list gmap strings.
From Stdlib Require Import ZArith QArith Lia.
From Stdlib Require Import Floats.SpecFloat.

Open Scope Z_scope.

(** ** Python exceptions and results *)

Inductive exn : Type :=
  | AssertionError (msg : string)
  | IndexError
  | NameError (var : string)
  | ValueError
  | ZeroDivisionError
  | OverflowError
  | AttributeError (attr : string)
  | PipelineError (code : nat).

Inductive result (A : Type) : Type :=
  | Ok (a : A)
  | Raise (e : exn).
Arguments Ok {A} a.
Arguments Raise {A} e.

#[global] Instance result_ret : MRet result := fun A a => Ok a.
#[global] Instance result_bind : MBind result := fun A B f m =>
  match m with
  | Ok a => f a
  | Raise e => Raise e
  end.

#[global] Instance result_fmap : FMap result := fun A B f m =>
  match m with
  | Ok a => Ok (f a)
  | Raise e => Raise e
  end.

(** [assert cond, msg] *)
Definition assert (cond : bool) (msg : string) : result unit :=
  if cond then Ok tt else Raise (AssertionError msg).

(** [l[i]] for a non-negative index *)
Definition index {A} (l : list A) (i : nat) : result A :=
  match l !! i with
  | Some a => Ok a
  | None => Raise IndexError
  end.

(** ** Geometry filters *)

Definition point : Type := Z * Z.
Definition xyxy : Type := Z * Z * Z * Z.
Definition xyv : Type := Z * Z * Z.

(** [filter_boxes(xyxy, h, w)] *)
Definition filter_boxes (b : xyxy) (h w : Z) : xyxy :=
  let '(x1, y1, x2, y2) := b in
  if w >=? h then
    let pad := (w - h) / 2 in
    let h1 := pad in
    let h2 := w - pad in
    (x1, Z.max y1 h1, x2, Z.min y2 h2)
  else
    let pad := (h - w) / 2 in
    let w1 := pad in
    let w2 := h - pad in
    (Z.max x1 w1, y1, Z.min x2 w2, y2).

(** [_check_kps_coords(p, h, w)]: [int] of a conjunction, so 0 or 1 *)
Definition _check_kps_coords (p : point) (h w : Z) : Z :=
  let '(x, y) := p in
  if w >=? h then
    let pad := (w - h) / 2 in
    let h1 := pad in
    let h2 := w - pad in
    Z.b2z ((x <=? w) && (x >=? 0) && (y >=? h1) && (y <=? h2))
  else
    let pad := (h - w) / 2 in
    let w1 := pad in
    let w2 := h - pad in
    Z.b2z ((x <=? w2) && (x >=? w1) && (y >=? 0) && (y <=? h)).

(** The body of the loop of [filter_keypoints] at one index [i], on
    [tfms_kps[i]] and [v[i]]. *)
Definition filter_keypoint (p : point) (h w : Z) (vi : Z) : xyv :=
  let v_n := vi in
  let v_n :=
    if vi >? 0 then
      let c := _check_kps_coords p h w in
      if c =? 1 then vi else c
    else v_n in
  let tra := if v_n =? 0 then (0, 0) else p in
  (tra.1, tra.2, v_n).

(** [filter_keypoints(tfms_kps, h, w, v)]: the loop runs over
    [range(len(tfms_kps))] and iteration [i] reads and writes index [i]
    only; [v[i]] raises IndexError when [v] is the shorter list. *)
Fixpoint filter_keypoints (tfms_kps : list point) (h w : Z) (v : list Z)
  : result (list xyv) :=
  match tfms_kps with
  | [] => Ok []
  | p :: ps =>
      match v with
      | [] => Raise IndexError
      | vi :: vs =>
          rest ← filter_keypoints ps h w vs;
          mret (filter_keypoint p h w vi :: rest)
      end
  end.

(** The content region of the centred padding, as both filters compute it. *)
Definition in_content_region (p : point) (h w : Z) : Prop :=
  if w >=? h
  then 0 <= p.1 <= w ∧ (w - h) / 2 <= p.2 <= w - (w - h) / 2
  else (h - w) / 2 <= p.1 <= h - (h - w) / 2 ∧ 0 <= p.2 <= h.


(** ** Python floats

    A Python [float] is an IEEE 754 binary64 number: [spec_float] with a
    53-bit mantissa and [emax = 1024].  The arithmetic is the Standard
    Library's executable specification ([SFdiv], [SFmul], [SFsub]), which
    rounds to nearest, ties to even. *)

Definition prec : Z := 53.
Definition emax : Z := 1024.

Definition float : Type := spec_float.

(** The float nearest to [m * 2^e]. *)
Definition float_lit (m e : Z) : float := binary_normalize prec emax m e false.

Definition f_half : float := float_lit 1 (-1).
Definition f_one : float := float_lit 1 0.
Definition f_two : float := float_lit 2 0.

(** [float(n)] for an [int]: correctly rounded, OverflowError when [n] is
    too large for a float. *)
Definition float_of_int (n : Z) : result float :=
  match float_lit n 0 with
  | S754_infinity _ => Raise OverflowError
  | x => Ok x
  end.

(** The integer nearest to [m / 2^k], ties to even ([m] and [k] are
    non-negative). *)
Definition round_shift (m k : Z) : Z :=
  let q := m / 2 ^ k in
  let r := m mod 2 ^ k in
  match 2 * r ?= 2 ^ k with
  | Lt => q
  | Eq => if Z.even q then q else q + 1
  | Gt => q + 1
  end.

(** [round(x)] with one argument: the nearest [int], ties to even. *)
Definition py_round (x : float) : result Z :=
  match x with
  | S754_zero _ => Ok 0
  | S754_infinity _ => Raise OverflowError
  | S754_nan => Raise ValueError
  | S754_finite s m e =>
      Ok (cond_Zopp s
            (if 0 <=? e then Z.pos m * 2 ^ e else round_shift (Z.pos m) (- e)))
  end.

(** [int(x)]: truncation towards zero. *)
Definition py_int (x : float) : result Z :=
  match x with
  | S754_zero _ => Ok 0
  | S754_infinity _ => Raise OverflowError
  | S754_nan => Raise ValueError
  | S754_finite s m e =>
      Ok (cond_Zopp s
            (if 0 <=? e then Z.pos m * 2 ^ e else Z.pos m / 2 ^ (- e)))
  end.

Definition f_sub : float → float → float := SFsub prec emax.
Definition f_mul : float → float → float := SFmul prec emax.
Definition f_eqb : float → float → bool := SFeqb.

(** [a / b] on floats: ZeroDivisionError on a zero divisor. *)
Definition f_div (a b : float) : result float :=
  match b with
  | S754_zero _ => Raise ZeroDivisionError
  | _ => Ok (SFdiv prec emax a b)
  end.

(** ** Size arithmetic *)

(** [py3round(number)] *)
Definition py3round (number : float) : result Z :=
  r ← py_round number;
  fr ← float_of_int r;
  if f_eqb (SFabs (f_sub fr number)) f_half then
    h ← f_div number f_two;
    rh ← py_round h;
    frh ← float_of_int rh;
    py_int (f_mul f_two frh)
  else
    mret r.

(** [_func_max_size(height, width, max_size, func)]; [func] is the builtin
    [min] or [max]. *)
Definition _func_max_size (height width max_size : Z) (func : Z → Z → Z)
  : result (Z * Z) :=
  fm ← float_of_int max_size;
  fd ← float_of_int (func width height);
  scale ← f_div fm fd;
  if negb (f_eqb scale f_one) then
    fh ← float_of_int height;
    h' ← py3round (f_mul fh scale);
    fw ← float_of_int width;
    w' ← py3round (f_mul fw scale);
    mret (h', w')
  else
    mret (height, width).

(** ** Pipeline operations *)

(** An albumentations transform object.  The classes the module itself
    instantiates have a constructor each; any other transform a caller
    passes in is an [Op], given by its qualified class name, its
    probability [p] and its [max_size] attribute when it has one. *)
Inductive Transform : Type :=
  | Resize (height width : Z)
  | LongestMaxSize (max_size : Z)
  | SmallestMaxSize (max_size : Z)
  | PadIfNeeded (min_height min_width : Z)
  | RandomSizedBBoxSafeCrop (height width : Z) (p : Q)
  | OneOrOther (first second : Transform) (p : Q)
  | Op (cls : string) (p : Q) (max_size : option Z).

Definition HorizontalFlip : Transform :=
  Op "albumentations.augmentations.transforms.HorizontalFlip" (1 # 2) None.
Definition ShiftScaleRotate : Transform :=
  Op "albumentations.augmentations.transforms.ShiftScaleRotate" (1 # 2) None.
Definition RGBShift : Transform :=
  Op "albumentations.augmentations.transforms.RGBShift" (1 # 2) None.
Definition RandomBrightnessContrast : Transform :=
  Op "albumentations.augmentations.transforms.RandomBrightnessContrast" (1 # 2) None.
Definition Blur : Transform :=
  Op "albumentations.augmentations.transforms.Blur" (1 # 2) None.

(** The qualified class name, as [type(el)] prints it. *)
Definition class_name (el : Transform) : string :=
  match el with
  | Resize _ _ => "albumentations.augmentations.transforms.Resize"
  | LongestMaxSize _ => "albumentations.augmentations.transforms.LongestMaxSize"
  | SmallestMaxSize _ => "albumentations.augmentations.transforms.SmallestMaxSize"
  | PadIfNeeded _ _ => "albumentations.augmentations.transforms.PadIfNeeded"
  | RandomSizedBBoxSafeCrop _ _ _ =>
      "albumentations.augmentations.transforms.RandomSizedBBoxSafeCrop"
  | OneOrOther _ _ _ => "albumentations.core.composition.OneOrOther"
  | Op cls _ _ => cls
  end.

(** [str(type(el))] *)
Definition type_str (el : Transform) : string :=
  "<class '" +:+ class_name el +:+ "'>".

(** The attribute [el.p] *)
Definition tfm_p (el : Transform) : Q :=
  match el with
  | RandomSizedBBoxSafeCrop _ _ p | OneOrOther _ _ p | Op _ p _ => p
  | _ => 1%Q
  end.

(** The attribute [t.max_size]; AttributeError when the object has none. *)
Definition tfm_max_size (t : Transform) : result Z :=
  match t with
  | LongestMaxSize n | SmallestMaxSize n | Op _ _ (Some n) => Ok n
  | _ => Raise (AttributeError "max_size")
  end.

(** [t in s] on strings: [t] occurs in [s]. *)
Fixpoint contains (t s : string) : bool :=
  String.prefix t s ||
  match s with
  | EmptyString => false
  | String _ s' => contains t s'
  end.

(** [get_transform(tfms_list, t)]: the first element whose type name
    contains [t], or None. *)
Definition get_transform (tfms_list : list Transform) (t : string)
  : option Transform :=
  List.find (λ el, contains t (type_str el)) tfms_list.

(** [x is None] *)
Definition is_None {A} (x : option A) : bool :=
  match x with
  | None => true
  | Some _ => false
  end.

(** ** Pipeline builders *)

(** A size argument: an [int] or a [(height, width)] tuple. *)
Inductive Size : Type :=
  | SizeInt (n : Z)
  | SizeTuple (height width : Z).

(** [(size, size) if isinstance(size, int) else size] *)
Definition height_width (size : Size) : Z * Z :=
  match size with
  | SizeInt n => (n, n)
  | SizeTuple h w => (h, w)
  end.

(** [_resize(size, ratio_resize)] *)
Definition _resize (size : Size) (ratio_resize : Z → Transform) : Transform :=
  match size with
  | SizeInt n => ratio_resize n
  | SizeTuple h w => Resize h w
  end.

(** [resize_and_pad(size, pad)]; [pad] is called with [min_height] and
    [min_width]. *)
Definition resize_and_pad (size : Size) (pad : Z → Z → Transform)
  : list Transform :=
  let '(height, width) := height_width size in
  [_resize size LongestMaxSize; pad height width].

(** [[tfm for tfm in tfms if tfm is not None]] *)
Definition not_None {A} (tfms : list (option A)) : list A :=
  omap id tfms.

(** [aug_tfms(size, presize, horizontal_flip, shift_scale_rotate, rgb_shift,
    lightning, blur, crop_fn, pad)]; [crop_fn] is called with [height] and
    [width], [pad] with [min_height] and [min_width]. *)
Definition aug_tfms (size : Size) (presize : option Size)
    (horizontal_flip shift_scale_rotate rgb_shift lightning blur : option Transform)
    (crop_fn pad : option (Z → Z → Transform)) : list Transform :=
  let '(height, width) := height_width size in
  let tfms := [] in
  let tfms := tfms ++ [match presize with
                       | Some ps => Some (_resize ps SmallestMaxSize)
                       | None => None
                       end] in
  let tfms := tfms ++ [horizontal_flip; shift_scale_rotate; rgb_shift; lightning; blur] in
  let tfms :=
    match crop_fn with
    | Some crop_fn =>
        let crop := crop_fn height width in
        tfms ++ [Some (OneOrOther crop (_resize size LongestMaxSize) (tfm_p crop))]
    | None => tfms ++ [Some (_resize size LongestMaxSize)]
    end in
  let tfms := tfms ++ [match pad with
                       | Some pad => Some (pad height width)
                       | None => None
                       end] in
  not_None tfms.

(** The defaults of [crop_fn] and [pad]. *)
Definition default_crop_fn : Z → Z → Transform :=
  λ height width, RandomSizedBBoxSafeCrop height width (1 # 2).
Definition default_pad : Z → Z → Transform := PadIfNeeded.

(** ** Annotation objects of [icevision.core] *)

(** Modelled from the spec: the class [BBox] of [icevision.core] is not
    among the sources.  A box is its four pixel coordinates
    [(x1, y1, x2, y2)]; [BBox.from_xyxy] builds one from the coordinates
    and the attribute [xyxy] reads them back. *)
Record BBox : Type := from_xyxy' { xmin : Z; ymin : Z; xmax : Z; ymax : Z }.

Definition bbox_xyxy (o : BBox) : xyxy := (xmin o, ymin o, xmax o, ymax o).

(** [BBox.from_xyxy] applied to the unpacked [points] *)
Definition from_xyxy (points : xyxy) : BBox :=
  let '(x1, y1, x2, y2) := points in from_xyxy' x1 y1 x2 y2.

(** [k[0::3]] *)
Fixpoint every_third (k : list Z) : list Z :=
  match k with
  | a :: _ :: _ :: rest => a :: every_third rest
  | a :: _ => [a]
  | [] => []
  end.

Section Adapter.

(** Images, masks, instance labels and keypoint labels are opaque to the
    adapter; of an image it reads the attribute [shape] only. *)
Context {Image Mask Label KLabel : Type}.
Variable shape : Image → list Z.

(** Modelled from the spec: the class [KeyPoints] of [icevision.core] is
    not among the sources.  A keypoint set is an ordered list of
    [(x, y, visibility)] triples with a parallel list of per-point labels;
    the adapter reads the attributes [xy], [visible] and [labels], and
    [KeyPoints.from_xyv] builds a set from the flattened triples. *)
Record KeyPoints : Type := {
  kp_keypoints : list Z;
  kp_labels : list KLabel
}.

Definition kp_xy (o : KeyPoints) : list point :=
  zip (every_third (kp_keypoints o)) (every_third (drop 1 (kp_keypoints o))).
Definition kp_visible (o : KeyPoints) : list Z :=
  every_third (drop 2 (kp_keypoints o)).

(** [KeyPoints.from_xyv(k, cl)] *)
Definition from_xyv (k : list Z) (cl : list KLabel) : KeyPoints :=
  {| kp_keypoints := k; kp_labels := cl |}.

(** The parameters of a processor of the underlying pipeline. *)
Inductive ProcessorParams : Type :=
  | BboxParams (format : string) (label_fields : list string)
  | KeypointParams (format : string) (remove_invisible : bool)
      (label_fields : list string).

(** The [Compose] object: its operation list
    ([self.tfms.transforms.transforms]) and its processor registry
    ([self.tfms.processors]), a dict keyed by ["bboxes"] and
    ["keypoints"]. *)
Record Compose : Type := {
  transforms : list Transform;
  processors : gmap string ProcessorParams
}.

(** [A.Compose(tfms, bbox_params=..., keypoint_params=...)] registers one
    processor for each of the two parameter objects. *)
Definition new_Compose (tfms : list Transform)
    (bbox_params keypoint_params : ProcessorParams) : Compose :=
  {| transforms := tfms;
     processors := <["keypoints" := keypoint_params]>
                     (<["bboxes" := bbox_params]> ∅) |}.

Record Adapter : Type := {
  bbox_params : ProcessorParams;
  keypoint_params : ProcessorParams;
  tfms : Compose
}.

(** [Adapter.__init__(tfms)] *)
Definition Adapter_init (tfms_arg : list Transform) : Adapter :=
  let bp := BboxParams "pascal_voc" ["labels"] in
  let kp := KeypointParams "xy" false ["keypoints_labels"] in
  {| bbox_params := bp; keypoint_params := kp;
     tfms := new_Compose tfms_arg bp kp |}.

(** The keyword arguments of the pipeline call: [params]. *)
Record Params : Type := {
  p_image : Image;
  p_labels : list nat;
  p_bboxes : list xyxy;
  p_keypoints : option (list point);
  p_keypoints_labels : option (list KLabel);
  p_masks : option (list Mask)
}.

(** The dict the pipeline returns: [d].  It has every key of [params];
    [d_keypoints] and [d_masks] are read only when the key was passed. *)
Record Transformed : Type := {
  d_image : Image;
  d_labels : list nat;
  d_bboxes : list xyxy;
  d_keypoints : list point;
  d_masks : list Mask
}.

(** One call of [self.tfms] on the keyword arguments [params], with the
    random draws of that call resolved.  The pipeline sees the operation
    list and the processors that are registered at the time of the call,
    and may raise; it does not change the registry itself. *)
Variable run : Compose → Params → result Transformed.

(** The record [out] that [apply] returns; a key that is not set is
    [None]. *)
Record Out : Type := {
  out_img : Image;
  out_height : Z;
  out_width : Z;
  out_keypoints : option (list KeyPoints);
  out_labels : option (list Label);
  out_bboxes : option (list BBox);
  out_masks : option (list Mask);
  out_iscrowds : option (list Z)
}.

Definition msg_crop : string :=
  " You must pass `crop_fn=None` to `aug_tfms` in case your dataset contains keypoints".

(** [sum(k)] *)
Definition sum (k : list Z) : Z := foldr Z.add 0 k.

(** [range(0, n, step)] for a positive step *)
Definition range_step (n step : nat) : list nat :=
  (λ j, j * step)%nat <$> seq 0 ((n + step - 1) / step)%nat.

(** [[l[i : i + c] for i in range(0, len(l), c)]] for a positive [c] *)
Definition chunks (l : list Z) (c : nat) : list (list Z) :=
  (λ i, take c (drop i l)) <$> range_step (length l) c.

(** [[x for x, k in zip(xs, l) if sum(k) > 0]] *)
Definition kept {A} (xs : list A) (l : list (list Z)) : list A :=
  fst <$> filter (λ xk, 0 < sum xk.2) (zip xs l).

(** What [apply] has bound once the keypoints are flattened: [k], [v] and,
    when a pad step is present, [height_size] and [width_size]. *)
Record KpState : Type := {
  ks_k : list point;
  ks_c : list KLabel;
  ks_v : list Z;
  ks_size : option (Z * Z)
}.

(** Lines 131 to 146: the content size behind the padding. *)
Definition content_size (tfms_list : list Transform) (img : Image)
  : result (option (Z * Z)) :=
  match get_transform tfms_list "Pad" with
  | Some _ =>
      hw ← match take 2 (shape img) with
           | [h; w] => Ok (h, w)
           | _ => Raise ValueError
           end;
      hw ← match get_transform tfms_list "SmallestMaxSize" with
           | Some t =>
               presize ← tfm_max_size t;
               _func_max_size hw.1 hw.2 presize Z.min
           | None => Ok hw
           end;
      hw ← match get_transform tfms_list "LongestMaxSize" with
           | Some t =>
               size ← tfm_max_size t;
               _func_max_size hw.1 hw.2 size Z.max
           | None => Ok hw
           end;
      mret (Some hw)
  | None => Ok None
  end.

(** Lines 119 to 146: the keypoint branch before the pipeline runs. *)
Definition prepare_keypoints (tfms_list : list Transform) (img : Image)
    (keypoints : list KeyPoints) : result KpState :=
  _ ← assert (is_None (get_transform tfms_list "OneOrOther")) msg_crop;
  let k := concat (kp_xy <$> keypoints) in
  let c := concat (kp_labels <$> keypoints) in
  let v := concat (kp_visible <$> keypoints) in
  _ ← assert ((length k =? length c)%nat && (length c =? length v)%nat) "";
  size ← content_size tfms_list img;
  mret {| ks_k := k; ks_c := c; ks_v := v; ks_size := size |}.


(** Lines 151 to 154: [self.tfms.processors.pop(key, None)] for the
    inputs that are absent.  The registry belongs to the adapter, not to
    the call. *)
Definition disable_processors (self : Adapter)
    (bboxes_is_None keypoints_is_None : bool) : Adapter :=
  let procs := processors (tfms self) in
  let procs := if bboxes_is_None then delete "bboxes" procs else procs in
  let procs := if keypoints_is_None then delete "keypoints" procs else procs in
  {| bbox_params := bbox_params self;
     keypoint_params := keypoint_params self;
     tfms := {| transforms := transforms (tfms self); processors := procs |} |}.

(** The sizes [filter_keypoints] and [filter_boxes] are called with:
    [height_size, width_size] when a pad step is present, a NameError
    when these were never bound, and the output size otherwise. *)
Definition filter_size (tfms_list : list Transform) (size : option (Z * Z))
    (out_hw : Z * Z) : result (Z * Z) :=
  match get_transform tfms_list "Pad" with
  | Some _ =>
      match size with
      | Some hw => Ok hw
      | None => Raise (NameError "height_size")
      end
  | None => Ok out_hw
  end.

(** [list(chain.from_iterable(tfms_kps_n))] *)
Definition flatten (kps : list xyv) : list Z :=
  concat ((λ t : xyv, [t.1.1; t.1.2; t.2]) <$> kps).

(** Lines 163 to 177: the flat list of filtered keypoints, cut into
    [len(keypoints)] groups. *)
Definition regroup (tfms_list : list Transform) (keypoints : list KeyPoints)
    (st : KpState) (d : Transformed) (out_hw : Z * Z)
  : result (list (list Z)) :=
  let tfms_kps := d_keypoints d in
  _ ← assert (length tfms_kps =? length (ks_k st))%nat "";
  hw ← filter_size tfms_list (ks_size st) out_hw;
  tfms_kps_n ← filter_keypoints tfms_kps hw.1 hw.2 (ks_v st);
  let l := flatten tfms_kps_n in
  if (length keypoints =? 0)%nat then Raise ZeroDivisionError else
  let c := (length l / length keypoints)%nat in
  if (c =? 0)%nat then Raise ValueError else
  let l := chunks l c in
  _ ← assert (length l =? length keypoints)%nat "";
  mret l.

(** Lines 158 to 217: the output record, from the pipeline's result [d].
    [kp] is the keypoint state when keypoints were passed. *)
Definition reconstruct (tfms_list : list Transform)
    (labels : option (list Label)) (bboxes : option (list BBox))
    (masks : option (list Mask)) (iscrowds : option (list Z))
    (kp : option (list KeyPoints * KpState)) (d : Transformed) : result Out :=
  let img := d_image d in
  out_hw ← match shape img with
           | [h; w; _] => Ok (h, w)
           | _ => Raise ValueError
           end;
  l ← match kp with
      | Some (keypoints, st) => Some <$> regroup tfms_list keypoints st d out_hw
      | None => Ok None
      end;
  let o_keypoints :=
    match kp, l with
    | Some (keypoints, _), Some l =>
        let cl := default [] (kp_labels <$> head keypoints) in
        Some ((λ k, from_xyv k cl) <$> filter (λ k, 0 < sum k) l)
    | _, _ => None
    end in
  o_labels ← match labels with
             | Some labels =>
                 o ← mapM (index labels) (d_labels d);
                 match l with
                 | Some l => Some <$> mapM (index labels) (kept (d_labels d) l)
                 | None => Ok (Some o)
                 end
             | None => Ok None
             end;
  o_bboxes ← match bboxes with
             | Some _ =>
                 bb ← mapM (λ b,
                         hw ← filter_size tfms_list (kp ≫= (ks_size ∘ snd)) out_hw;
                         mret (filter_boxes b hw.1 hw.2)) (d_bboxes d);
                 match l with
                 | Some l => Ok (Some (from_xyxy <$> kept bb l))
                 | None => Ok (Some (from_xyxy <$> bb))
                 end
             | None => Ok None
             end;
  o_masks ← match masks with
            | Some _ =>
                keep_masks ← mapM (index (d_masks d)) (d_labels d);
                match l with
                | Some l => Some <$> mapM (index (d_masks d)) (kept (d_labels d) l)
                | None => Ok (Some keep_masks)
                end
            | None => Ok None
            end;
  o_iscrowds ← match iscrowds with
               | Some iscrowds =>
                   o ← mapM (index iscrowds) (d_labels d);
                   match l with
                   | Some l => Some <$> mapM (index iscrowds) (kept (d_labels d) l)
                   | None => Ok (Some o)
                   end
               | None => Ok None
               end;
  mret {| out_img := img; out_height := out_hw.1; out_width := out_hw.2;
          out_keypoints := o_keypoints; out_labels := o_labels;
          out_bboxes := o_bboxes; out_masks := o_masks;
          out_iscrowds := o_iscrowds |}.

(** [Adapter.apply(img, labels, bboxes, masks, iscrowds, keypoints)]: the
    adapter after the call, and what the call returns or raises. *)
Definition apply (self : Adapter) (img : Image)
    (labels : option (list Label)) (bboxes : option (list BBox))
    (masks : option (list Mask)) (iscrowds : option (list Z))
    (keypoints : option (list KeyPoints)) : Adapter * result Out :=
  let tfms_list := transforms (tfms self) in
  let kp := match keypoints with
            | Some keypoints =>
                st ← prepare_keypoints tfms_list img keypoints;
                mret (Some (keypoints, st))
            | None => Ok None
            end in
  match kp with
  | Raise e => (self, Raise e)
  | Ok kp =>
      let params :=
        {| p_image := img;
           p_labels := match labels with
                       | Some labels => seq 0 (length labels)
                       | None => []
                       end;
           p_bboxes := match bboxes with
                       | Some bboxes => bbox_xyxy <$> bboxes
                       | None => []
                       end;
           p_keypoints := (ks_k ∘ snd) <$> kp;
           p_keypoints_labels := (ks_c ∘ snd) <$> kp;
           p_masks := masks |} in
      let self := disable_processors self (is_None bboxes) (is_None keypoints) in
      (self,
       d ← run (tfms self) params;
       reconstruct tfms_list labels bboxes masks iscrowds kp d)
  end.

End Adapter.

Arguments KeyPoints : clear implicits.
Arguments Adapter_init : clear implicits.

(** ** Concrete pipelines and samples

    Images are given by their shape; masks, labels and keypoint labels by
    numbers and strings. *)
Module Demo.

Definition Image : Type := list Z.
Definition shape (img : Image) : list Z := img.

Abbreviation Params := (@Params Image nat string).
Abbreviation Transformed := (@Transformed Image nat).

(** A pipeline whose operations leave the image and every annotation as
    they are (every random draw decides not to apply). *)
Definition run_identity (c : Compose) (p : Params) : result Transformed :=
  Ok {| d_image := p_image p;
        d_labels := p_labels p;
        d_bboxes := p_bboxes p;
        d_keypoints := default [] (p_keypoints p);
        d_masks := default [] (p_masks p) |}.

(** A pipeline that moves the first box out of the image: the box
    processor, when it is registered, removes that box and its entry of
    the label field; everything else is left as it is. *)
Definition run_lose_first (c : Compose) (p : Params) : result Transformed :=
  match processors c !! "bboxes" with
  | Some _ =>
      Ok {| d_image := p_image p;
            d_labels := drop 1 (p_labels p);
            d_bboxes := drop 1 (p_bboxes p);
            d_keypoints := default [] (p_keypoints p);
            d_masks := default [] (p_masks p) |}
  | None => run_identity c p
  end.

Definition apply := @apply Image nat string string shape.

Definition kps1 (x y v : Z) : KeyPoints string := from_xyv [x; y; v] ["nose"].

End Demo.

(** ** Model configurations of [icevision.models.mmdet.utils] *)

(** The dataclass [MMDetBackboneConfig] *)
Record MMDetBackboneConfig : Type := {
  model_name : string;
  cfg_url : string;
  weights_url : string
}.

Section CreateModelConfig.

(** The file system and the network are outside the module: [World] is their
    state, and every operation on them takes the state and returns the new
    one with its result or the exception it raised.  Paths and parsed
    configurations are opaque, and nothing is assumed of the operations:
    [Path(s)], [p / s], [p.name], [str(p)],
    [p.mkdir(exist_ok=True, parents=True)] and [p.exists()] of [pathlib],
    [download_url(url, save_path)] of [icevision.utils], and
    [Config.fromfile(filename)] of [mmcv]. *)
Context {World Path Config : Type}.
Variable Path_new : string → Path.
Variable Path_div : Path → string → Path.
Variable Path_name : Path → string.
Variable Path_str : Path → string.
Variable Path_mkdir : Path → World → World * result unit.
Variable Path_exists : Path → World → bool.
Variable download_url : string → string → World → World * result unit.
Variable Config_fromfile : string → World → World * result Config.

(** Lines 61 to 69: the download of the weights.  The local [weights_path]
    is bound only inside the [if]. *)
Definition download_weights (backbone : MMDetBackboneConfig) (pretrained : bool)
    (checkpoints_path : string) (force_download : bool) (w : World)
  : World * result (option Path) :=
  if pretrained && negb (String.eqb (weights_url backbone) EmptyString) then
    let save_dir := Path_div (Path_new checkpoints_path) (model_name backbone) in
    match Path_mkdir save_dir w with
    | (w, Raise e) => (w, Raise e)
    | (w, Ok _) =>
        let fname := Path_name (Path_new (weights_url backbone)) in
        let weights_path := Path_div save_dir fname in
        if negb (Path_exists weights_path w) || force_download then
          match download_url (weights_url backbone) (Path_str weights_path) w with
          | (w, Raise e) => (w, Raise e)
          | (w, Ok _) => (w, Ok (Some weights_path))
          end
        else (w, Ok (Some weights_path))
    end
  else (w, Ok None).

(** [create_model_config(backbone, pretrained, checkpoints_path,
    force_download)].  The [return] reads the local [weights_path]; when it
    was never bound this is an UnboundLocalError, which is a NameError. *)
Definition create_model_config (backbone : MMDetBackboneConfig)
    (pretrained : bool) (checkpoints_path : string) (force_download : bool)
    (w : World) : World * result (Config * Path) :=
  match download_weights backbone pretrained checkpoints_path force_download w with
  | (w, Raise e) => (w, Raise e)
  | (w, Ok weights_path) =>
      match Config_fromfile (cfg_url backbone) w with
      | (w, Raise e) => (w, Raise e)
      | (w, Ok cfg) =>
          match weights_path with
          | Some weights_path => (w, Ok (cfg, weights_path))
          | None => (w, Raise (NameError "weights_path"))
          end
      end
  end.

End CreateModelConfig.

(** ** Properties read off the specification *)

(** What [filter_keypoints] is to return for the point [p] with incoming
    visibility [vi], as a relation on the returned triple [t].  In
    [nonzero_rule] every nonzero visibility is treated alike; in
    [positive_rule] only a positive visibility is tested against the content
    region and a negative one passes through. *)
Definition nonzero_rule (p : point) (h w vi : Z) (t : xyv) : Prop :=
  (vi = 0 → t.2 = 0) ∧
  (vi ≠ 0 → in_content_region p h w → t = (p.1, p.2, vi)) ∧
  (vi ≠ 0 → ¬ in_content_region p h w → t = (0, 0, 0)).

Definition positive_rule (p : point) (h w vi : Z) (t : xyv) : Prop :=
  (vi = 0 → t = (0, 0, 0)) ∧
  (0 < vi → in_content_region p h w → t = (p.1, p.2, vi)) ∧
  (0 < vi → ¬ in_content_region p h w → t = (0, 0, 0)) ∧
  (vi < 0 → t = (p.1, p.2, vi)).

(** [filter_keypoints] returns a list as long as its input whose entry at
    every index obeys [rule]. *)
Definition filters_by (rule : point → Z → Z → Z → xyv → Prop)
    (tfms_kps : list point) (h w : Z) (v : list Z) : Prop :=
  ∃ out, filter_keypoints tfms_kps h w v = Ok out ∧
         length out = length tfms_kps ∧
         ∀ (i : nat) p vi, tfms_kps !! i = Some p → v !! i = Some vi →
           ∃ t, out !! i = Some t ∧ rule p h w vi t.

(** The regrouping the specification describes: the list is cut by each
    instance's own point count, one group for every instance. *)
Fixpoint split_by {A} (counts : list nat) (l : list A) : list (list A) :=
  match counts with
  | [] => []
  | n :: counts => take n l :: split_by counts (drop n l)
  end.

Definition groups_by_instance {KLabel} (keypoints : list (KeyPoints KLabel))
    (tfms_kps_n : list xyv) : list (list xyv) :=
  split_by ((λ o, length (kp_xy o)) <$> keypoints) tfms_kps_n.

(** Every triple of the group is [(0, 0, 0)]. *)
Definition all_zero (g : list xyv) : bool :=
  forallb (λ t : xyv, (t.1.1 =? 0) && (t.1.2 =? 0) && (t.2 =? 0)) g.

(** The entries of [xs] whose instance has a group that is not all zero. *)
Definition survivors {A} (xs : list A) (groups : list (list xyv)) : list A :=
  fst <$> filter (λ xg, all_zero xg.2 = false) (zip xs groups).

(** The keypoint sets the specification describes: for every instance whose
    group is not all zero, its own points with its own labels. *)
Definition own_keypoints {KLabel} (keypoints : list (KeyPoints KLabel))
    (tfms_kps_n : list xyv) : list (KeyPoints KLabel) :=
  (λ og : KeyPoints KLabel * list xyv, from_xyv (flatten og.2) (kp_labels og.1))
  <$> filter (λ og, all_zero og.2 = false)
        (zip keypoints (groups_by_instance keypoints tfms_kps_n)).

(** An instance whose group is all zero has its entry in none of the
    returned lists (the entries of [xs] are pairwise distinct). *)
Definition degenerate_absent {A} (xs : list A) (groups : list (list xyv))
    (returned : list A) : Prop :=
  ∀ (i : nat) x g, xs !! i = Some x → groups !! i = Some g →
                   all_zero g = true → x ∉ returned.

(** The size arithmetic. *)

(** A positive normal float: 53 mantissa bits, exponent within [lo, hi]. *)
Definition normal (lo hi : Z) (x : float) : Prop :=
  ∃ m e, x = S754_finite false m e ∧ Z.pos (digits2_pos m) = 53 ∧ lo <= e <= hi.

(** [n] is an integer nearest to [m / 2^k], and the even one of the two
    when [m / 2^k] lies half way. *)
Definition nearest_even (m k n : Z) : Prop :=
  2 * Z.abs (m - n * 2 ^ k) < 2 ^ k ∨
  (2 * Z.abs (m - n * 2 ^ k) = 2 ^ k ∧ Z.even n = true).

(** [n] is the float [x] rounded to the nearest integer, ties to even. *)
Definition rounds_half_even (x : float) (n : Z) : Prop :=
  match x with
  | S754_zero _ => n = 0
  | S754_finite s m e =>
      ∃ a, n = cond_Zopp s a ∧
           if 0 <=? e then a = Z.pos m * 2 ^ e
           else nearest_even (Z.pos m) (- e) a
  | _ => False
  end.

(** [t] occurs in [s]: what [t in s] decides on strings. *)
Definition occurs_in (t s : string) : Prop :=
  ∃ pre post, s = pre +:+ t +:+ post.

(** An instance of [n] keypoints with the labels [cl], all of them visible
    and inside the content region of an [h] by [w] image. *)
Definition all_visible {KLabel} (n : nat) (cl : list KLabel) (h w : Z)
    (o : KeyPoints KLabel) : Prop :=
  length (kp_keypoints o) = (3 * n)%nat ∧ kp_labels o = cl ∧
  Forall (λ p, in_content_region p h w) (kp_xy o) ∧
  Forall (λ v, 0 < v) (kp_visible o).

(** The failed assertion of line 120 is the specification's
    ConfigurationError. *)
Definition ConfigurationError : exn := AssertionError msg_crop.
Lemma bind_Ok {A B} (m : result A) (f : A → result B) b :
  m ≫= f = Ok b → ∃ a, m = Ok a ∧ f a = Ok b.
Proof. destruct m as [a|e]; simpl; [eauto | discriminate]. Qed.

Lemma mapM_Ok_length {A B} (f : A → result B) l k :
  mapM f l = Ok k → length k = length l.
Proof.
  revert k. induction l as [|x l IH]; intros k; simpl.
  - intros [= <-]. reflexivity.
  - intros H. apply bind_Ok in H as (y & _ & H).
    apply bind_Ok in H as (k' & Hk' & [= <-]). simpl. f_equal. auto.
Qed.


(** * Results *)

(** ** Geometry filters *)

Example filter_boxes_ex1 :
  filter_boxes (10, 50, 200, 450) 300 500 = (10, 100, 200, 400).
Proof. reflexivity. Qed.

Example filter_keypoints_ex1 :
  filter_keypoints [(10, 150); (10, 50); (3, 4)] 300 500 [2; 1; 0]
  = Ok [(10, 150, 2); (0, 0, 0); (0, 0, 0)].
Proof. reflexivity. Qed.

(** C4. [filter_boxes] clips the padded axis only: for [w >= h] the result
    is [(x1, max(y1, pad), x2, min(y2, w - pad))] with [pad = (w - h) // 2],
    for [h > w] it is [(max(x1, pad), y1, min(x2, h - pad), y2)] with
    [pad = (h - w) // 2]; for a 300x500 content region the y coordinates are
    clipped at 100 and 400, and a box that meets the region ends with both
    of them inside [100, 400]; a list of boxes keeps its length. *)
Theorem filter_boxes_clips (x1 y1 x2 y2 h w : Z) :
  (h <= w →
     filter_boxes (x1, y1, x2, y2) h w
     = (x1, Z.max y1 ((w - h) / 2), x2, Z.min y2 (w - (w - h) / 2))) ∧
  (w < h →
     filter_boxes (x1, y1, x2, y2) h w
     = (Z.max x1 ((h - w) / 2), y1, Z.min x2 (h - (h - w) / 2), y2)) ∧
  (∃ y1' y2',
     filter_boxes (x1, y1, x2, y2) 300 500 = (x1, y1', x2, y2') ∧
     y1' = Z.max y1 100 ∧ y2' = Z.min y2 400 ∧
     100 <= y1' ∧ y2' <= 400 ∧
     (y1 <= 400 → 100 <= y2 → 100 <= y1' <= 400 ∧ 100 <= y2' <= 400)) ∧
  (∀ bs : list xyxy, length ((λ b, filter_boxes b h w) <$> bs) = length bs).
Proof.
  repeat split.
  - intros Hhw. unfold filter_boxes.
    destruct (Z.geb_spec w h); [reflexivity | lia].
  - intros Hhw. unfold filter_boxes.
    destruct (Z.geb_spec w h); [lia | reflexivity].
  - exists (Z.max y1 100), (Z.min y2 400). repeat split; try lia.
  - intros bs. apply length_fmap.
Qed.

Lemma filter_boxes_clips_witness :
  filter_boxes (10, 50, 200, 450) 300 500 = (10, 100, 200, 400) ∧
  filter_boxes (10, 50, 200, 450) 500 300 = (100, 50, 200, 450).
Proof.
  destruct (filter_boxes_clips 10 50 200 450 300 500) as (H1 & _).
  destruct (filter_boxes_clips 10 50 200 450 500 300) as (_ & H2 & _).
  split; [exact (H1 ltac:(lia)) | exact (H2 ltac:(lia))].
Defined.

Lemma _check_kps_coords_inside p h w :
  in_content_region p h w → _check_kps_coords p h w = 1.
Proof.
  destruct p as [x y]. unfold in_content_region, _check_kps_coords. simpl.
  destruct (Z.geb_spec w h); intros Hin;
    repeat match goal with
    | |- context [?a <=? ?b] => destruct (Z.leb_spec a b); try lia
    | |- context [?a >=? ?b] => destruct (Z.geb_spec a b); try lia
    end; reflexivity.
Qed.

Lemma _check_kps_coords_outside p h w :
  ¬ in_content_region p h w → _check_kps_coords p h w = 0.
Proof.
  destruct p as [x y]. unfold in_content_region, _check_kps_coords. simpl.
  destruct (Z.geb_spec w h); intros Hout;
    repeat match goal with
    | |- context [?a <=? ?b] => destruct (Z.leb_spec a b); try reflexivity
    | |- context [?a >=? ?b] => destruct (Z.geb_spec a b); try reflexivity
    end; exfalso; apply Hout; lia.
Qed.

Lemma in_content_region_dec p h w :
  {in_content_region p h w} + {¬ in_content_region p h w}.
Proof.
  unfold in_content_region. destruct (w >=? h).
  - destruct (decide (0 <= p.1 <= w ∧
                      (w - h) / 2 <= p.2 <= w - (w - h) / 2)); auto.
  - destruct (decide ((h - w) / 2 <= p.1 <= h - (h - w) / 2 ∧
                      0 <= p.2 <= h)); auto.
Qed.

(** One point: what the loop body computes. *)
Lemma filter_keypoint_positive_rule p h w vi :
  positive_rule p h w vi (filter_keypoint p h w vi).
Proof.
  unfold positive_rule, filter_keypoint. repeat split.
  - intros ->. reflexivity.
  - intros Hv Hin. rewrite (_check_kps_coords_inside _ _ _ Hin).
    destruct (Z.gtb_spec vi 0); [|lia]. simpl.
    destruct (Z.eqb_spec vi 0); [lia | reflexivity].
  - intros Hv Hout. rewrite (_check_kps_coords_outside _ _ _ Hout).
    destruct (Z.gtb_spec vi 0); [|lia]. reflexivity.
  - intros Hv. destruct (Z.gtb_spec vi 0); [lia|].
    destruct (Z.eqb_spec vi 0); [lia | reflexivity].
Qed.

Lemma filter_keypoints_Ok kps h w : ∀ v,
  length v = length kps →
  ∃ out, filter_keypoints kps h w v = Ok out ∧
         length out = length kps ∧
         ∀ (i : nat) p vi, kps !! i = Some p → v !! i = Some vi →
           out !! i = Some (filter_keypoint p h w vi).
Proof.
  induction kps as [|p ps IH]; intros [|vi vs] Hlen; simplify_eq/=.
  - exists []. repeat split. intros i ? ? Hi. destruct i; discriminate.
  - destruct (IH vs) as (rest & -> & Hl & Hi); [lia|].
    exists (filter_keypoint p h w vi :: rest). simpl. repeat split.
    + congruence.
    + intros [|i] q vq Hq Hvq; simplify_eq/=; eauto.
Qed.

(** C5, as amended.  For an equally long visibility list,
    [filter_keypoints] returns a list of the same length of
    [(x, y, visibility)] triples: visibility 0 gives [(0, 0, 0)]; a positive
    visibility is kept, with the point, inside the content region and
    replaced by [(0, 0, 0)] outside; a negative visibility is returned with
    its point as it came. *)
Theorem filter_keypoints_positive_rule (tfms_kps : list point) (h w : Z)
    (v : list Z) :
  length v = length tfms_kps →
  filters_by positive_rule tfms_kps h w v.
Proof.
  intros Hlen. destruct (filter_keypoints_Ok tfms_kps h w v Hlen)
    as (out & Hout & Hl & Hi).
  exists out. repeat split; [assumption ..|].
  intros i p vi Hp Hvi. exists (filter_keypoint p h w vi).
  split; [eauto | apply filter_keypoint_positive_rule].
Qed.

Lemma filter_keypoints_positive_rule_witness :
  filters_by positive_rule [(10, 150); (10, 50); (3, 4); (700, 2)]
    300 500 [2; 1; 0; -1].
Proof. apply filter_keypoints_positive_rule. reflexivity. Defined.

(** C5, as stated, fails on a negative visibility: the point [(50, 50)]
    lies outside the content region of a 10x10 image and has a nonzero
    visibility, yet it comes back unchanged. *)
Lemma filter_keypoints_nonzero_rule_fails :
  filter_keypoints [(50, 50)] 10 10 [-1] = Ok [(50, 50, -1)] ∧
  ¬ filters_by nonzero_rule [(50, 50)] 10 10 [-1].
Proof.
  split; [reflexivity|].
  intros (out & Hout & _ & Hi). vm_compute in Hout.
  injection Hout as <-.
  destruct (Hi 0%nat (50, 50) (-1) eq_refl eq_refl) as (t & Ht & _ & _ & Hrule).
  injection Ht as <-.
  assert (H : ¬ in_content_region (50, 50) 10 10).
  { unfold in_content_region. simpl. lia. }
  assert (Hv : -1 ≠ 0) by lia.
  specialize (Hrule Hv H). discriminate Hrule.
Qed.

(** ** Pipeline builders *)

Example aug_tfms_ex1 :
  aug_tfms (SizeInt 384) (Some (SizeInt 512)) (Some HorizontalFlip) None
    (Some RGBShift) None (Some Blur) (Some default_crop_fn) (Some default_pad)
  = [SmallestMaxSize 512; HorizontalFlip; RGBShift; Blur;
     OneOrOther (RandomSizedBBoxSafeCrop 384 384 (1 # 2)) (LongestMaxSize 384) (1 # 2);
     PadIfNeeded 384 384].
Proof. reflexivity. Qed.

(** C9. [aug_tfms] returns, in this order and leaving out every step
    passed as None: the presize resize, the horizontal flip,
    shift/scale/rotate, the rgb shift, brightness/contrast, the blur, then
    the [OneOrOther] choice between the crop and the resize to [size] with
    the crop's own [p] as its probability (the plain resize when [crop_fn]
    is None), then the pad; with a pad, the pad is the last element. *)
Theorem aug_tfms_order (size : Size) (presize : option Size)
    (horizontal_flip shift_scale_rotate rgb_shift lightning blur : option Transform)
    (crop_fn pad : option (Z → Z → Transform)) :
  let height := (height_width size).1 in
  let width := (height_width size).2 in
  let final :=
    match crop_fn with
    | Some crop_fn =>
        OneOrOther (crop_fn height width) (_resize size LongestMaxSize)
          (tfm_p (crop_fn height width))
    | None => _resize size LongestMaxSize
    end in
  aug_tfms size presize horizontal_flip shift_scale_rotate rgb_shift lightning
    blur crop_fn pad
  = option_list ((λ ps, _resize ps SmallestMaxSize) <$> presize)
    ++ option_list horizontal_flip ++ option_list shift_scale_rotate
    ++ option_list rgb_shift ++ option_list lightning ++ option_list blur
    ++ [final]
    ++ option_list ((λ pad, pad height width) <$> pad)
  ∧ (∀ pad_fn, pad = Some pad_fn →
       last (aug_tfms size presize horizontal_flip shift_scale_rotate rgb_shift
               lightning blur crop_fn pad) = Some (pad_fn height width)).
Proof.
  assert (Hlast : ∀ (l : list Transform) x, last (l ++ [x]) = Some x)
    by (intros; apply last_snoc).
  unfold aug_tfms. destruct (height_width size) as [height width]. simpl.
  split.
  - destruct presize, horizontal_flip, shift_scale_rotate, rgb_shift,
      lightning, blur, crop_fn, pad; reflexivity.
  - intros pad_fn ->.
    destruct presize, horizontal_flip, shift_scale_rotate, rgb_shift,
      lightning, blur, crop_fn; reflexivity.
Qed.

Lemma aug_tfms_order_witness :
  last (aug_tfms (SizeInt 384) (Some (SizeInt 512)) (Some HorizontalFlip) None
          (Some RGBShift) None (Some Blur) (Some default_crop_fn)
          (Some default_pad))
  = Some (PadIfNeeded 384 384).
Proof.
  exact (proj2 (aug_tfms_order (SizeInt 384) (Some (SizeInt 512))
                  (Some HorizontalFlip) None (Some RGBShift) None (Some Blur)
                  (Some default_crop_fn) (Some default_pad))
           default_pad eq_refl).
Defined.

(** ** Pipeline introspection *)

Lemma get_transform_elem (tfms_list : list Transform) (t : string) el :
  el ∈ tfms_list → contains t (type_str el) = true →
  is_None (get_transform tfms_list t) = false.
Proof.
  intros Hel Hc. unfold get_transform.
  destruct (List.find _ tfms_list) eqn:Hfind; [reflexivity|].
  apply list_elem_of_In in Hel.
  pose proof (List.find_none _ _ Hfind el Hel) as Hnone. cbv beta in Hnone.
  congruence.
Qed.

(** ** The adapter *)

(** C2. When the operation list holds a [OneOrOther] step and keypoints are
    passed, [apply] raises the ConfigurationError, whatever the pipeline
    would do when run: the result does not depend on [run], so the pipeline
    is never called, and the adapter is left as it was. *)
Theorem apply_crop_with_keypoints {Image Mask Label KLabel : Type}
    (shape : Image → list Z)
    (run : Compose → @Params Image Mask KLabel → result (@Transformed Image Mask))
    (self : Adapter) (img : Image) (labels : option (list Label))
    (bboxes : option (list BBox)) (masks : option (list Mask))
    (iscrowds : option (list Z)) (keypoints : list (KeyPoints KLabel))
    (first second : Transform) (p : Q) :
  OneOrOther first second p ∈ transforms (tfms self) →
  apply shape run self img labels bboxes masks iscrowds (Some keypoints)
  = (self, Raise ConfigurationError).
Proof.
  intros Hin. unfold apply, prepare_keypoints.
  rewrite (get_transform_elem _ "OneOrOther" _ Hin); reflexivity.
Qed.

Lemma apply_crop_with_keypoints_witness :
  let self := Adapter_init (aug_tfms (SizeInt 384) None (Some HorizontalFlip)
                              None None None None (Some default_crop_fn)
                              (Some default_pad)) in
  Demo.apply Demo.run_identity self [300; 500; 3] (Some ["person"])
    (Some [from_xyxy (10, 5, 50, 50)]) None None (Some [Demo.kps1 20 30 2])
  = (self, Raise ConfigurationError).
Proof.
  intros self.
  apply (apply_crop_with_keypoints Demo.shape Demo.run_identity self
           [300; 500; 3] (Some ["person"]) (Some [from_xyxy (10, 5, 50, 50)])
           None None [Demo.kps1 20 30 2]
           (RandomSizedBBoxSafeCrop 384 384 (1 # 2)) (LongestMaxSize 384) (1 # 2)).
  vm_compute. apply list_elem_of_In. simpl. auto.
Defined.

Lemma fmap_Ok {A B} (f : A → B) (m : result A) b :
  f <$> m = Ok b → ∃ a, m = Ok a ∧ b = f a.
Proof. destruct m as [a|e]; simpl; [intros [= <-]; eauto | discriminate]. Qed.

Lemma mret_Ok {A} (a b : A) : mret a = Ok b → a = b.
Proof. intros [= ->]. reflexivity. Qed.

Tactic Notation "inv_bind" hyp(H) "as" ident(x) ident(Hx) :=
  apply bind_Ok in H as (x & Hx & H).

Ltac inv_fmap H :=
  let x := fresh "x" in
  apply fmap_Ok in H as (x & H & ->).

Lemma mapM_Ok_fmap {A B} (f : A → result B) (g : A → B) l k :
  (∀ x y, f x = Ok y → y = g x) → mapM f l = Ok k → k = g <$> l.
Proof.
  intros Hfg. revert k. induction l as [|x l IH]; intros k; simpl.
  - intros [= <-]. reflexivity.
  - intros H. inv_bind H as y Hy. inv_bind H as k' Hk'.
    apply mret_Ok in H as <-. simpl. f_equal; auto.
Qed.

Lemma mapM_cons {A B} (f : A → result B) x l :
  mapM f (x :: l) = (y ← f x; k ← mapM f l; mret (y :: k)).
Proof. reflexivity. Qed.

Lemma index_middle {A} (pre l : list A) x :
  index (pre ++ x :: l) (length pre) = Ok x.
Proof. unfold index. rewrite list_lookup_middle; reflexivity. Qed.

Lemma mapM_index_seq {A} (l : list A) :
  mapM (index l) (seq 0 (length l)) = Ok l.
Proof.
  assert (Hgen : ∀ pre, mapM (index (pre ++ l)) (seq (length pre) (length l)) = Ok l).
  { induction l as [|x l IH]; intros pre; [reflexivity|].
    cbn [length seq]. rewrite mapM_cons, index_middle.
    specialize (IH (pre ++ [x])). rewrite length_app, <- (assoc_L (++)) in IH.
    cbn [length app] in IH. rewrite Nat.add_1_r in IH.
    cbn [mbind result_bind]. rewrite IH. reflexivity. }
  apply (Hgen []).
Qed.

Section Kept.
Context {A B : Type}.

Lemma kept_length (l : list (list Z)) : ∀ (xs : list A) (ys : list B),
  length xs = length ys → length (kept xs l) = length (kept ys l).
Proof.
  unfold kept. induction l as [|k l IH]; intros [|x xs] [|y ys] Hlen;
    simplify_eq/=; try reflexivity.
  rewrite !filter_cons. simpl. specialize (IH xs ys Hlen).
  rewrite !length_fmap in IH. rewrite !length_fmap.
  destruct (decide (0 < sum k)); simpl; lia.
Qed.

Lemma kept_fmap (f : A → B) (l : list (list Z)) : ∀ xs : list A,
  kept (f <$> xs) l = f <$> kept xs l.
Proof.
  unfold kept. induction l as [|k l IH]; intros [|x xs]; simpl; try reflexivity.
  rewrite !filter_cons. simpl.
  destruct (decide (0 < sum k)); simpl; rewrite IH; reflexivity.
Qed.

End Kept.

Section AdapterFacts.
Context {Image Mask Label KLabel : Type}.
Variable shape : Image → list Z.
Variable run : Compose → @Params Image Mask KLabel → result (@Transformed Image Mask).

Lemma disable_processors_none (self : Adapter) :
  disable_processors self false false = self.
Proof. destruct self as [bp kp [ts ps]]. reflexivity. Qed.

(** What the adapter is after a call, and when the pipeline was reached. *)
Lemma apply_fst (self : Adapter) (img : Image) (labels : option (list Label))
    bboxes masks iscrowds (keypoints : option (list (KeyPoints KLabel))) :
  (apply shape run self img labels bboxes masks iscrowds keypoints).1 = self ∨
  (apply shape run self img labels bboxes masks iscrowds keypoints).1
  = disable_processors self (is_None bboxes) (is_None keypoints).
Proof.
  unfold apply. destruct keypoints as [kps|]; simpl.
  - destruct (prepare_keypoints _ _ _ _); simpl; auto.
  - auto.
Qed.

(** A call that returns has run the pipeline on the flattened inputs and
    rebuilt its record from the pipeline's result. *)
Lemma apply_Ok (self : Adapter) (img : Image) (labels : option (list Label))
    bboxes masks iscrowds (keypoints : option (list (KeyPoints KLabel))) out :
  (apply shape run self img labels bboxes masks iscrowds keypoints).2 = Ok out →
  ∃ kp p d,
    match keypoints with
    | Some kps => ∃ st, prepare_keypoints shape (transforms (tfms self)) img kps = Ok st
                        ∧ kp = Some (kps, st)
    | None => kp = None
    end ∧
    p_labels p = match labels with Some ls => seq 0 (length ls) | None => [] end ∧
    p_bboxes p = match bboxes with Some bs => bbox_xyxy <$> bs | None => [] end ∧
    p_masks p = masks ∧
    run (tfms (disable_processors self (is_None bboxes) (is_None keypoints))) p = Ok d ∧
    reconstruct shape (transforms (tfms self)) labels bboxes masks iscrowds kp d = Ok out.
Proof.
  unfold apply. destruct keypoints as [kps|]; simpl.
  - destruct (prepare_keypoints _ _ _ _) as [st|e] eqn:Hst; simpl; [|discriminate].
    intros H. inv_bind H as x Hx.
    match type of Hx with run _ ?p = _ => exists (Some (kps, st)), p, x end.
    repeat split; try reflexivity; eauto.
  - intros H. inv_bind H as x Hx.
    match type of Hx with run _ ?p = _ => exists None, p, x end.
    repeat split; try reflexivity; eauto.
Qed.

Lemma reconstruct_lengths tfms_list (labels : list Label) bboxes (masks : list Mask)
    iscrowds (kp : option (list (KeyPoints KLabel) * KpState)) d out :
  reconstruct shape tfms_list (Some labels) (Some bboxes) (Some masks)
    (Some iscrowds) kp d = Ok out →
  length (d_labels d) = length (d_bboxes d) →
  ∃ ol ob om oc,
    out_labels out = Some ol ∧ out_bboxes out = Some ob ∧
    out_masks out = Some om ∧ out_iscrowds out = Some oc ∧
    length ol = length ob ∧ length ob = length om ∧ length om = length oc.
Proof.
  intros H Hd. unfold reconstruct in H.
  inv_bind H as out_hw Hhw. inv_bind H as l Hl.
  inv_bind H as o_labels Hol. inv_bind H as o_bboxes Hob.
  inv_bind H as o_masks Hom. inv_bind H as o_iscrowds Hoc.
  apply mret_Ok in H as <-. simpl.
  inv_bind Hol as ol1 Hol1. inv_bind Hob as bb Hbb.
  inv_bind Hom as om1 Hom1. inv_bind Hoc as oc1 Hoc1.
  apply mapM_Ok_length in Hol1, Hbb, Hom1, Hoc1.
  destruct l as [l|].
  - inv_fmap Hol. inv_fmap Hom. inv_fmap Hoc. injection Hob as <-.
    apply mapM_Ok_length in Hol, Hom, Hoc.
    eexists _, _, _, _. repeat split; try reflexivity.
    + rewrite length_fmap, Hol. apply kept_length. lia.
    + rewrite length_fmap, Hom. apply kept_length. lia.
    + lia.
  - simplify_eq. eexists _, _, _, _. repeat split; try reflexivity.
    + rewrite length_fmap. lia.
    + rewrite length_fmap. lia.
    + lia.
Qed.

End AdapterFacts.

(** C1. When labels, bboxes, masks and iscrowds are all passed, with or
    without keypoints, the record that [apply] returns has equally many
    labels, boxes, masks and crowd flags.  The sample has one label per
    box, and the pipeline keeps its label field aligned with the boxes, as
    the box processor of the underlying library does. *)
Theorem apply_cardinality {Image Mask Label KLabel : Type}
    (shape : Image → list Z)
    (run : Compose → @Params Image Mask KLabel → result (@Transformed Image Mask))
    (self : Adapter) (img : Image) (labels : list Label) (bboxes : list BBox)
    (masks : list Mask) (iscrowds : list Z)
    (keypoints : option (list (KeyPoints KLabel))) (out : Out) :
  (∀ c p d, length (p_labels p) = length (p_bboxes p) → run c p = Ok d →
            length (d_labels d) = length (d_bboxes d)) →
  length labels = length bboxes →
  (apply shape run self img (Some labels) (Some bboxes) (Some masks)
     (Some iscrowds) keypoints).2 = Ok out →
  ∃ ol ob (om : list Mask) oc,
    out_labels out = Some ol ∧ out_bboxes out = Some ob ∧
    out_masks out = Some om ∧ out_iscrowds out = Some oc ∧
    length ol = length ob ∧ length ob = length om ∧ length om = length oc.
Proof.
  intros Hrun Hlen Hout.
  apply apply_Ok in Hout as (kp & p & d & _ & Hpl & Hpb & _ & Hd & Hrec).
  eapply reconstruct_lengths; [exact Hrec|].
  eapply Hrun; [|exact Hd].
  rewrite Hpl, Hpb, length_seq, length_fmap. exact Hlen.
Qed.

Lemma run_lose_first_aligned c p d :
  length (p_labels p) = length (p_bboxes p) → Demo.run_lose_first c p = Ok d →
  length (d_labels d) = length (d_bboxes d).
Proof.
  unfold Demo.run_lose_first, Demo.run_identity. intros Hlen.
  destruct (processors c !! "bboxes"); intros [= <-]; simpl;
    rewrite ?length_drop; lia.
Qed.

Lemma apply_cardinality_witness :
  ∃ out,
    (Demo.apply Demo.run_lose_first (Adapter_init [Resize 500 500])
       [500; 500; 3] (Some ["a"; "b"; "c"])
       (Some [from_xyxy (10, 5, 50, 50); from_xyxy (11, 5, 50, 50);
              from_xyxy (12, 5, 50, 50)])
       (Some [7; 8; 9]%nat) (Some [0; 0; 1])
       (Some [Demo.kps1 1 2 1; Demo.kps1 3 4 1; Demo.kps1 5 6 0])).2 = Ok out ∧
    ∃ ol ob (om : list nat) oc,
      out_labels out = Some ol ∧ out_bboxes out = Some ob ∧
      out_masks out = Some om ∧ out_iscrowds out = Some oc ∧
      length ol = length ob ∧ length ob = length om ∧ length om = length oc.
Proof.
  eexists. split; [vm_compute; reflexivity|].
  eapply (apply_cardinality Demo.shape Demo.run_lose_first
            (Adapter_init [Resize 500 500]) [500; 500; 3] ["a"; "b"; "c"]
            [from_xyxy (10, 5, 50, 50); from_xyxy (11, 5, 50, 50);
             from_xyxy (12, 5, 50, 50)]
            [7; 8; 9]%nat [0; 0; 1]
            (Some [Demo.kps1 1 2 1; Demo.kps1 3 4 1; Demo.kps1 5 6 0])).
  - exact run_lose_first_aligned.
  - reflexivity.
  - vm_compute. reflexivity.
Defined.

Section Frame.
Context {Image Mask Label KLabel : Type}.
Variable shape : Image → list Z.
Variable run : Compose → @Params Image Mask KLabel → result (@Transformed Image Mask).

(** The registry after the two [pop] calls of lines 151 to 154, key by
    key. *)
Lemma disable_processors_lookup (self : Adapter) (b k : bool) (key : string) :
  processors (tfms (disable_processors self b k)) !! key
  = if decide (key = "bboxes" ∧ b = true ∨ key = "keypoints" ∧ k = true)
    then None else processors (tfms self) !! key.
Proof.
  unfold disable_processors. cbn [tfms processors].
  destruct (decide (key = "bboxes")) as [->|Hb].
  - destruct b, k; cbn [orb];
      rewrite ?(lookup_delete_ne _ "keypoints" "bboxes") by discriminate;
      rewrite ?lookup_delete_eq;
      (destruct (decide _) as [[[_ E]|[E _]]|Hn];
       [reflexivity || discriminate E ..
       | try reflexivity; exfalso; apply Hn; auto]).
  - destruct (decide (key = "keypoints")) as [->|Hk].
    + destruct b, k;
        rewrite ?lookup_delete_eq;
        rewrite ?(lookup_delete_ne _ "bboxes" "keypoints") by discriminate;
        (destruct (decide _) as [[[E _]|[_ E]]|Hn];
         [reflexivity || discriminate E ..
         | try reflexivity; exfalso; apply Hn; auto]).
    + destruct (decide _) as [[[E _]|[E _]]|_]; [contradiction..|].
      destruct b, k; rewrite ?lookup_delete_ne by congruence; reflexivity.
Qed.

(** What a call does to the adapter and which pipeline it runs: nothing
    when the keypoint preparation raises, the two [pop] calls otherwise. *)
Lemma apply_cases (self : Adapter) (img : Image) (labels : option (list Label))
    bboxes masks iscrowds (keypoints : option (list (KeyPoints KLabel))) :
  let r := apply shape run self img labels bboxes masks iscrowds keypoints in
  match keypoints with
  | Some kps =>
      match prepare_keypoints shape (transforms (tfms self)) img kps with
      | Raise e => r = (self, Raise e)
      | Ok st =>
          r.1 = disable_processors self (is_None bboxes) false ∧
          ∃ p, r.2 = (d ← run (tfms r.1) p;
                      reconstruct shape (transforms (tfms self)) labels bboxes
                        masks iscrowds (Some (kps, st)) d)
      end
  | None =>
      r.1 = disable_processors self (is_None bboxes) true ∧
      ∃ p, r.2 = (d ← run (tfms r.1) p;
                  reconstruct shape (transforms (tfms self)) labels bboxes
                    masks iscrowds None d)
  end.
Proof.
  unfold apply. destruct keypoints as [kps|]; cbn [is_None].
  - destruct (prepare_keypoints shape (transforms (tfms self)) img kps) as [st|e];
      cbn [mbind result_bind mret result_ret fst snd];
      [split; [reflexivity | eexists; reflexivity] | reflexivity].
  - cbn [fst snd]. split; [reflexivity | eexists; reflexivity].
Qed.

End Frame.

(** C8, as amended.  [apply] leaves the operation list and the two
    parameter objects of the adapter as they were, and it leaves the whole
    adapter as it was when both bboxes and keypoints are passed.  A call
    whose keypoint preparation raises leaves the adapter as it was and
    raises.  Every other call, whether or not the pipeline then raises,
    removes the ["bboxes"] processor when bboxes is None and the
    ["keypoints"] processor when keypoints is None, leaves every other
    processor as it was, and runs the pipeline on the adapter so changed.
    A processor that is absent stays absent over every later call on the
    adapter. *)
Theorem apply_frame {Image Mask Label KLabel : Type}
    (shape : Image → list Z)
    (run : Compose → @Params Image Mask KLabel → result (@Transformed Image Mask))
    (self : Adapter) (img : Image) (labels : option (list Label))
    (bboxes : option (list BBox)) (masks : option (list Mask))
    (iscrowds : option (list Z)) (keypoints : option (list (KeyPoints KLabel))) :
  let r := apply shape run self img labels bboxes masks iscrowds keypoints in
  let passed :=
    match keypoints with
    | Some kps =>
        ∃ st, prepare_keypoints shape (transforms (tfms self)) img kps = Ok st
    | None => True
    end in
  transforms (tfms r.1) = transforms (tfms self) ∧
  bbox_params r.1 = bbox_params self ∧
  keypoint_params r.1 = keypoint_params self ∧
  (is_Some bboxes → is_Some keypoints → r.1 = self) ∧
  (¬ passed → r.1 = self ∧ ∃ e, r.2 = Raise e) ∧
  (passed →
     processors (tfms r.1) !! "bboxes"
     = (if is_None bboxes then None else processors (tfms self) !! "bboxes") ∧
     processors (tfms r.1) !! "keypoints"
     = (if is_None keypoints then None
        else processors (tfms self) !! "keypoints") ∧
     (∀ key, key ≠ "bboxes" → key ≠ "keypoints" →
             processors (tfms r.1) !! key = processors (tfms self) !! key) ∧
     ∃ p kp,
       r.2 = (d ← run (tfms r.1) p;
              reconstruct shape (transforms (tfms self)) labels bboxes masks
                iscrowds kp d)) ∧
  (∀ (img' : Image) (labels' : option (list Label)) bboxes' masks' iscrowds'
     (keypoints' : option (list (KeyPoints KLabel))) key,
     processors (tfms r.1) !! key = None →
     processors
       (tfms (apply shape run r.1 img' labels' bboxes' masks' iscrowds'
                keypoints').1) !! key = None).
Proof.
  intros r passed.
  assert (Hkeep : ∀ (s : Adapter) (img' : Image) (labels' : option (list Label))
            bboxes' masks' iscrowds' (keypoints' : option (list (KeyPoints KLabel)))
            key,
            processors (tfms s) !! key = None →
            processors
              (tfms (apply shape run s img' labels' bboxes' masks' iscrowds'
                       keypoints').1) !! key = None).
  { intros s img' labels' bboxes' masks' iscrowds' keypoints' key Hnone.
    destruct (apply_fst shape run s img' labels' bboxes' masks' iscrowds' keypoints')
      as [-> | ->]; [exact Hnone|].
    rewrite disable_processors_lookup. destruct (decide _); [reflexivity | exact Hnone]. }
  pose proof (apply_cases shape run self img labels bboxes masks iscrowds keypoints)
    as Hcases. cbv zeta in Hcases. fold r in Hcases.
  assert (Hframe : ∀ b k, r.1 = disable_processors self b k →
            transforms (tfms r.1) = transforms (tfms self) ∧
            bbox_params r.1 = bbox_params self ∧
            keypoint_params r.1 = keypoint_params self).
  { intros b k ->. repeat split. }
  assert (Hlook : ∀ k, r.1 = disable_processors self (is_None bboxes) k →
            k = is_None keypoints →
            processors (tfms r.1) !! "bboxes"
            = (if is_None bboxes then None else processors (tfms self) !! "bboxes") ∧
            processors (tfms r.1) !! "keypoints"
            = (if is_None keypoints then None
               else processors (tfms self) !! "keypoints") ∧
            (∀ key, key ≠ "bboxes" → key ≠ "keypoints" →
                    processors (tfms r.1) !! key = processors (tfms self) !! key)).
  { intros k -> ->. split_and!.
    - rewrite disable_processors_lookup.
      destruct (is_None bboxes), (decide _) as [[[_ E]|[E _]]|Hn];
        try reflexivity; try discriminate E. exfalso. apply Hn. auto.
    - rewrite disable_processors_lookup.
      destruct (is_None keypoints), (decide _) as [[[E _]|[_ E]]|Hn];
        try reflexivity; try discriminate E. exfalso. apply Hn. auto.
    - intros key Hb Hk. rewrite disable_processors_lookup.
      destruct (decide _) as [[[E _]|[E _]]|_]; [contradiction..|reflexivity]. }
  subst passed. destruct keypoints as [kps|].
  - destruct (prepare_keypoints shape (transforms (tfms self)) img kps)
      as [st|e] eqn:Hprep.
    + destruct Hcases as [E (p & Hp)].
      destruct (Hframe _ _ E) as (F1 & F2 & F3).
      split_and!; try assumption.
      * intros [b ->] _. rewrite E. apply disable_processors_none.
      * intros Hn. exfalso. apply Hn. eauto.
      * intros _. destruct (Hlook false E eq_refl) as (L1 & L2 & L3).
        split_and!; try assumption. eauto.
      * apply Hkeep.
    + rewrite Hcases. cbn [fst snd]. split_and!; try reflexivity.
      * intros _. split; [reflexivity | eauto].
      * intros [st Hst]. discriminate Hst.
      * apply Hkeep.
  - destruct Hcases as [E (p & Hp)].
    destruct (Hframe _ _ E) as (F1 & F2 & F3).
    split_and!; try assumption.
    + intros _ [k Hk]. discriminate Hk.
    + intros Hn. exfalso. apply Hn. exact I.
    + intros _. destruct (Hlook true E eq_refl) as (L1 & L2 & L3).
      split_and!; try assumption. eauto.
    + apply Hkeep.
Qed.

(** C8, as stated, fails: a call without bboxes removes the ["bboxes"]
    processor of the adapter for good, and a later call that passes bboxes
    to a pipeline that loses a box no longer sees the box and its label
    removed. *)
Lemma apply_pops_processor :
  let self := Adapter_init [Resize 300 500] in
  let img := [300; 500; 3] in
  let boxes := Some [from_xyxy (10, 120, 50, 150); from_xyxy (11, 120, 50, 150)] in
  let self' :=
    (Demo.apply Demo.run_identity self img (Some ["a"]) None None None None).1 in
  self' ≠ self ∧
  processors (tfms self) !! "bboxes" = Some (BboxParams "pascal_voc" ["labels"]) ∧
  processors (tfms self') !! "bboxes" = None ∧
  (Demo.apply Demo.run_lose_first self img (Some ["a"; "b"]) boxes None None None).2
  ≠ (Demo.apply Demo.run_lose_first self' img (Some ["a"; "b"]) boxes None None None).2.
Proof.
  intros self img boxes self'. repeat split.
  - intros H. apply (f_equal (λ a, processors (tfms a) !! "bboxes")) in H.
    vm_compute in H. discriminate H.
  - vm_compute. discriminate.
Qed.

(** C10.  Without keypoints, a call that returns gives one clipped box for
    every box the pipeline returned, clipped against the output size; and
    there is a call whose returned box is degenerate: on a 300x500 output
    the box with y from 5 to 50 lies above the content rows, which start at
    100, and comes back with [ymin = 100 >= ymax = 50]. *)
Theorem apply_keeps_every_box :
  (∀ (Image Mask Label KLabel : Type) (shape : Image → list Z)
     (run : Compose → @Params Image Mask KLabel → result (@Transformed Image Mask))
     (self : Adapter) (img : Image) (labels : option (list Label))
     (bboxes : list BBox) (masks : option (list Mask))
     (iscrowds : option (list Z)) (out : Out),
     (apply shape run self img labels (Some bboxes) masks iscrowds None).2 = Ok out →
     ∃ p d,
       run (tfms (disable_processors self false true)) p = Ok d ∧
       p_bboxes p = bbox_xyxy <$> bboxes ∧
       out_bboxes out
       = Some ((λ b, from_xyxy (filter_boxes b (out_height out) (out_width out)))
                 <$> d_bboxes d) ∧
       ∀ ob, out_bboxes out = Some ob → length ob = length (d_bboxes d)) ∧
  (∃ (out : @Out Demo.Image nat string string) b,
     (Demo.apply Demo.run_identity (Adapter_init [Resize 300 500]) [300; 500; 3]
        (Some ["a"]) (Some [from_xyxy (10, 5, 50, 50)]) None None None).2 = Ok out ∧
     out_bboxes out = Some [b] ∧ 50 <= (500 - 300) / 2 ∧
     xmin b < xmax b ∧ ymin b >= ymax b).
Proof.
  split.
  - intros Image Mask Label KLabel shape run self img labels bboxes masks
      iscrowds out Hout.
    apply apply_Ok in Hout as (kp & p & d & -> & _ & Hpb & _ & Hd & Hrec).
    exists p, d. split; [exact Hd|]. split; [exact Hpb|].
    unfold reconstruct in Hrec.
    inv_bind Hrec as out_hw Hhw. inv_bind Hrec as l Hl.
    inv_bind Hrec as o_labels Hol. inv_bind Hrec as o_bboxes Hob.
    inv_bind Hrec as o_masks Hom. inv_bind Hrec as o_iscrowds Hoc.
    apply mret_Ok in Hrec as <-. simpl.
    injection Hl as <-. inv_bind Hob as bb Hbb. injection Hob as <-.
    apply (mapM_Ok_fmap _ (λ b, filter_boxes b out_hw.1 out_hw.2)) in Hbb.
    + subst bb. rewrite <- list_fmap_compose. split; [reflexivity|].
      intros ob [= <-]. apply length_fmap.
    + intros b y Hy. inv_bind Hy as hw Hhw'. apply mret_Ok in Hy as <-.
      unfold filter_size in Hhw'. simpl in Hhw'.
      destruct (get_transform _ _); [discriminate|]. injection Hhw' as <-.
      reflexivity.
  - eexists _, (from_xyxy (10, 100, 50, 50)).
    split; [vm_compute; reflexivity|].
    split; [reflexivity|]. vm_compute. split_and!; congruence.
Qed.

Lemma apply_keeps_every_box_witness :
  ∃ (p : Demo.Params) (d : Demo.Transformed),
    Demo.run_identity (tfms (disable_processors (Adapter_init [Resize 300 500])
                               false true)) p = Ok d ∧
    length (d_bboxes d) = 1%nat.
Proof.
  destruct (proj1 apply_keeps_every_box Demo.Image nat string string Demo.shape
              Demo.run_identity (Adapter_init [Resize 300 500]) [300; 500; 3]
              (Some ["a"]) [from_xyxy (10, 5, 50, 50)] None None
              {| out_img := [300; 500; 3]; out_height := 300; out_width := 500;
                 out_keypoints := None; out_labels := Some ["a"];
                 out_bboxes := Some [from_xyxy (10, 100, 50, 50)];
                 out_masks := None; out_iscrowds := None |}
              eq_refl) as (p & d & Hd & _ & _ & Hlen).
  exists p, d. split; [exact Hd|].
  symmetry. exact (Hlen _ eq_refl).
Defined.

(** With a pad step and no keypoints, [height_size] was never bound when
    line 190 reads it, and [apply] raises a NameError as soon as the
    pipeline returns a box: a call that returns has had no box to clip. *)
Lemma apply_pad_without_keypoints {Image Mask Label KLabel : Type}
    (shape : Image → list Z)
    (run : Compose → @Params Image Mask KLabel → result (@Transformed Image Mask))
    (self : Adapter) (img : Image) (labels : option (list Label))
    (bboxes : list BBox) (masks : option (list Mask))
    (iscrowds : option (list Z)) (out : Out) :
  is_None (get_transform (transforms (tfms self)) "Pad") = false →
  (apply shape run self img labels (Some bboxes) masks iscrowds None).2 = Ok out →
  out_bboxes out = Some [].
Proof.
  intros Hpad Hout.
  apply apply_Ok in Hout as (kp & p & d & -> & _ & _ & _ & _ & Hrec).
  unfold reconstruct in Hrec.
  inv_bind Hrec as out_hw Hhw. inv_bind Hrec as l Hl.
  inv_bind Hrec as o_labels Hol. inv_bind Hrec as o_bboxes Hob.
  inv_bind Hrec as o_masks Hom. inv_bind Hrec as o_iscrowds Hoc.
  apply mret_Ok in Hrec as <-. simpl.
  injection Hl as <-. inv_bind Hob as bb Hbb. injection Hob as <-.
  destruct (d_bboxes d) as [|b bs]; [apply mret_Ok in Hbb as <-; reflexivity|].
  rewrite mapM_cons in Hbb. inv_bind Hbb as y Hy. inv_bind Hy as hw Hhw'.
  unfold filter_size in Hhw'. simpl in Hhw'.
  destruct (get_transform _ _); [discriminate | discriminate Hpad].
Qed.

Example apply_pad_without_keypoints_ex :
  (Demo.apply Demo.run_identity
     (Adapter_init (resize_and_pad (SizeInt 500) default_pad)) [300; 500; 3]
     (Some ["a"]) (Some [from_xyxy (10, 120, 50, 150)]) (Some [7%nat]) (Some [0])
     None).2
  = Raise (NameError "height_size").
Proof. vm_compute. reflexivity. Qed.

(** ** Regrouping the keypoints *)

Lemma range_step_exact c m :
  (0 < c)%nat → range_step (c * m) c = (λ j, j * c)%nat <$> seq 0 m.
Proof.
  intros Hc. unfold range_step. f_equal. f_equal.
  symmetry. apply (Nat.div_unique _ _ _ (c - 1)); lia.
Qed.

Lemma split_by_replicate {A} (c m : nat) : ∀ l : list A,
  (λ j, take c (drop (j * c) l))%nat <$> seq 0 m = split_by (replicate m c) l.
Proof.
  induction m as [|m IH]; intros l; [reflexivity|].
  cbn [seq replicate split_by fmap list_fmap]. f_equal.
  rewrite <- fmap_S_seq, <- list_fmap_compose, <- IH.
  apply list_fmap_ext. intros _ j _. simpl. rewrite drop_drop. reflexivity.
Qed.

Lemma chunks_exact (l : list Z) (c m : nat) :
  (0 < c)%nat → length l = (c * m)%nat → chunks l c = split_by (replicate m c) l.
Proof.
  intros Hc Hl. unfold chunks. rewrite Hl, range_step_exact by assumption.
  rewrite <- list_fmap_compose. apply split_by_replicate.
Qed.

Lemma length_flatten (L : list xyv) : length (flatten L) = (3 * length L)%nat.
Proof.
  induction L as [|t L IH]; [reflexivity|].
  change (flatten (t :: L)) with (t.1.1 :: t.1.2 :: t.2 :: flatten L).
  cbn [length]. lia.
Qed.

Lemma flatten_take (n : nat) : ∀ L : list xyv,
  take (3 * n) (flatten L) = flatten (take n L).
Proof.
  induction n as [|n IH]; intros [|t L]; try reflexivity.
  replace (3 * S n)%nat with (S (S (S (3 * n)))) by lia.
  change (flatten (t :: L)) with (t.1.1 :: t.1.2 :: t.2 :: flatten L).
  cbn [take]. rewrite IH. reflexivity.
Qed.

Lemma flatten_drop (n : nat) : ∀ L : list xyv,
  drop (3 * n) (flatten L) = flatten (drop n L).
Proof.
  induction n as [|n IH]; intros [|t L]; try reflexivity.
  replace (3 * S n)%nat with (S (S (S (3 * n)))) by lia.
  change (flatten (t :: L)) with (t.1.1 :: t.1.2 :: t.2 :: flatten L).
  cbn [drop]. rewrite IH. reflexivity.
Qed.

Lemma split_by_flatten (n m : nat) : ∀ L : list xyv,
  split_by (replicate m (3 * n)%nat) (flatten L)
  = flatten <$> split_by (replicate m n) L.
Proof.
  induction m as [|m IH]; intros L; [reflexivity|].
  cbn [replicate split_by fmap list_fmap].
  rewrite flatten_take, flatten_drop, IH. reflexivity.
Qed.

Lemma filter_keypoints_length kps h w : ∀ v out,
  filter_keypoints kps h w v = Ok out → length out = length kps.
Proof.
  induction kps as [|p ps IH]; intros v out; simpl.
  - intros [= <-]. reflexivity.
  - destruct v as [|vi vs]; [discriminate|]. intros H.
    inv_bind H as rest Hrest. apply mret_Ok in H as <-. simpl.
    f_equal. eauto.
Qed.

Lemma assert_Ok cond msg u : assert cond msg = Ok u → cond = true.
Proof. destruct cond; [reflexivity | discriminate]. Qed.

Section Regroup.
Context {Image Mask Label KLabel : Type}.
Variable shape : Image → list Z.
Variable run : Compose → @Params Image Mask KLabel → result (@Transformed Image Mask).

Lemma uniform_counts (keypoints : list (KeyPoints KLabel)) (n : nat) :
  Forall (λ o, length (kp_xy o) = n) keypoints →
  (λ o, length (kp_xy o)) <$> keypoints = replicate (length keypoints) n ∧
  length (concat (kp_xy <$> keypoints)) = (n * length keypoints)%nat.
Proof.
  induction 1 as [|o os Ho Hos [IH1 IH2]]; [split; [reflexivity | simpl; lia]|].
  cbn [fmap list_fmap concat length replicate].
  fold (@fmap list _ _ _ (λ o : KeyPoints KLabel, length (kp_xy o)) os).
  fold (@fmap list _ _ _ (@kp_xy KLabel) os).
  rewrite IH1, length_app, IH2, Ho. split; [reflexivity | lia].
Qed.

Lemma prepare_keypoints_Ok tfms_list (img : Image)
    (keypoints : list (KeyPoints KLabel)) st :
  prepare_keypoints shape tfms_list img keypoints = Ok st →
  get_transform tfms_list "OneOrOther" = None ∧
  ks_k st = concat (kp_xy <$> keypoints) ∧
  ks_c st = concat (kp_labels <$> keypoints) ∧
  ks_v st = concat (kp_visible <$> keypoints) ∧
  length (ks_k st) = length (ks_v st) ∧
  content_size shape tfms_list img = Ok (ks_size st).
Proof.
  unfold prepare_keypoints. intros H.
  inv_bind H as u1 Hcrop. inv_bind H as u2 Hlen. inv_bind H as size Hsize.
  apply mret_Ok in H as <-. simpl.
  apply assert_Ok in Hcrop, Hlen.
  apply andb_true_iff in Hlen as [Hkc Hcv].
  apply Nat.eqb_eq in Hkc, Hcv.
  split_and!; try reflexivity; try congruence.
  destruct (get_transform tfms_list "OneOrOther"); [discriminate | reflexivity].
Qed.

(** With [n] points in every instance the code's cut into
    [len(keypoints)] equal chunks is the cut by instance. *)
Lemma regroup_uniform tfms_list (keypoints : list (KeyPoints KLabel)) st
    (d : @Transformed Image Mask) out_hw l (n : nat) :
  (0 < n)%nat →
  Forall (λ o, length (kp_xy o) = n) keypoints →
  ks_k st = concat (kp_xy <$> keypoints) →
  regroup tfms_list keypoints st d out_hw = Ok l →
  ∃ hw tfms_kps_n,
    filter_size tfms_list (ks_size st) out_hw = Ok hw ∧
    filter_keypoints (d_keypoints d) hw.1 hw.2 (ks_v st) = Ok tfms_kps_n ∧
    length tfms_kps_n = (n * length keypoints)%nat ∧
    keypoints ≠ [] ∧
    l = flatten <$> groups_by_instance keypoints tfms_kps_n.
Proof.
  intros Hn Huni Hk H. unfold regroup in H.
  inv_bind H as u1 Hlen. inv_bind H as hw Hhw. inv_bind H as T HT.
  apply assert_Ok, Nat.eqb_eq in Hlen.
  destruct (uniform_counts keypoints n Huni) as [Hcounts Hklen].
  pose proof (filter_keypoints_length _ _ _ _ _ HT) as HTlen.
  rewrite Hlen, Hk, Hklen in HTlen.
  destruct (Nat.eqb_spec (length keypoints) 0) as [|Hm]; [discriminate|].
  assert (Hc : (length (flatten T) / length keypoints = 3 * n)%nat).
  { rewrite length_flatten, HTlen.
    replace (3 * (n * length keypoints))%nat with (3 * n * length keypoints)%nat by lia.
    apply Nat.div_mul. exact Hm. }
  rewrite Hc in H.
  destruct (Nat.eqb_spec (3 * n) 0) as [|_]; [lia|].
  inv_bind H as u2 Hlen2. apply mret_Ok in H as <-.
  exists hw, T. split_and!; try assumption.
  - intros ->. apply Hm. reflexivity.
  - rewrite (chunks_exact _ _ (length keypoints)); [| lia |].
    + unfold groups_by_instance. rewrite Hcounts. apply split_by_flatten.
    + rewrite length_flatten, HTlen. lia.
Qed.

Lemma apply_kp_Ok (self : Adapter) (img : Image) (labels : option (list Label))
    bboxes masks iscrowds (keypoints : list (KeyPoints KLabel)) out :
  (apply shape run self img labels bboxes masks iscrowds (Some keypoints)).2 = Ok out →
  ∃ st p d,
    prepare_keypoints shape (transforms (tfms self)) img keypoints = Ok st ∧
    p_keypoints p = Some (ks_k st) ∧
    p_labels p = match labels with Some ls => seq 0 (length ls) | None => [] end ∧
    p_bboxes p = match bboxes with Some bs => bbox_xyxy <$> bs | None => [] end ∧
    p_masks p = masks ∧
    run (tfms (disable_processors self (is_None bboxes) false)) p = Ok d ∧
    reconstruct shape (transforms (tfms self)) labels bboxes masks iscrowds
      (Some (keypoints, st)) d = Ok out.
Proof.
  unfold apply. simpl.
  destruct (prepare_keypoints _ _ _ _) as [st|e] eqn:Hst; simpl; [|discriminate].
  intros H. inv_bind H as x Hx.
  match type of Hx with run _ ?p = _ => exists st, p, x end.
  split_and!; try reflexivity; assumption.
Qed.

End Regroup.

Lemma reconstruct_keypoints {Image Mask Label KLabel : Type}
    (shape : Image → list Z) tfms_list (labels : option (list Label)) bboxes
    (masks : option (list Mask)) iscrowds (keypoints : list (KeyPoints KLabel))
    st d out :
  reconstruct shape tfms_list labels bboxes masks iscrowds
    (Some (keypoints, st)) d = Ok out →
  ∃ l, regroup tfms_list keypoints st d (out_height out, out_width out) = Ok l ∧
       out_keypoints out
       = Some ((λ k, from_xyv k (default [] (kp_labels <$> head keypoints)))
                 <$> filter (λ k, 0 < sum k) l).
Proof.
  intros H. unfold reconstruct in H.
  inv_bind H as out_hw Hhw. inv_bind H as l Hl.
  inv_bind H as o_labels Hol. inv_bind H as o_bboxes Hob.
  inv_bind H as o_masks Hom. inv_bind H as o_iscrowds Hoc.
  apply mret_Ok in H as <-. simpl.
  inv_fmap Hl. exists x. destruct out_hw. split; [assumption | reflexivity].
Qed.

Lemma filter_fmap_flatten (P : list Z → Prop) `{∀ k, Decision (P k)}
    (gs : list (list xyv)) :
  filter P (flatten <$> gs) = flatten <$> filter (λ g, P (flatten g)) gs.
Proof.
  induction gs as [|g gs IH]; [reflexivity|].
  cbn [fmap list_fmap]. rewrite !filter_cons.
  destruct (decide (P (flatten g))); cbn [fmap list_fmap]; rewrite <- IH;
    reflexivity.
Qed.

(** C7, as amended.  When every instance has the same number [n > 0] of
    keypoints, the flat sequence of filtered points is regrouped by instance:
    every group that [apply] returns holds exactly the [n] points of one
    instance, and each is paired with the labels of the first instance. *)
Theorem apply_regroups_uniform {Image Mask Label KLabel : Type}
    (shape : Image → list Z)
    (run : Compose → @Params Image Mask KLabel → result (@Transformed Image Mask))
    (self : Adapter) (img : Image) (labels : option (list Label))
    (bboxes : option (list BBox)) (masks : option (list Mask))
    (iscrowds : option (list Z)) (keypoints : list (KeyPoints KLabel))
    (out : Out) (n : nat) :
  (0 < n)%nat →
  Forall (λ o, length (kp_xy o) = n) keypoints →
  (apply shape run self img labels bboxes masks iscrowds (Some keypoints)).2
  = Ok out →
  ∃ p d hw tfms_kps_n,
    p_keypoints p = Some (concat (kp_xy <$> keypoints)) ∧
    run (tfms (disable_processors self (is_None bboxes) false)) p = Ok d ∧
    filter_keypoints (d_keypoints d) hw.1 hw.2
      (concat (kp_visible <$> keypoints)) = Ok tfms_kps_n ∧
    length tfms_kps_n = length (concat (kp_xy <$> keypoints)) ∧
    out_keypoints out
    = Some ((λ g, from_xyv (flatten g) (default [] (kp_labels <$> head keypoints)))
              <$> filter (λ g, 0 < sum (flatten g))
                    (groups_by_instance keypoints tfms_kps_n)).
Proof.
  intros Hn Huni Hout.
  apply apply_kp_Ok in Hout as (st & p & d & Hst & Hpk & _ & _ & _ & Hd & Hrec).
  apply prepare_keypoints_Ok in Hst as (_ & Hk & _ & Hv & _ & _).
  apply reconstruct_keypoints in Hrec as (l & Hl & Hok).
  eapply regroup_uniform in Hl as (hw & T & _ & HT & HTlen & _ & ->); eauto.
  exists p, d, hw, T. split_and!.
  - congruence.
  - exact Hd.
  - rewrite <- Hv. exact HT.
  - rewrite HTlen. symmetry. apply uniform_counts. exact Huni.
  - rewrite Hok, filter_fmap_flatten, <- list_fmap_compose. reflexivity.
Qed.

Lemma apply_regroups_uniform_witness :
  ∃ out (p : Demo.Params) (d : Demo.Transformed) hw tfms_kps_n,
    (Demo.apply Demo.run_identity (Adapter_init [Resize 100 100])
       [100; 100; 3] (Some ["a"; "b"]) None None None
       (Some [from_xyv [1; 2; 1; 3; 4; 2] ["l"; "r"];
              from_xyv [5; 6; 0; 7; 8; 0] ["l"; "r"]])).2 = Ok out ∧
    Demo.run_identity (tfms (disable_processors (Adapter_init [Resize 100 100])
                               true false)) p = Ok d ∧
    filter_keypoints (d_keypoints d) hw.1 hw.2 [1; 2; 0; 0] = Ok tfms_kps_n ∧
    out_keypoints out
    = Some ((λ g, from_xyv (flatten g) ["l"; "r"])
              <$> filter (λ g, 0 < sum (flatten g))
                    (split_by [2; 2]%nat tfms_kps_n)).
Proof.
  eexists.
  destruct (apply_regroups_uniform Demo.shape Demo.run_identity
              (Adapter_init [Resize 100 100]) [100; 100; 3]
              (Some ["a"; "b"]) None None None
              [from_xyv [1; 2; 1; 3; 4; 2] ["l"; "r"];
               from_xyv [5; 6; 0; 7; 8; 0] ["l"; "r"]]
              {| out_img := [100; 100; 3]; out_height := 100; out_width := 100;
                 out_keypoints := Some [from_xyv [1; 2; 1; 3; 4; 2] ["l"; "r"]];
                 out_labels := Some ["a"]; out_bboxes := None;
                 out_masks := None; out_iscrowds := None |}
              2%nat ltac:(lia)
              ltac:(repeat constructor) eq_refl)
    as (p & d & hw & T & _ & Hd & HT & _ & Hok).
  exists p, d, hw, T. split; [reflexivity|]. split; [exact Hd|].
  split; [exact HT | exact Hok].
Defined.

(** C7, as stated, fails when the instances differ.  With one point in the
    first instance and three in the second, both returned groups hold two
    points, so the first holds a point of the second instance, and both carry
    the labels of the first instance. *)
Lemma apply_regroups_evenly :
  let keypoints :=
    [from_xyv [1; 2; 1] ["a"];
     from_xyv [3; 4; 1; 5; 6; 1; 7; 8; 1] ["b"; "c"; "d"]] in
  let tfms_kps_n := [(1, 2, 1); (3, 4, 1); (5, 6, 1); (7, 8, 1)] in
  ∃ out,
    (Demo.apply Demo.run_identity (Adapter_init [Resize 100 100])
       [100; 100; 3] None None None None (Some keypoints)).2 = Ok out ∧
    filter_keypoints (concat (kp_xy <$> keypoints)) 100 100
      (concat (kp_visible <$> keypoints)) = Ok tfms_kps_n ∧
    out_keypoints out
    = Some [from_xyv [1; 2; 1; 3; 4; 1] ["a"];
            from_xyv [5; 6; 1; 7; 8; 1] ["a"]] ∧
    own_keypoints keypoints tfms_kps_n = keypoints ∧
    out_keypoints out ≠ Some (own_keypoints keypoints tfms_kps_n).
Proof.
  intros keypoints tfms_kps_n. eexists. split; [vm_compute; reflexivity|].
  split; [reflexivity|]. split; [reflexivity|]. split; [reflexivity|].
  vm_compute. discriminate.
Qed.

(** ** Degenerate keypoint groups *)

(** A filtered triple is [(0, 0, 0)] or has non-negative coordinates and a
    positive visibility. *)
Definition zero_or_visible (t : xyv) : Prop :=
  t = (0, 0, 0) ∨ (0 <= t.1.1 ∧ 0 <= t.1.2 ∧ 0 < t.2).

Lemma in_content_region_nonneg p h w :
  in_content_region p h w → 0 <= p.1 ∧ 0 <= p.2.
Proof.
  unfold in_content_region. destruct (Z.geb_spec w h) as [Hwh|Hwh]; intros Hin.
  - assert (0 <= (w - h) / 2) by (apply Z.div_pos; lia). lia.
  - assert (0 <= (h - w) / 2) by (apply Z.div_pos; lia). lia.
Qed.

Lemma filter_keypoint_zero_or_visible p h w vi :
  0 <= vi → zero_or_visible (filter_keypoint p h w vi).
Proof.
  intros Hvi. destruct (filter_keypoint_positive_rule p h w vi)
    as (Hzero & Hin & Hout & _).
  destruct (decide (vi = 0)) as [->|Hne]; [left; auto|].
  destruct (in_content_region_dec p h w) as [Hp|Hp].
  - right. rewrite Hin by (assumption || lia). simpl.
    destruct (in_content_region_nonneg _ _ _ Hp). lia.
  - left. apply Hout; [lia | assumption].
Qed.

Lemma filter_keypoints_zero_or_visible kps h w : ∀ v T,
  Forall (λ vi, 0 <= vi) v → filter_keypoints kps h w v = Ok T →
  Forall zero_or_visible T.
Proof.
  induction kps as [|p ps IH]; intros v T Hv; simpl.
  - intros [= <-]. constructor.
  - destruct v as [|vi vs]; [discriminate|]. intros H.
    inv_bind H as rest Hrest. apply mret_Ok in H as <-.
    apply Forall_cons in Hv as [Hvi Hvs]. constructor; eauto.
    apply filter_keypoint_zero_or_visible. exact Hvi.
Qed.

Lemma split_by_Forall {A} (P : A → Prop) counts : ∀ l,
  Forall P l → Forall (Forall P) (split_by counts l).
Proof.
  induction counts as [|n counts IH]; intros l Hl; simpl; constructor.
  - apply Forall_take. exact Hl.
  - apply IH, Forall_drop. exact Hl.
Qed.

(** On such triples the test [sum(k) > 0] of the code says that the group
    is not all zero. *)
Lemma sum_positive_iff (g : list xyv) :
  Forall zero_or_visible g →
  0 <= sum (flatten g) ∧ (0 < sum (flatten g) ↔ all_zero g = false).
Proof.
  induction 1 as [|t g Ht Hg [IH0 IH]].
  - simpl. split; [reflexivity | split; [intros H; inversion H | discriminate]].
  - change (sum (flatten (t :: g))) with (t.1.1 + (t.1.2 + (t.2 + sum (flatten g)))).
    cbn [all_zero forallb]. fold (all_zero g).
    destruct Ht as [->|(Hx & Hy & Hv)]; simpl.
    + split; [exact IH0|]. rewrite <- IH. lia.
    + split; [lia|]. split; [|lia]. intros _.
      destruct (Z.eqb_spec t.2 0); [lia|]. rewrite andb_false_r. reflexivity.
Qed.

Lemma kept_cons {A} (x : A) xs k l :
  kept (x :: xs) (k :: l)
  = if decide (0 < sum k) then x :: kept xs l else kept xs l.
Proof.
  unfold kept. cbn [zip_with]. rewrite filter_cons. simpl.
  destruct (decide (0 < sum k)); reflexivity.
Qed.

Lemma survivors_cons {A} (x : A) xs g gs :
  survivors (x :: xs) (g :: gs)
  = if decide (all_zero g = false) then x :: survivors xs gs
    else survivors xs gs.
Proof.
  unfold survivors. cbn [zip_with]. rewrite filter_cons. simpl.
  destruct (decide (all_zero g = false)); reflexivity.
Qed.

Lemma kept_survivors {A} (groups : list (list xyv)) : ∀ xs : list A,
  Forall (Forall zero_or_visible) groups →
  kept xs (flatten <$> groups) = survivors xs groups.
Proof.
  induction groups as [|g groups IH]; intros [|x xs] Hg; try reflexivity.
  apply Forall_cons in Hg as [Hg Hgs].
  cbn [fmap list_fmap]. rewrite kept_cons, survivors_cons, (IH xs Hgs).
  destruct (sum_positive_iff g Hg) as [_ Hiff].
  destruct (decide (0 < sum (flatten g))) as [Hs|Hs],
    (decide (all_zero g = false)) as [Hz|Hz];
    try (exfalso; tauto); reflexivity.
Qed.

Lemma filter_survivors (groups : list (list xyv)) :
  Forall (Forall zero_or_visible) groups →
  filter (λ g, 0 < sum (flatten g)) groups
  = filter (λ g, all_zero g = false) groups.
Proof.
  induction 1 as [|g groups Hg Hgs IH]; [reflexivity|].
  rewrite !filter_cons, IH. destruct (sum_positive_iff g Hg) as [_ Hiff].
  destruct (decide (0 < sum (flatten g))) as [Hs|Hs],
    (decide (all_zero g = false)) as [Hz|Hz];
    try (exfalso; tauto); reflexivity.
Qed.

Lemma mapM_kept {A B} (f : A → result B) (l : list (list Z)) : ∀ xs ys,
  mapM f xs = Ok ys → mapM f (kept xs l) = Ok (kept ys l).
Proof.
  induction l as [|k l IH]; intros [|x xs] ys H;
    try (apply mret_Ok in H as <-; reflexivity).
  - rewrite mapM_cons in H. inv_bind H as y Hy. inv_bind H as ys' Hys.
    apply mret_Ok in H as <-. reflexivity.
  - rewrite mapM_cons in H. inv_bind H as y Hy. inv_bind H as ys' Hys.
    apply mret_Ok in H as <-. rewrite !kept_cons.
    destruct (decide (0 < sum k)); [|exact (IH xs ys' Hys)].
    rewrite mapM_cons, Hy. simpl. rewrite (IH xs ys' Hys). reflexivity.
Qed.

Lemma split_by_length {A} (counts : list nat) : ∀ l : list A,
  length (split_by counts l) = length counts.
Proof.
  induction counts as [|n counts IH]; intros l; [reflexivity|].
  cbn [split_by length]. rewrite IH. reflexivity.
Qed.

Lemma split_by_replicate_lengths {A} (c m : nat) : ∀ l : list A,
  length l = (c * m)%nat → Forall (λ g, length g = c) (split_by (replicate m c) l).
Proof.
  induction m as [|m IH]; intros l Hl; [constructor|].
  cbn [replicate split_by]. constructor.
  - rewrite length_take. lia.
  - apply IH. rewrite length_drop. lia.
Qed.

Lemma content_size_filter_size {Image : Type} (shape : Image → list Z)
    tfms_list (img : Image) size out_hw :
  content_size shape tfms_list img = Ok size →
  filter_size tfms_list size out_hw = Ok (default out_hw size).
Proof.
  unfold content_size, filter_size.
  destruct (get_transform tfms_list "Pad"); [|intros [= <-]; reflexivity].
  intros H. inv_bind H as hw0 H0. inv_bind H as hw1 H1. inv_bind H as hw2 H2.
  apply mret_Ok in H as <-. reflexivity.
Qed.

Section Params.
Context {Image Mask Label KLabel : Type}.
Variable shape : Image → list Z.
Variable run : Compose → @Params Image Mask KLabel → result (@Transformed Image Mask).

(** A returning call with keypoints has run the pipeline on these keyword
    arguments. *)
Lemma apply_kp_params (self : Adapter) (img : Image) (labels : list Label)
    (bboxes : list BBox) (masks : option (list Mask)) iscrowds
    (keypoints : list (KeyPoints KLabel)) out :
  (apply shape run self img (Some labels) (Some bboxes) masks iscrowds
     (Some keypoints)).2 = Ok out →
  ∃ st d,
    prepare_keypoints shape (transforms (tfms self)) img keypoints = Ok st ∧
    run (tfms self)
      {| p_image := img; p_labels := seq 0 (length labels);
         p_bboxes := bbox_xyxy <$> bboxes;
         p_keypoints := Some (concat (kp_xy <$> keypoints));
         p_keypoints_labels := Some (concat (kp_labels <$> keypoints));
         p_masks := masks |} = Ok d ∧
    reconstruct shape (transforms (tfms self)) (Some labels) (Some bboxes) masks
      iscrowds (Some (keypoints, st)) d = Ok out.
Proof.
  unfold apply. cbn [is_None].
  destruct (prepare_keypoints _ _ _ _) as [st|e] eqn:Hst;
    cbn [mbind result_bind mret result_ret snd]; [|discriminate].
  rewrite disable_processors_none. intros H. inv_bind H as d Hd.
  exists st, d. split; [reflexivity|].
  apply prepare_keypoints_Ok in Hst as (_ & Hk & Hc & _).
  cbn [fmap option_fmap option_map compose snd] in Hd.
  rewrite Hk, Hc in Hd. split; assumption.
Qed.

(** A call that returns has cut the flat list into chunks of positive
    length: with no keypoint at all, line 173 divides by zero or
    [range] gets a zero step. *)
Lemma regroup_positive tfms_list (keypoints : list (KeyPoints KLabel)) st
    (d : @Transformed Image Mask) out_hw l (n : nat) :
  Forall (λ o, length (kp_xy o) = n) keypoints →
  ks_k st = concat (kp_xy <$> keypoints) →
  regroup tfms_list keypoints st d out_hw = Ok l →
  (0 < n)%nat.
Proof.
  intros Huni Hk H. destruct n as [|n]; [exfalso | lia].
  unfold regroup in H.
  inv_bind H as u1 Hlen. inv_bind H as hw Hhw. inv_bind H as T HT.
  apply assert_Ok, Nat.eqb_eq in Hlen.
  destruct (uniform_counts keypoints 0 Huni) as [_ Hklen].
  pose proof (filter_keypoints_length _ _ _ _ _ HT) as HTlen.
  rewrite Hlen, Hk, Hklen in HTlen.
  destruct (length keypoints =? 0)%nat; [discriminate|].
  rewrite length_flatten, HTlen in H. cbn [Nat.mul] in H.
  rewrite Nat.Div0.div_0_l in H. discriminate H.
Qed.

End Params.

(** C3, as amended.  Take a call with keypoints in which every instance
    has the same number [n] of keypoints and no negative visibility, the
    sample has one label, box, mask and crowd flag per instance, and the
    pipeline, run on the keyword arguments of the call, returned every
    instance: the labels as passed and as many boxes and masks as passed.
    If the call returns, [n > 0] and the filtered triples fall into one
    group of [n] triples per instance; the instances that [apply] removes
    are those whose group is all zero, and it removes them from every
    field: keypoints, labels, boxes, masks and crowd flags.  The test of
    the code, [sum(k) > 0], decides exactly that on such groups.  The
    filter runs on the keypoints the pipeline returned, with the content
    size of the input image when a pad step is present and with the size of
    the output image otherwise. *)
Theorem apply_drops_degenerate {Image Mask Label KLabel : Type}
    (shape : Image → list Z)
    (run : Compose → @Params Image Mask KLabel → result (@Transformed Image Mask))
    (self : Adapter) (img : Image) (labels : list Label) (bboxes : list BBox)
    (masks : list Mask) (iscrowds : list Z)
    (keypoints : list (KeyPoints KLabel)) (d : Transformed) (out : Out) (n : nat) :
  Forall (λ o, length (kp_xy o) = n) keypoints →
  Forall (λ o, Forall (λ v, 0 <= v) (kp_visible o)) keypoints →
  length labels = length keypoints →
  length bboxes = length keypoints →
  length masks = length keypoints →
  length iscrowds = length keypoints →
  run (tfms self)
    {| p_image := img; p_labels := seq 0 (length labels);
       p_bboxes := bbox_xyxy <$> bboxes;
       p_keypoints := Some (concat (kp_xy <$> keypoints));
       p_keypoints_labels := Some (concat (kp_labels <$> keypoints));
       p_masks := Some masks |} = Ok d →
  d_labels d = seq 0 (length labels) →
  length (d_bboxes d) = length bboxes →
  length (d_masks d) = length masks →
  (apply shape run self img (Some labels) (Some bboxes) (Some masks)
     (Some iscrowds) (Some keypoints)).2 = Ok out →
  ∃ size tfms_kps_n,
    (0 < n)%nat ∧
    (∃ ch, shape (d_image d) = [out_height out; out_width out; ch]) ∧
    content_size shape (transforms (tfms self)) img = Ok size ∧
    let hw := default (out_height out, out_width out) size in
    filter_keypoints (d_keypoints d) hw.1 hw.2
      (concat (kp_visible <$> keypoints)) = Ok tfms_kps_n ∧
    let groups := groups_by_instance keypoints tfms_kps_n in
    length groups = length keypoints ∧
    Forall (λ g, length g = n) groups ∧
    Forall (λ g, 0 < sum (flatten g) ↔ all_zero g = false) groups ∧
    out_keypoints out
    = Some ((λ g, from_xyv (flatten g) (default [] (kp_labels <$> head keypoints)))
              <$> filter (λ g, all_zero g = false) groups) ∧
    out_labels out = Some (survivors labels groups) ∧
    out_bboxes out
    = Some (survivors ((λ b, from_xyxy (filter_boxes b hw.1 hw.2)) <$> d_bboxes d)
              groups) ∧
    out_masks out = Some (survivors (d_masks d) groups) ∧
    out_iscrowds out = Some (survivors iscrowds groups).
Proof.
  intros Huni Hvis Hlabels Hboxes Hmasks Hcrowds Hd Hdl Hdb Hdm Hout.
  apply apply_kp_params in Hout as (st & d' & Hst & Hd' & Hrec).
  rewrite Hd in Hd'. injection Hd' as <-.
  apply prepare_keypoints_Ok in Hst as (_ & Hk & _ & Hv & _ & Hsize).
  unfold reconstruct in Hrec.
  inv_bind Hrec as out_hw Hhw. inv_bind Hrec as l Hl.
  inv_bind Hrec as o_labels Hol. inv_bind Hrec as o_bboxes Hob.
  inv_bind Hrec as o_masks Hom. inv_bind Hrec as o_iscrowds Hoc.
  apply mret_Ok in Hrec as <-. cbn [out_height out_width out_keypoints out_labels
                                     out_bboxes out_masks out_iscrowds].
  inv_fmap Hl. rename x into l.
  pose proof (regroup_positive _ _ _ _ _ _ _ Huni Hk Hl) as Hn.
  eapply regroup_uniform in Hl as (hw & T & Hfs & HT & HTlen & _ & ->); eauto.
  rewrite (content_size_filter_size _ _ _ _ _ Hsize) in Hfs.
  injection Hfs as <-. rewrite Hv in HT.
  replace (out_hw.1, out_hw.2) with out_hw by (destruct out_hw; reflexivity).
  set (hw := default out_hw (ks_size st)) in *.
  destruct (uniform_counts keypoints n Huni) as [Hcounts _].
  assert (Hgroups : Forall (Forall zero_or_visible) (groups_by_instance keypoints T)).
  { apply split_by_Forall.
    eapply filter_keypoints_zero_or_visible; [|exact HT].
    apply Forall_concat, Forall_fmap. exact Hvis. }
  exists (ks_size st), T. split; [exact Hn|].
  split.
  { cbn [d_image] in Hhw. destruct (shape (d_image d)) as [|a [|b [|c [|? ?]]]];
      try discriminate Hhw. injection Hhw as <-. exists c. reflexivity. }
  split; [exact Hsize|].
  cbv zeta. fold hw. split; [exact HT|].
  split_and!.
  - unfold groups_by_instance. rewrite split_by_length, length_fmap. reflexivity.
  - unfold groups_by_instance. rewrite Hcounts.
    apply split_by_replicate_lengths. rewrite HTlen. reflexivity.
  - eapply Forall_impl; [exact Hgroups|]. intros g Hg. apply sum_positive_iff, Hg.
  - rewrite filter_fmap_flatten, <- list_fmap_compose, filter_survivors
      by exact Hgroups. reflexivity.
  - inv_bind Hol as o Ho. inv_fmap Hol. rewrite Hdl in Hol.
    rewrite (mapM_kept _ _ _ _ (mapM_index_seq labels)) in Hol.
    injection Hol as <-. rewrite kept_survivors by exact Hgroups. reflexivity.
  - inv_bind Hob as bb Hbb. injection Hob as <-.
    apply (mapM_Ok_fmap _ (λ b, filter_boxes b hw.1 hw.2)) in Hbb.
    + subst bb. rewrite <- kept_fmap, <- list_fmap_compose,
        kept_survivors by exact Hgroups. reflexivity.
    + intros b y Hy. inv_bind Hy as hw' Hhw'. apply mret_Ok in Hy as <-.
      cbn [option_bind compose snd mbind] in Hhw'.
      rewrite (content_size_filter_size _ _ _ _ _ Hsize) in Hhw'.
      injection Hhw' as <-. reflexivity.
  - inv_bind Hom as o Ho. inv_fmap Hom. rewrite Hdl in Hom.
    replace (length labels) with (length (d_masks d)) in Hom by congruence.
    rewrite (mapM_kept _ _ _ _ (mapM_index_seq (d_masks d))) in Hom.
    injection Hom as <-. rewrite kept_survivors by exact Hgroups. reflexivity.
  - inv_bind Hoc as o Ho. inv_fmap Hoc. rewrite Hdl in Hoc.
    replace (length labels) with (length iscrowds) in Hoc by congruence.
    rewrite (mapM_kept _ _ _ _ (mapM_index_seq iscrowds)) in Hoc.
    injection Hoc as <-. rewrite kept_survivors by exact Hgroups. reflexivity.
Qed.

Lemma apply_drops_degenerate_witness :
  ∃ out,
    (Demo.apply Demo.run_identity (Adapter_init [Resize 500 500])
       [500; 500; 3] (Some ["a"; "b"; "c"])
       (Some [from_xyxy (10, 5, 50, 50); from_xyxy (11, 5, 50, 50);
              from_xyxy (12, 5, 50, 50)])
       (Some [7; 8; 9]%nat) (Some [0; 0; 1])
       (Some [Demo.kps1 1 2 1; Demo.kps1 3 4 1; Demo.kps1 5 6 0])).2 = Ok out ∧
    out_keypoints out = Some [Demo.kps1 1 2 1; Demo.kps1 3 4 1] ∧
    out_labels out = Some ["a"; "b"] ∧
    out_bboxes out = Some [from_xyxy (10, 5, 50, 50); from_xyxy (11, 5, 50, 50)] ∧
    out_masks out = Some [7; 8]%nat ∧
    out_iscrowds out = Some [0; 0] ∧
    ∃ tfms_kps_n,
      filter_keypoints [(1, 2); (3, 4); (5, 6)] 500 500 [1; 1; 0]
      = Ok tfms_kps_n ∧
      out_labels out
      = Some (survivors ["a"; "b"; "c"]
                (groups_by_instance
                   [Demo.kps1 1 2 1; Demo.kps1 3 4 1; Demo.kps1 5 6 0]
                   tfms_kps_n)).
Proof.
  eexists. split; [vm_compute; reflexivity|].
  do 5 (split; [reflexivity|]).
  destruct (apply_drops_degenerate Demo.shape Demo.run_identity
              (Adapter_init [Resize 500 500]) [500; 500; 3] ["a"; "b"; "c"]
              [from_xyxy (10, 5, 50, 50); from_xyxy (11, 5, 50, 50);
               from_xyxy (12, 5, 50, 50)]
              [7; 8; 9]%nat [0; 0; 1]
              [Demo.kps1 1 2 1; Demo.kps1 3 4 1; Demo.kps1 5 6 0]
              {| d_image := [500; 500; 3]; d_labels := [0; 1; 2]%nat;
                 d_bboxes := [(10, 5, 50, 50); (11, 5, 50, 50); (12, 5, 50, 50)];
                 d_keypoints := [(1, 2); (3, 4); (5, 6)];
                 d_masks := [7; 8; 9]%nat |}
              _ 1%nat ltac:(repeat constructor)
              ltac:(repeat constructor; simpl; lia) eq_refl eq_refl eq_refl eq_refl
              eq_refl eq_refl eq_refl eq_refl eq_refl)
    as (size & T & _ & _ & Hsize & HT & _ & _ & _ & _ & Hol & _).
  injection Hsize as <-.
  exists T. split; [exact HT | exact Hol].
Defined.

(** C3, as stated, fails by the design of the regrouping and of the test,
    with no box removed.  With one keypoint in the first instance and three
    in the second, the first instance's own post-filter group is all zero,
    yet its chunk of two points has a positive sum and the instance is
    returned in every field.  With a negative visibility, the group
    [(1, 1, -5)] is not all zero and its sum is not zero, yet the test
    [sum(k) > 0] removes the instance from every field.  With three labels,
    boxes, masks and crowd flags but two keypoint sets, [zip] stops at the
    shorter list: the third label, box, mask and crowd flag are removed
    though no keypoint group is all zero. *)
Lemma apply_chunk_sum_is_not_own_group :
  (let labels := ["p"; "q"] in
   let keypoints :=
     [from_xyv [1; 2; 0] ["a"];
      from_xyv [3; 4; 1; 5; 6; 1; 7; 8; 1] ["b"; "c"; "d"]] in
   ∃ out tfms_kps_n,
     (Demo.apply Demo.run_identity (Adapter_init [Resize 500 500])
        [500; 500; 3] (Some labels)
        (Some [from_xyxy (10, 5, 50, 50); from_xyxy (11, 5, 50, 50)])
        (Some [7; 8]%nat) (Some [0; 1]) (Some keypoints)).2 = Ok out ∧
     filter_keypoints (concat (kp_xy <$> keypoints)) 500 500
       (concat (kp_visible <$> keypoints)) = Ok tfms_kps_n ∧
     groups_by_instance keypoints tfms_kps_n
     = [[(0, 0, 0)]; [(3, 4, 1); (5, 6, 1); (7, 8, 1)]] ∧
     out_labels out = Some ["p"; "q"] ∧
     out_bboxes out = Some [from_xyxy (10, 5, 50, 50); from_xyxy (11, 5, 50, 50)] ∧
     out_masks out = Some [7; 8]%nat ∧
     out_iscrowds out = Some [0; 1] ∧
     out_keypoints out
     = Some [from_xyv [0; 0; 0; 3; 4; 1] ["a"];
             from_xyv [5; 6; 1; 7; 8; 1] ["a"]] ∧
     ¬ degenerate_absent labels (groups_by_instance keypoints tfms_kps_n)
         ["p"; "q"]) ∧
  (let labels := ["p"; "q"] in
   let keypoints := [Demo.kps1 1 1 (-5); Demo.kps1 3 4 1] in
   ∃ out tfms_kps_n,
     (Demo.apply Demo.run_identity (Adapter_init [Resize 500 500])
        [500; 500; 3] (Some labels)
        (Some [from_xyxy (10, 5, 50, 50); from_xyxy (11, 5, 50, 50)])
        (Some [7; 8]%nat) (Some [0; 1]) (Some keypoints)).2 = Ok out ∧
     filter_keypoints (concat (kp_xy <$> keypoints)) 500 500
       (concat (kp_visible <$> keypoints)) = Ok tfms_kps_n ∧
     groups_by_instance keypoints tfms_kps_n = [[(1, 1, -5)]; [(3, 4, 1)]] ∧
     all_zero [(1, 1, -5)] = false ∧ sum (flatten [(1, 1, -5)]) = -3 ∧
     out_labels out = Some ["q"] ∧
     out_bboxes out = Some [from_xyxy (11, 5, 50, 50)] ∧
     out_masks out = Some [8]%nat ∧
     out_iscrowds out = Some [1] ∧
     out_keypoints out = Some [Demo.kps1 3 4 1] ∧
     survivors labels (groups_by_instance keypoints tfms_kps_n) = ["p"; "q"] ∧
     out_labels out
     ≠ Some (survivors labels (groups_by_instance keypoints tfms_kps_n))) ∧
  (let labels := ["p"; "q"; "r"] in
   let keypoints := [Demo.kps1 1 2 1; Demo.kps1 3 4 1] in
   ∃ out tfms_kps_n,
     (Demo.apply Demo.run_identity (Adapter_init [Resize 500 500])
        [500; 500; 3] (Some labels)
        (Some [from_xyxy (10, 5, 50, 50); from_xyxy (11, 5, 50, 50);
               from_xyxy (12, 5, 50, 50)])
        (Some [7; 8; 9]%nat) (Some [0; 0; 1]) (Some keypoints)).2 = Ok out ∧
     filter_keypoints (concat (kp_xy <$> keypoints)) 500 500
       (concat (kp_visible <$> keypoints)) = Ok tfms_kps_n ∧
     groups_by_instance keypoints tfms_kps_n = [[(1, 2, 1)]; [(3, 4, 1)]] ∧
     out_keypoints out = Some keypoints ∧
     out_labels out = Some ["p"; "q"] ∧
     out_bboxes out = Some [from_xyxy (10, 5, 50, 50); from_xyxy (11, 5, 50, 50)] ∧
     out_masks out = Some [7; 8]%nat ∧
     out_iscrowds out = Some [0; 0]).
Proof.
  split; [|split].
  - intros labels keypoints. eexists _, _.
    split; [vm_compute; reflexivity|]. split; [reflexivity|].
    do 6 (split; [reflexivity|]).
    intros H. apply (H 0%nat "p" [(0, 0, 0)]); try reflexivity.
    apply list_elem_of_In. simpl. auto.
  - intros labels keypoints. eexists _, _.
    split; [vm_compute; reflexivity|]. split; [reflexivity|].
    do 9 (split; [reflexivity|]). vm_compute. discriminate.
  - intros labels keypoints. eexists _, _.
    split; [vm_compute; reflexivity|]. split; [reflexivity|].
    do 5 (split; [reflexivity|]). reflexivity.
Qed.

(** When the pipeline removes a box, the code pairs the indices left in
    [d["labels"]] with the first groups of [l], not with the groups of the
    instances that are left (lines 161 and 181 to 205).  Here the first box
    is lost and [d["labels"]] is [[1, 2]]; the code pairs these two indices
    with the groups of instances 0 and 1.  Instance 2, whose only keypoint
    is invisible and whose group is all zero, keeps its label, box, mask and
    crowd flag, while the keypoints of instance 0 are returned. *)
Lemma apply_keeps_degenerate_instance :
  let labels := ["a"; "b"; "c"] in
  let keypoints := [Demo.kps1 1 2 1; Demo.kps1 3 4 1; Demo.kps1 5 6 0] in
  ∃ out tfms_kps_n,
    (Demo.apply Demo.run_lose_first (Adapter_init [Resize 500 500])
       [500; 500; 3] (Some labels)
       (Some [from_xyxy (10, 5, 50, 50); from_xyxy (11, 5, 50, 50);
              from_xyxy (12, 5, 50, 50)])
       (Some [7; 8; 9]%nat) (Some [0; 0; 1]) (Some keypoints)).2 = Ok out ∧
    filter_keypoints (concat (kp_xy <$> keypoints)) 500 500
      (concat (kp_visible <$> keypoints)) = Ok tfms_kps_n ∧
    groups_by_instance keypoints tfms_kps_n
    = [[(1, 2, 1)]; [(3, 4, 1)]; [(0, 0, 0)]] ∧
    out_labels out = Some ["b"; "c"] ∧
    out_bboxes out = Some [from_xyxy (11, 5, 50, 50); from_xyxy (12, 5, 50, 50)] ∧
    out_masks out = Some [8; 9]%nat ∧
    out_iscrowds out = Some [0; 1] ∧
    out_keypoints out = Some [Demo.kps1 1 2 1; Demo.kps1 3 4 1] ∧
    ¬ degenerate_absent labels (groups_by_instance keypoints tfms_kps_n)
        ["b"; "c"].
Proof.
  intros labels keypoints. eexists _, _.
  split; [vm_compute; reflexivity|]. split; [reflexivity|].
  do 6 (split; [reflexivity|]).
  intros H. apply (H 2%nat "c" [(0, 0, 0)]); try reflexivity.
  apply list_elem_of_In. simpl. auto.
Qed.

(** ** Size arithmetic: binary64 floats *)

Lemma digits2_log2 (p : positive) :
  Z.pos (digits2_pos p) = Z.log2 (Z.pos p) + 1.
Proof.
  induction p as [p IH|p IH|]; [| |reflexivity]; cbn [digits2_pos];
    rewrite Pos2Z.inj_succ, IH.
  - rewrite Pos2Z.inj_xI, Z.log2_succ_double by lia. lia.
  - rewrite Pos2Z.inj_xO, Z.log2_double by lia. lia.
Qed.

Lemma Zdigits2_log2 (m : Z) : 0 < m → Zdigits2 m = Z.log2 m + 1.
Proof. destruct m as [|p|p]; try lia. intros _. apply digits2_log2. Qed.

Lemma Zdigits2_bounds (m : Z) :
  0 < m → 2 ^ (Zdigits2 m - 1) <= m < 2 ^ Zdigits2 m.
Proof.
  intros Hm. rewrite Zdigits2_log2 by assumption.
  replace (Z.log2 m + 1 - 1) with (Z.log2 m) by lia.
  replace (Z.log2 m + 1) with (Z.succ (Z.log2 m)) by lia.
  apply Z.log2_spec. assumption.
Qed.

Lemma Zdigits2_unique (m d : Z) :
  2 ^ (d - 1) <= m < 2 ^ d → 0 < d → Zdigits2 m = d.
Proof.
  intros Hm Hd.
  assert (0 < m) by (pose proof (Z.pow_pos_nonneg 2 (d - 1)); lia).
  rewrite Zdigits2_log2 by assumption.
  rewrite (Z.log2_unique m (d - 1)); [lia | lia|].
  replace (Z.succ (d - 1)) with d by lia. assumption.
Qed.

Lemma Zdigits2_mul_pow2 (m k : Z) :
  0 < m → 0 <= k → Zdigits2 (m * 2 ^ k) = Zdigits2 m + k.
Proof.
  intros Hm Hk. assert (0 < 2 ^ k) by (apply Z.pow_pos_nonneg; lia).
  rewrite !Zdigits2_log2 by nia.
  rewrite Z.log2_mul_pow2 by lia. lia.
Qed.

Lemma Zdigits2_div_pow2 (m k : Z) :
  0 < m → 0 <= k < Zdigits2 m → Zdigits2 (m / 2 ^ k) = Zdigits2 m - k.
Proof.
  intros Hm Hk. pose proof (Zdigits2_bounds m Hm) as [Hlo Hhi].
  assert (0 < 2 ^ k) by (apply Z.pow_pos_nonneg; lia).
  apply Zdigits2_unique; [|lia]. split.
  - apply Z.div_le_lower_bound; [lia|].
    rewrite <- Z.pow_add_r by lia.
    replace (k + (Zdigits2 m - k - 1)) with (Zdigits2 m - 1) by lia. exact Hlo.
  - apply Z.div_lt_upper_bound; [lia|].
    rewrite <- Z.pow_add_r by lia.
    replace (k + (Zdigits2 m - k)) with (Zdigits2 m) by lia. exact Hhi.
Qed.

(** *** Shifting a mantissa to the right *)

Lemma shr_1_nonneg (m : Z) (r s : bool) :
  0 <= m →
  shr_1 {| shr_m := m; shr_r := r; shr_s := s |}
  = {| shr_m := m / 2; shr_r := Z.odd m; shr_s := r || s |}.
Proof.
  intros Hm. rewrite <- Z.div2_div.
  destruct m as [|[p|p|]|p]; try reflexivity. lia.
Qed.

Lemma iter_pos_nat {A} (f : A → A) (n : positive) : ∀ x,
  iter_pos f n x = Nat.iter (Pos.to_nat n) f x.
Proof.
  induction n as [n IH|n IH|]; intros x; cbn [iter_pos]; [| |reflexivity].
  - rewrite !IH, Pos2Nat.inj_xI, <- Nat.iter_succ_r.
    replace (S (2 * Pos.to_nat n))%nat with (Pos.to_nat n + S (Pos.to_nat n))%nat by lia.
    rewrite Nat.iter_add. reflexivity.
  - rewrite !IH, Pos2Nat.inj_xO.
    replace (2 * Pos.to_nat n)%nat with (Pos.to_nat n + Pos.to_nat n)%nat by lia.
    rewrite Nat.iter_add. reflexivity.
Qed.

Lemma iter_shr_1_m (n : nat) : ∀ m r s,
  0 <= m →
  shr_m (Nat.iter n shr_1 {| shr_m := m; shr_r := r; shr_s := s |})
  = m / 2 ^ Z.of_nat n.
Proof.
  induction n as [|n IH]; intros m r s Hm.
  - simpl. rewrite Z.div_1_r. reflexivity.
  - rewrite Nat.iter_succ_r, shr_1_nonneg by assumption.
    rewrite IH by (apply Z.div_pos; lia).
    rewrite Nat2Z.inj_succ, Z.pow_succ_r by lia.
    rewrite Z.div_div by (try apply Z.pow_pos_nonneg; lia). reflexivity.
Qed.

Lemma iter_shr_1_exact (n : nat) : ∀ M,
  0 <= M →
  Nat.iter n shr_1 {| shr_m := M * 2 ^ Z.of_nat n; shr_r := false; shr_s := false |}
  = {| shr_m := M; shr_r := false; shr_s := false |}.
Proof.
  induction n as [|n IH]; intros M HM.
  - simpl. rewrite Z.mul_1_r. reflexivity.
  - rewrite Nat.iter_succ_r, shr_1_nonneg.
    + rewrite Nat2Z.inj_succ, Z.pow_succ_r by lia.
      replace (M * (2 * 2 ^ Z.of_nat n)) with ((M * 2 ^ Z.of_nat n) * 2) by lia.
      rewrite Z.div_mul by lia. rewrite Z.odd_mul. simpl.
      rewrite andb_false_r. apply IH. exact HM.
    + apply Z.mul_nonneg_nonneg; [lia|]. apply Z.pow_nonneg. lia.
Qed.

Lemma fexp_eq (e : Z) : fexp prec emax e = Z.max (e - 53) (-1074).
Proof. reflexivity. Qed.

Lemma shr_exact (M E n : Z) :
  0 <= M → 0 <= n →
  shr {| shr_m := M * 2 ^ n; shr_r := false; shr_s := false |} E n
  = ({| shr_m := M; shr_r := false; shr_s := false |}, E + n).
Proof.
  intros HM Hn. destruct n as [|p|p]; [| |lia].
  - simpl. rewrite Z.mul_1_r, Z.add_0_r. reflexivity.
  - cbn [shr]. rewrite iter_pos_nat.
    rewrite <- (positive_nat_Z p) at 1.
    rewrite iter_shr_1_exact by assumption. reflexivity.
Qed.

Lemma shr_div (m E n : Z) (r s : bool) :
  0 <= m → 0 <= n →
  ∃ r' s',
    shr {| shr_m := m; shr_r := r; shr_s := s |} E n
    = ({| shr_m := m / 2 ^ n; shr_r := r'; shr_s := s' |}, E + n).
Proof.
  intros Hm Hn. destruct n as [|p|p]; [| |lia].
  - exists r, s. simpl. rewrite Z.div_1_r, Z.add_0_r. reflexivity.
  - cbn [shr]. rewrite iter_pos_nat.
    pose proof (iter_shr_1_m (Pos.to_nat p) m r s Hm) as Hdiv.
    rewrite positive_nat_Z in Hdiv.
    destruct (Nat.iter _ _ _) as [m' r' s']. simpl in Hdiv. subst m'.
    exists r', s'. reflexivity.
Qed.

(** A mantissa that needs no rounding: [M * 2^n] at exponent [E] is the
    float [M] at exponent [E + n] when that is where [fexp] puts it. *)
Lemma binary_round_aux_exact (s : bool) (M E n : Z) :
  0 < M → 0 <= n →
  fexp prec emax (Zdigits2 M + n + E) = E + n →
  E + n <= 971 →
  binary_round_aux prec emax s (M * 2 ^ n) E loc_Exact
  = S754_finite s (Z.to_pos M) (E + n).
Proof.
  intros HM Hn He0 Hmax. unfold binary_round_aux, shr_fexp.
  rewrite Zdigits2_mul_pow2 by lia. rewrite He0.
  replace (E + n - E) with n by lia.
  cbn [shr_record_of_loc]. rewrite shr_exact by lia.
  cbn [shr_m loc_of_shr_record round_nearest_even].
  replace (Zdigits2 M + (E + n)) with (Zdigits2 M + n + E) by lia.
  rewrite He0, Z.sub_diag. cbn [shr shr_m].
  destruct M as [|p|p]; try lia. cbn [Z.to_pos].
  destruct (Z.leb_spec (E + n) (emax - prec)) as [_|Hgt]; [reflexivity|].
  unfold emax, prec in Hgt. lia.
Qed.

Lemma Pos_iter_xO (m d : positive) :
  Z.pos (Pos.iter xO m d) = Z.pos m * 2 ^ Z.pos d.
Proof.
  revert m. induction d as [|d IH] using Pos.peano_ind; intros m.
  - simpl. lia.
  - rewrite Pos.iter_succ, Pos2Z.inj_xO, IH, Pos2Z.inj_succ, Z.pow_succ_r by lia.
    lia.
Qed.

(** [binary_round] of a mantissa that is short enough only shifts it to
    the left. *)
Lemma binary_round_shl (s : bool) (M : positive) (E e0 : Z) :
  fexp prec emax (Z.pos (digits2_pos M) + E) = e0 →
  e0 <= E → e0 <= 971 →
  binary_round prec emax s M E
  = S754_finite s (Z.to_pos (Z.pos M * 2 ^ (E - e0))) e0.
Proof.
  intros Hfexp He0 Hmax. unfold binary_round, shl_align. rewrite Hfexp.
  destruct (e0 - E) as [|d|d] eqn:Hd; try lia.
  - assert (E = e0) by lia. subst E. rewrite Z.sub_diag, Z.mul_1_r.
    rewrite <- (Z.mul_1_r (Z.pos M)) at 1. change 1 with (2 ^ 0) at 1.
    rewrite binary_round_aux_exact; try lia.
    + rewrite Z.add_0_r. reflexivity.
    + rewrite !Z.add_0_r. exact Hfexp.
  - assert (HE : E - e0 = Z.pos d) by lia. rewrite HE.
    rewrite <- (Z.mul_1_r (Z.pos (Pos.iter xO M d))). change 1 with (2 ^ 0) at 1.
    rewrite binary_round_aux_exact; try lia.
    + rewrite Z.add_0_r, Pos_iter_xO. reflexivity.
    + rewrite Z.add_0_r, Pos_iter_xO, Zdigits2_mul_pow2 by lia.
      rewrite <- HE. replace (Zdigits2 (Z.pos M) + (E - e0) + e0)
        with (Z.pos (digits2_pos M) + E) by (simpl; lia).
      rewrite Z.add_0_r. exact Hfexp.
Qed.

(** [binary_round] of a longer mantissa whose low bits are zero shifts it
    to the right with nothing lost. *)
Lemma binary_round_shr (s : bool) (M' : positive) (n E : Z) :
  0 <= n →
  fexp prec emax (Z.pos (digits2_pos M') + n + E) = E + n → E + n <= 971 →
  binary_round prec emax s (Z.to_pos (Z.pos M' * 2 ^ n)) E
  = S754_finite s M' (E + n).
Proof.
  intros Hn He0 Hmax.
  assert (Hpos : 0 < Z.pos M' * 2 ^ n) by (pose proof (Z.pow_pos_nonneg 2 n); nia).
  assert (Hdig : Z.pos (digits2_pos (Z.to_pos (Z.pos M' * 2 ^ n)))
                 = Z.pos (digits2_pos M') + n).
  { change (Z.pos (digits2_pos ?p)) with (Zdigits2 (Z.pos p)).
    rewrite Z2Pos.id by exact Hpos. apply Zdigits2_mul_pow2; lia. }
  unfold binary_round, shl_align. rewrite Hdig, He0.
  replace (E + n - E) with n by lia.
  destruct n as [|p|p]; try lia.
  - rewrite Z2Pos.id by exact Hpos.
    rewrite (binary_round_aux_exact s (Z.pos M') E 0); try lia; [reflexivity|].
    exact He0.
  - rewrite Z2Pos.id by exact Hpos.
    rewrite (binary_round_aux_exact s (Z.pos M') E (Z.pos p)); try lia;
      [reflexivity|]. exact He0.
Qed.

Lemma digits_53 (m : positive) :
  Z.pos (digits2_pos m) = 53 ↔ 2 ^ 52 <= Z.pos m < 2 ^ 53.
Proof.
  change (Z.pos (digits2_pos m)) with (Zdigits2 (Z.pos m)). split.
  - intros H. pose proof (Zdigits2_bounds (Z.pos m) ltac:(lia)) as Hb.
    rewrite H in Hb. exact Hb.
  - intros H. apply Zdigits2_unique; [exact H | lia].
Qed.

(** Rounding a mantissa of at least 53 bits gives a normal float. *)
Lemma binary_round_aux_normal (s : bool) (M E : Z) (l : location) :
  0 < M → 53 <= Zdigits2 M →
  -1074 <= Zdigits2 M + E - 53 → Zdigits2 M + E - 52 <= 971 →
  ∃ m e,
    binary_round_aux prec emax s M E l = S754_finite s m e ∧
    Z.pos (digits2_pos m) = 53 ∧
    (e = Zdigits2 M + E - 53 ∨ e = Zdigits2 M + E - 52).
Proof.
  intros HM Hd Hlo Hhi. set (d := Zdigits2 M) in *.
  set (n := d - 53). set (m1 := M / 2 ^ n).
  assert (Hm1 : Zdigits2 m1 = 53).
  { unfold m1. rewrite Zdigits2_div_pow2; fold d; lia. }
  assert (Hm1b : 2 ^ 52 <= m1 < 2 ^ 53).
  { assert (0 < m1).
    { unfold m1. apply Z.div_str_pos. split; [apply Z.pow_pos_nonneg; lia|].
      pose proof (Zdigits2_bounds M HM) as [Hb _]. fold d in Hb.
      eapply Z.le_trans; [|exact Hb]. apply Z.pow_le_mono_r; lia. }
    pose proof (Zdigits2_bounds m1 ltac:(lia)) as Hb. rewrite Hm1 in Hb. exact Hb. }
  unfold binary_round_aux, shr_fexp. fold d.
  rewrite fexp_eq. replace (Z.max (d + E - 53) (-1074) - E) with n by lia.
  assert (Hrec : ∃ r s', shr_record_of_loc M l
                         = {| shr_m := M; shr_r := r; shr_s := s' |}).
  { destruct l as [|[]]; simpl; eauto. }
  destruct Hrec as (r & s' & ->).
  destruct (shr_div M E n r s') as (r' & s'' & ->); [lia | lia|].
  fold m1. cbn [shr_m].
  set (m2 := round_nearest_even m1 _).
  assert (Hm2 : m2 = m1 ∨ m2 = m1 + 1).
  { unfold m2. destruct r', s''; simpl; auto. destruct (Z.even m1); auto. }
  destruct (Z.eq_dec m2 (2 ^ 53)) as [Heq|Hne].
  - rewrite Heq. change (Zdigits2 (2 ^ 53)) with 54.
    rewrite fexp_eq. replace (Z.max (54 + (E + n) - 53) (-1074) - (E + n)) with 1 by lia.
    change (shr_record_of_loc (2 ^ 53) loc_Exact)
      with {| shr_m := 2 ^ 52 * 2 ^ 1; shr_r := false; shr_s := false |}.
    rewrite shr_exact by lia. cbn [shr_m].
    change (2 ^ 52) with (Z.pos (Z.to_pos (2 ^ 52))).
    destruct (Z.leb_spec (E + n + 1) (emax - prec)) as [_|Hgt];
      [|unfold emax, prec in Hgt; lia].
    eexists _, _. split; [reflexivity|]. split; [reflexivity|]. right. lia.
  - assert (Hm2b : 2 ^ 52 <= m2 < 2 ^ 53) by lia.
    rewrite (Zdigits2_unique m2 53) by lia.
    rewrite fexp_eq. replace (Z.max (53 + (E + n) - 53) (-1074) - (E + n)) with 0 by lia.
    cbn [shr_record_of_loc shr shr_m].
    destruct m2 as [|p|p] eqn:Hp; try lia.
    destruct (Z.leb_spec (E + n) (emax - prec)) as [_|Hgt];
      [|unfold emax, prec in Hgt; lia].
    exists p, (E + n). split; [reflexivity|]. split; [|left; lia].
    apply digits_53. exact Hm2b.
Qed.

(** [float(n)] is exact for a positive [n] below [2^53]. *)
Lemma float_of_int_small (n : Z) :
  0 < n < 2 ^ 53 →
  ∃ m e,
    float_of_int n = Ok (S754_finite false m e) ∧
    Z.pos (digits2_pos m) = 53 ∧
    e = Zdigits2 n - 53 ∧ Z.pos m = n * 2 ^ (53 - Zdigits2 n).
Proof.
  intros Hn. destruct n as [|p|p]; try lia.
  pose proof (Zdigits2_bounds (Z.pos p) ltac:(lia)) as Hb.
  assert (Hd : 1 <= Zdigits2 (Z.pos p) <= 53).
  { split.
    - simpl. lia.
    - destruct (Z.le_gt_cases (Zdigits2 (Z.pos p)) 53) as [|Hgt]; [assumption|].
      assert (2 ^ 53 <= 2 ^ (Zdigits2 (Z.pos p) - 1)) by (apply Z.pow_le_mono_r; lia).
      lia. }
  unfold float_of_int, float_lit, binary_normalize.
  rewrite (binary_round_shl false p 0 (Zdigits2 (Z.pos p) - 53)).
  - eexists _, _. split; [reflexivity|].
    assert (Hpos : 0 < Z.pos p * 2 ^ (0 - (Zdigits2 (Z.pos p) - 53))).
    { apply Z.mul_pos_pos; [lia|]. apply Z.pow_pos_nonneg; lia. }
    split_and!.
    + change (Z.pos (digits2_pos ?q)) with (Zdigits2 (Z.pos q)).
      rewrite Z2Pos.id by exact Hpos.
      rewrite Zdigits2_mul_pow2 by lia. lia.
    + reflexivity.
    + rewrite Z2Pos.id by exact Hpos. f_equal. f_equal. lia.
  - rewrite fexp_eq. change (Z.pos (digits2_pos p)) with (Zdigits2 (Z.pos p)). lia.
  - lia.
  - lia.
Qed.

Lemma float_of_int_normal (n : Z) :
  0 < n < 2 ^ 53 → ∃ x, float_of_int n = Ok x ∧ normal (-52) 0 x.
Proof.
  intros Hn. destruct (float_of_int_small n Hn) as (m & e & Hf & Hd & He & _).
  exists (S754_finite false m e). split; [exact Hf|].
  exists m, e. split; [reflexivity|]. split; [exact Hd|].
  pose proof (Zdigits2_bounds n ltac:(lia)) as Hb.
  assert (1 <= Zdigits2 n).
  { destruct n; simpl; lia. }
  assert (Zdigits2 n <= 53).
  { destruct (Z.le_gt_cases (Zdigits2 n) 53) as [|Hgt]; [assumption|].
    assert (2 ^ 53 <= 2 ^ (Zdigits2 n - 1)) by (apply Z.pow_le_mono_r; lia). lia. }
  lia.
Qed.

Lemma f_mul_normal (lo1 hi1 lo2 hi2 : Z) (a b : float) :
  normal lo1 hi1 a → normal lo2 hi2 b →
  -1126 <= lo1 + lo2 → hi1 + hi2 <= 917 →
  normal (lo1 + lo2 + 52) (hi1 + hi2 + 54) (f_mul a b).
Proof.
  intros (ma & ea & -> & Hda & Hea) (mb & eb & -> & Hdb & Heb) Hlo Hhi.
  apply digits_53 in Hda, Hdb.
  unfold f_mul, SFmul. cbn [xorb].
  assert (Hprod : 2 ^ 104 <= Z.pos (ma * mb) < 2 ^ 106).
  { rewrite Pos2Z.inj_mul. change (2 ^ 104) with (2 ^ 52 * 2 ^ 52).
    change (2 ^ 106) with (2 ^ 53 * 2 ^ 53). nia. }
  assert (Hd : Zdigits2 (Z.pos (ma * mb)) = 105 ∨ Zdigits2 (Z.pos (ma * mb)) = 106).
  { destruct (Z.lt_ge_cases (Z.pos (ma * mb)) (2 ^ 105)).
    - left. apply Zdigits2_unique; lia.
    - right. apply Zdigits2_unique; lia. }
  destruct (binary_round_aux_normal false (Z.pos (ma * mb)) (ea + eb) loc_Exact)
    as (m & e & -> & Hm & He); try lia.
  exists m, e. split; [reflexivity|]. split; [exact Hm|]. lia.
Qed.

Lemma f_div_normal (lo1 hi1 lo2 hi2 : Z) (a b : float) :
  normal lo1 hi1 a → normal lo2 hi2 b →
  -1021 <= lo1 - hi2 → hi1 - lo2 <= 1022 →
  ∃ q, f_div a b = Ok q ∧ normal (lo1 - hi2 - 53) (hi1 - lo2 - 51) q.
Proof.
  intros (ma & ea & -> & Hda & Hea) (mb & eb & -> & Hdb & Heb) Hlo Hhi.
  eexists. split; [reflexivity|].
  unfold SFdiv, SFdiv_core_binary. cbn [xorb Zdigits2]. rewrite Hda, Hdb.
  replace (53 + ea - (53 + eb)) with (ea - eb) by lia.
  rewrite fexp_eq.
  replace (Z.min (Z.max (ea - eb - 53) (-1074)) (ea - eb)) with (ea - eb - 53) by lia.
  replace (ea - eb - (ea - eb - 53)) with 53 by lia.
  rewrite Z.shiftl_mul_pow2 by lia.
  apply digits_53 in Hda, Hdb.
  pose proof (Z_div_mod (Z.pos ma * 2 ^ 53) (Z.pos mb) ltac:(lia)) as Hdm.
  destruct (Z.div_eucl (Z.pos ma * 2 ^ 53) (Z.pos mb)) as [q r].
  destruct Hdm as [Hq Hr].
  assert (Hqb : 2 ^ 52 <= q < 2 ^ 54).
  { change (2 ^ 53) with 9007199254740992 in *.
    change (2 ^ 52) with 4503599627370496 in *.
    change (2 ^ 54) with 18014398509481984 in *. nia. }
  assert (Hd : Zdigits2 q = 53 ∨ Zdigits2 q = 54).
  { destruct (Z.lt_ge_cases q (2 ^ 53)).
    - left. apply Zdigits2_unique; lia.
    - right. apply Zdigits2_unique; lia. }
  destruct (binary_round_aux_normal false q (ea - eb - 53) (new_location (Z.pos mb) r))
    as (m & e & -> & Hm & He); try lia.
  exists m, e. split; [reflexivity|]. split; [exact Hm|]. lia.
Qed.

(** A float divided by itself is [1.0]. *)
Lemma f_div_self (s : bool) (m : positive) (e : Z) :
  f_div (S754_finite s m e) (S754_finite s m e) = Ok f_one.
Proof.
  unfold f_div, SFdiv, SFdiv_core_binary. f_equal.
  replace (Zdigits2 (Z.pos m) + e - (Zdigits2 (Z.pos m) + e)) with 0 by lia.
  rewrite Z.sub_diag.
  change (Z.min (fexp prec emax 0) 0) with (-53).
  change (0 - -53) with 53.
  rewrite Z.shiftl_mul_pow2 by lia.
  pose proof (Z_div_mod (Z.pos m * 2 ^ 53) (Z.pos m) ltac:(lia)) as Hdm.
  destruct (Z.div_eucl (Z.pos m * 2 ^ 53) (Z.pos m)) as [q r].
  destruct Hdm as [Hq Hr].
  assert (r = 0 ∧ q = 2 ^ 53) as [-> ->].
  { assert (Hr0 : r = Z.pos m * (2 ^ 53 - q)) by lia.
    assert (0 <= 2 ^ 53 - q < 1) by nia. split; nia. }
  assert (Hloc : new_location (Z.pos m) 0 = loc_Exact).
  { unfold new_location, new_location_even, new_location_odd.
    destruct (Z.even (Z.pos m)); reflexivity. }
  rewrite Hloc. destruct s; reflexivity.
Qed.

Lemma div_mod_pow2 (m k : Z) :
  0 <= k → m = 2 ^ k * (m / 2 ^ k) + m mod 2 ^ k ∧ 0 <= m mod 2 ^ k < 2 ^ k.
Proof.
  intros Hk. assert (0 < 2 ^ k) by (apply Z.pow_pos_nonneg; lia).
  split; [apply Z.div_mod; lia | apply Z.mod_pos_bound; lia].
Qed.

Lemma round_shift_cases (m k : Z) :
  0 <= k →
  let q := m / 2 ^ k in
  let r := m mod 2 ^ k in
  (2 * r < 2 ^ k ∧ round_shift m k = q) ∨
  (2 * r > 2 ^ k ∧ round_shift m k = q + 1) ∨
  (2 * r = 2 ^ k ∧ Z.even q = true ∧ round_shift m k = q) ∨
  (2 * r = 2 ^ k ∧ Z.even q = false ∧ round_shift m k = q + 1).
Proof.
  intros Hk q r. unfold round_shift. fold q r.
  destruct (Z.compare_spec (2 * r) (2 ^ k)) as [Heq|Hlt|Hgt].
  - destruct (Z.even q) eqn:Hev; [right; right; left | right; right; right]; auto.
  - left. auto.
  - right. left. split; [lia | reflexivity].
Qed.

Lemma round_shift_nearest (m k : Z) :
  0 <= k → nearest_even m k (round_shift m k).
Proof.
  intros Hk. destruct (div_mod_pow2 m k Hk) as [Hm Hr].
  unfold nearest_even.
  destruct (round_shift_cases m k Hk) as [[H ->]|[[H ->]|[(H & Hev & ->)|(H & Hev & ->)]]].
  - left. lia.
  - left. lia.
  - right. split; [lia | exact Hev].
  - right. split; [lia|]. rewrite Z.even_add, Hev. reflexivity.
Qed.

Lemma round_shift_range (m k : Z) :
  0 <= k → m / 2 ^ k <= round_shift m k <= m / 2 ^ k + 1.
Proof.
  intros Hk.
  destruct (round_shift_cases m k Hk) as [[H ->]|[[H ->]|[(H & Hev & ->)|(H & Hev & ->)]]];
    lia.
Qed.

Lemma round_shift_small (m k : Z) :
  0 <= m → 0 <= k → 2 * m < 2 ^ k → round_shift m k = 0.
Proof.
  intros Hm Hk Hlt.
  assert (Hq : m / 2 ^ k = 0) by (apply Z.div_small; lia).
  assert (Hr : m mod 2 ^ k = m) by (apply Z.mod_small; lia).
  destruct (round_shift_cases m k Hk) as [[H ->]|[[H _]|[(H & _)|(H & _)]]];
    lia.
Qed.

(** On a tie the rounding of the half is half the rounding: this is what
    the branch [2.0 * round(number / 2.0)] of [py3round] relies on. *)
Lemma round_shift_tie (m k : Z) :
  0 <= k →
  2 * Z.abs (m - round_shift m k * 2 ^ k) = 2 ^ k →
  2 * round_shift m (k + 1) = round_shift m k.
Proof.
  intros Hk Htie. destruct (div_mod_pow2 m k Hk) as [Hm Hr].
  assert (HP : 0 < 2 ^ k) by (apply Z.pow_pos_nonneg; lia).
  assert (HP2 : 2 ^ (k + 1) = 2 * 2 ^ k) by (rewrite Z.pow_add_r; lia).
  pose proof (round_shift_cases m k Hk) as Hc1.
  pose proof (round_shift_cases m (k + 1) ltac:(lia)) as Hc2.
  cbv zeta in Hc1, Hc2. rewrite HP2 in Hc2.
  pose proof (Zmod_even (m / 2 ^ k)) as Heven.
  pose proof (Z.div_mod (m / 2 ^ k) 2 ltac:(lia)) as Hq2.
  pose proof (Z.mod_pos_bound (m / 2 ^ k) 2 ltac:(lia)) as Hb.
  assert (Hdm : m / (2 * 2 ^ k) = m / 2 ^ k / 2 ∧
                m mod (2 * 2 ^ k) = 2 ^ k * (m / 2 ^ k mod 2) + m mod 2 ^ k).
  { apply (Z.div_mod_unique (2 * 2 ^ k) _ _ _ _); try nia.
    - left. apply Z.mod_pos_bound. lia.
    - rewrite <- Z.div_mod by lia. nia. }
  destruct Hdm as [Hdiv Hmod]. rewrite Hdiv, Hmod in Hc2.
  generalize dependent (round_shift m (k + 1)).
  generalize dependent (round_shift m k).
  generalize dependent (m mod 2 ^ k). generalize dependent (m / 2 ^ k / 2).
  generalize dependent (m / 2 ^ k mod 2).
  generalize dependent (Z.even (m / 2 ^ k)).
  generalize dependent (m / 2 ^ k). generalize dependent (2 ^ k).
  intros P HP _ q ev rq hq r Hm Hr Hq2 Hb Heven n1 Htie Hc1 n2 Hc2.
  destruct ev; lia.
Qed.

Lemma shl_align_fst (mx : positive) (ex ez : Z) :
  ez <= ex → Z.pos (shl_align mx ex ez).1 = Z.pos mx * 2 ^ (ex - ez).
Proof.
  intros Hle. unfold shl_align. destruct (ez - ex) as [|d|d] eqn:Hd; try lia.
  - replace (ex - ez) with 0 by lia. simpl. lia.
  - simpl. rewrite Pos_iter_xO. f_equal. f_equal. lia.
Qed.

(** Comparing with [0.5]. *)
Lemma f_half_eq : f_half = S754_finite false (Z.to_pos (2 ^ 52)) (-53).
Proof. reflexivity. Qed.

Lemma f_eqb_finite (m1 m2 : positive) (e1 e2 : Z) :
  f_eqb (S754_finite false m1 e1) (S754_finite false m2 e2) = true →
  e1 = e2 ∧ m1 = m2.
Proof.
  unfold f_eqb, SFeqb, SFcompare.
  destruct (Z.compare_spec e1 e2) as [->|?|?]; [|intros [=] ..].
  rewrite Pos.compare_cont_spec. cbn [Pos.switch_Eq].
  destruct (Pos.compare_spec m1 m2) as [->|?|?]; [|intros [=] ..].
  intros _. split; reflexivity.
Qed.

Lemma f_eqb_half (m : positive) (e : Z) :
  f_eqb (S754_finite false m e) f_half = true → e = -53 ∧ Z.pos m = 2 ^ 52.
Proof.
  rewrite f_half_eq. intros H. apply f_eqb_finite in H as [-> ->].
  split; reflexivity.
Qed.

(** Halving a normal float is exact. *)
Lemma f_div_two (m : positive) (e : Z) :
  Z.pos (digits2_pos m) = 53 → -1072 <= e <= 971 →
  f_div (S754_finite false m e) f_two = Ok (S754_finite false m (e - 1)).
Proof.
  intros Hd He. change f_two with (S754_finite false 4503599627370496 (-51)).
  unfold f_div, SFdiv, SFdiv_core_binary. f_equal. cbn [xorb Zdigits2].
  rewrite Hd. change (Z.pos (digits2_pos 4503599627370496)) with 53.
  rewrite fexp_eq.
  replace (Z.min (Z.max (53 + e - (53 + -51) - 53) (-1074)) (e - -51))
    with (e - 2) by lia.
  replace (e - -51 - (e - 2)) with 53 by lia.
  rewrite Z.shiftl_mul_pow2 by lia.
  pose proof (Z_div_mod (Z.pos m * 2 ^ 53) 4503599627370496 ltac:(lia)) as Hdm.
  destruct (Z.div_eucl (Z.pos m * 2 ^ 53) 4503599627370496) as [q r].
  destruct Hdm as [Hq Hr].
  assert (r = 0 ∧ q = Z.pos m * 2 ^ 1) as [-> ->].
  { change (2 ^ 53) with (4503599627370496 * 2) in Hq. change (2 ^ 1) with 2. lia. }
  change (new_location 4503599627370496 0) with loc_Exact.
  rewrite (binary_round_aux_exact false (Z.pos m) (e - 2) 1); try lia.
  - f_equal. lia.
  - cbn [Zdigits2]. rewrite Hd, fexp_eq. lia.
Qed.

(** Doubling the float of a small positive integer, and reading the
    result back as an integer. *)
Lemma py_int_double (n : Z) (fn : float) :
  0 < n < 2 ^ 53 → float_of_int n = Ok fn → py_int (f_mul f_two fn) = Ok (2 * n).
Proof.
  intros Hn Hfn. destruct (float_of_int_small n Hn) as (m & e & Hf & Hd & He & Hm).
  rewrite Hf in Hfn. injection Hfn as <-.
  pose proof (Zdigits2_bounds n ltac:(lia)) as Hb.
  assert (Hdn : 1 <= Zdigits2 n <= 53).
  { split; [destruct n; simpl; lia|].
    destruct (Z.le_gt_cases (Zdigits2 n) 53) as [|Hgt]; [assumption|].
    assert (2 ^ 53 <= 2 ^ (Zdigits2 n - 1)) by (apply Z.pow_le_mono_r; lia). lia. }
  change f_two with (S754_finite false 4503599627370496 (-51)).
  unfold f_mul, SFmul. cbn [xorb].
  replace (Z.pos (4503599627370496 * m)) with (Z.pos m * 2 ^ 52) by (simpl; lia).
  rewrite (binary_round_aux_exact false (Z.pos m) (-51 + e) 52); try lia.
  - cbn [py_int cond_Zopp Z.to_pos]. f_equal.
    destruct (Z.leb_spec 0 (-51 + e + 52)) as [Hge|Hlt].
    + rewrite Hm, <- Z.mul_assoc, <- Z.pow_add_r by lia.
      replace (53 - Zdigits2 n + (-51 + e + 52)) with 1 by lia. lia.
    + rewrite Hm.
      replace (53 - Zdigits2 n) with (1 + - (-51 + e + 52)) by lia.
      rewrite Z.pow_add_r by lia.
      rewrite Z.mul_assoc, Z.div_mul by (apply Z.pow_nonzero; lia). lia.
  - cbn [Zdigits2]. rewrite Hd, fexp_eq. lia.
Qed.

Lemma float_of_int_pow2 (m : positive) (e : Z) :
  Z.pos (digits2_pos m) = 53 → 0 <= e <= 971 →
  float_of_int (Z.pos m * 2 ^ e) = Ok (S754_finite false m e).
Proof.
  intros Hd He.
  assert (Hpos : 0 < Z.pos m * 2 ^ e) by (pose proof (Z.pow_pos_nonneg 2 e); nia).
  rewrite <- (Z2Pos.id _ Hpos).
  unfold float_of_int, float_lit, binary_normalize.
  rewrite (binary_round_shr false m e 0); try lia; [reflexivity|].
  rewrite Hd, fexp_eq. lia.
Qed.

Lemma f_sub_self (s : bool) (m : positive) (e : Z) :
  f_sub (S754_finite s m e) (S754_finite s m e) = S754_zero false.
Proof.
  unfold f_sub, SFsub. rewrite Z.min_id, Z.sub_diag. reflexivity.
Qed.

Lemma Zdigits2_le (n k : Z) : 0 < n → 0 <= k → n < 2 ^ k → Zdigits2 n <= k.
Proof.
  intros Hn Hk Hlt. pose proof (Zdigits2_bounds n Hn) as [Hlo _].
  destruct (Z.le_gt_cases (Zdigits2 n) k) as [|Hgt]; [assumption|].
  assert (2 ^ k <= 2 ^ (Zdigits2 n - 1)) by (apply Z.pow_le_mono_r; lia). lia.
Qed.

Lemma Zdigits2_ge (n k : Z) : 0 <= k → 2 ^ k <= n → k + 1 <= Zdigits2 n.
Proof.
  intros Hk Hle. assert (Hn : 0 < n) by (pose proof (Z.pow_pos_nonneg 2 k); lia).
  pose proof (Zdigits2_bounds n Hn) as [_ Hhi].
  destruct (Z.le_gt_cases (k + 1) (Zdigits2 n)) as [|Hgt]; [assumption|].
  assert (0 <= Zdigits2 n) by (destruct n; simpl; lia).
  assert (2 ^ Zdigits2 n <= 2 ^ k) by (apply Z.pow_le_mono_r; lia). lia.
Qed.

(** The tie branch of [py3round], once its test has succeeded. *)
Lemma py3round_tie_branch (m : positive) (e : Z) :
  Z.pos (digits2_pos m) = 53 → -53 <= e < 0 →
  0 < round_shift (Z.pos m) (- e) →
  2 * Z.abs (Z.pos m - round_shift (Z.pos m) (- e) * 2 ^ (- e)) = 2 ^ (- e) →
  (h ← f_div (S754_finite false m e) f_two;
   rh ← py_round h;
   frh ← float_of_int rh;
   py_int (f_mul f_two frh)) = Ok (round_shift (Z.pos m) (- e)).
Proof.
  intros Hd He Hr Htie.
  rewrite f_div_two by lia. cbn [mbind result_bind py_round cond_Zopp].
  destruct (Z.leb_spec 0 (e - 1)) as [|_]; [lia|].
  replace (- (e - 1)) with (- e + 1) by lia.
  pose proof (round_shift_tie (Z.pos m) (- e) ltac:(lia) Htie) as Hhalf.
  pose proof (round_shift_range (Z.pos m) (- e) ltac:(lia)) as Hrange.
  apply digits_53 in Hd.
  assert (Hq : Z.pos m / 2 ^ (- e) < 2 ^ 52).
  { apply Z.div_lt_upper_bound; [apply Z.pow_pos_nonneg; lia|].
    assert (2 ^ 1 <= 2 ^ (- e)) by (apply Z.pow_le_mono_r; lia).
    change (2 ^ 1) with 2 in *. change (2 ^ 53) with (2 * 2 ^ 52) in Hd. nia. }
  set (rh := round_shift (Z.pos m) (- e + 1)) in *.
  assert (Hrh : 0 < rh < 2 ^ 53) by lia.
  destruct (float_of_int_small rh Hrh) as (mh & eh & Hf & _).
  rewrite Hf. cbn [mbind result_bind].
  rewrite (py_int_double rh _ Hrh Hf). f_equal. exact Hhalf.
Qed.

(** [py3round] returns what [round] returns: on Python 3 the tie branch
    changes nothing. *)
Lemma py3round_normal (m : positive) (e : Z) :
  Z.pos (digits2_pos m) = 53 → -1000 <= e <= 971 →
  py3round (S754_finite false m e) = py_round (S754_finite false m e).
Proof.
  intros Hd He. unfold py3round.
  cbn [py_round mbind result_bind cond_Zopp].
  destruct (Z.leb_spec 0 e) as [Hpos|Hneg].
  - rewrite float_of_int_pow2 by lia. cbn [mbind result_bind].
    rewrite f_sub_self. reflexivity.
  - set (k := - e). set (r := round_shift (Z.pos m) k).
    pose proof (round_shift_range (Z.pos m) k ltac:(lia)) as Hrange.
    pose proof (round_shift_nearest (Z.pos m) k ltac:(lia)) as Hnear.
    fold r in Hrange, Hnear.
    assert (HP : 0 < 2 ^ k) by (apply Z.pow_pos_nonneg; lia).
    assert (Hq0 : 0 <= Z.pos m / 2 ^ k) by (apply Z.div_pos; lia).
    pose proof Hd as Hmb. apply digits_53 in Hmb.
    destruct (Z.eq_dec r 0) as [Hr0|Hr0].
    + rewrite Hr0. change (float_of_int 0) with (Ok (S754_zero false)).
      cbn [mbind result_bind]. change (f_sub (S754_zero false) (S754_finite false m e))
        with (S754_finite true m e). cbn [SFabs].
      destruct (f_eqb (S754_finite false m e) f_half) eqn:Heq; [|reflexivity].
      apply f_eqb_half in Heq as [-> Hm].
      assert (m = Z.to_pos (2 ^ 52)) as -> by lia.
      vm_compute. reflexivity.
    + assert (Hr : 0 < r) by lia.
      assert (Hk : k <= 53).
      { destruct (Z.le_gt_cases k 53) as [|Hgt]; [assumption|]. exfalso.
        apply Hr0. apply round_shift_small; try lia.
        assert (2 ^ 54 <= 2 ^ k) by (apply Z.pow_le_mono_r; lia).
        change (2 ^ 54) with (2 * 2 ^ 53) in *. lia. }
      assert (Hq : Z.pos m / 2 ^ k < 2 ^ 52).
      { apply Z.div_lt_upper_bound; [lia|].
        assert (2 ^ 1 <= 2 ^ k) by (apply Z.pow_le_mono_r; lia).
        change (2 ^ 1) with 2 in *. change (2 ^ 53) with (2 * 2 ^ 52) in Hmb. nia. }
      assert (Hrb : 0 < r < 2 ^ 53) by lia.
      destruct (float_of_int_small r Hrb) as (mr & er & Hf & Hdr & Her & Hmr).
      rewrite Hf. cbn [mbind result_bind].
      assert (Hdr1 : 1 <= Zdigits2 r) by (destruct r; simpl; lia).
      assert (Hdrk : 53 - k <= Zdigits2 r).
      { destruct (Z.eq_dec k 53) as [->|]; [lia|].
        cut (52 - k + 1 <= Zdigits2 r); [lia|].
        apply (Zdigits2_ge r (52 - k)); [lia|].
        eapply Z.le_trans; [|exact (proj1 Hrange)].
        apply Z.div_le_lower_bound; [lia|].
        rewrite <- Z.pow_add_r by lia. replace (k + (52 - k)) with 52 by lia. lia. }
      assert (Hdr53 : Zdigits2 r <= 53) by (apply Zdigits2_le; lia).
      assert (Hdelta : Z.pos (shl_align mr er e).1 - Z.pos (shl_align m e e).1
                       = r * 2 ^ k - Z.pos m).
      { rewrite !shl_align_fst by lia. rewrite Z.sub_diag, Z.mul_1_r, Hmr, Her.
        rewrite <- Z.mul_assoc, <- Z.pow_add_r by lia.
        f_equal. f_equal. f_equal. lia. }
      unfold f_sub, SFsub. rewrite Z.min_r by lia. cbn [cond_Zopp].
      rewrite Hdelta.
      assert (Habs : 2 * Z.abs (r * 2 ^ k - Z.pos m) <= 2 ^ k).
      { destruct Hnear as [Hlt|[Heq _]]; lia. }
      assert (Htie_of : ∀ (s : bool) (p : positive),
                Z.pos p = Z.abs (r * 2 ^ k - Z.pos m) →
                (if f_eqb (SFabs (binary_round prec emax s p e)) f_half
                 then h ← f_div (S754_finite false m e) f_two;
                      rh ← py_round h;
                      frh ← float_of_int rh;
                      py_int (f_mul f_two frh)
                 else mret r) = Ok r).
      { intros s p Hp.
        assert (Hdp : Zdigits2 (Z.pos p) <= k).
        { apply Zdigits2_le; lia. }
        rewrite (binary_round_shl s p e
                   (Z.max (Zdigits2 (Z.pos p) + e - 53) (-1074)));
          [|apply fexp_eq|lia|lia].
        cbn [SFabs].
        destruct (f_eqb _ f_half) eqn:Heq; [|reflexivity].
        apply f_eqb_half in Heq as [He0 Hm0].
        rewrite He0 in Hm0.
        assert (Hp0 : 0 < Z.pos p * 2 ^ (e - -53)).
        { apply Z.mul_pos_pos; [lia|]. apply Z.pow_pos_nonneg; lia. }
        rewrite Z2Pos.id in Hm0 by exact Hp0.
        assert (Htie : 2 * Z.pos p = 2 ^ k).
        { assert (Hsplit : 2 ^ 52 * 2 = 2 ^ k * 2 ^ (e - -53)).
          { rewrite <- Z.pow_add_r by lia. unfold k.
            replace (- e + (e - -53)) with 53 by lia. reflexivity. }
          assert (0 < 2 ^ (e - -53)) by (apply Z.pow_pos_nonneg; lia). nia. }
        apply py3round_tie_branch; try assumption; try lia.
        fold k r. rewrite <- Htie, Hp. f_equal. lia. }
      destruct (r * 2 ^ k - Z.pos m) as [|p|p] eqn:Hdel.
      * reflexivity.
      * cbn [binary_normalize]. apply Htie_of. lia.
      * cbn [binary_normalize]. apply Htie_of. lia.
Qed.

Lemma py_round_rounds (x : float) (n : Z) :
  py_round x = Ok n → rounds_half_even x n.
Proof.
  destruct x as [s|s| |s m e]; simpl; try discriminate.
  - intros [= <-]. reflexivity.
  - intros [= <-]. eexists. split; [reflexivity|].
    destruct (Z.leb_spec 0 e); [reflexivity|].
    apply round_shift_nearest. lia.
Qed.

Lemma py3round_of_normal (lo hi : Z) (x : float) :
  normal lo hi x → -1000 <= lo → hi <= 971 →
  ∃ n, py3round x = Ok n ∧ rounds_half_even x n.
Proof.
  intros (m & e & -> & Hd & He) Hlo Hhi.
  rewrite py3round_normal by lia.
  eexists. split; [reflexivity|]. apply py_round_rounds. reflexivity.
Qed.

Example py3round_3_5 : py3round (float_lit 7 (-1)) = Ok 4.
Proof. vm_compute. reflexivity. Qed.

Example py3round_2_5 : py3round (float_lit 5 (-1)) = Ok 2.
Proof. vm_compute. reflexivity. Qed.

(** The float [n + 0.5] goes to the even one of [n] and [n + 1]. *)
Lemma py3round_half (n : Z) :
  0 <= n < 2 ^ 52 →
  ∃ r, py3round (float_lit (2 * n + 1) (-1)) = Ok r ∧
       (r = n ∨ r = n + 1) ∧ Z.even r = true.
Proof.
  intros Hn. change (2 ^ 52) with 4503599627370496 in Hn.
  assert (HN : 0 < 2 * n + 1 < 2 ^ 53)
    by (change (2 ^ 53) with 9007199254740992; lia).
  set (N := 2 * n + 1) in *.
  assert (Hd : 1 <= Zdigits2 N <= 53).
  { split; [destruct N; simpl; lia | apply Zdigits2_le; lia]. }
  destruct N as [|p|p] eqn:HNp; try lia.
  unfold float_lit, binary_normalize.
  rewrite (binary_round_shl false p (-1) (Zdigits2 (Z.pos p) - 54));
    [|rewrite fexp_eq; cbn [Zdigits2] in *; lia|lia|lia].
  set (P := 2 ^ (-1 - (Zdigits2 (Z.pos p) - 54))).
  assert (HP : 0 < P) by (apply Z.pow_pos_nonneg; lia).
  assert (Hpos : 0 < Z.pos p * P) by lia.
  rewrite py3round_normal.
  - cbn [py_round cond_Zopp]. rewrite Z2Pos.id by exact Hpos.
    destruct (Z.leb_spec 0 (Zdigits2 (Z.pos p) - 54)) as [|_]; [lia|].
    eexists. split; [reflexivity|].
    pose proof (round_shift_nearest (Z.pos p * P) (- (Zdigits2 (Z.pos p) - 54))
                  ltac:(lia)) as Hnear.
    assert (H2P : 2 ^ (- (Zdigits2 (Z.pos p) - 54)) = 2 * P).
    { unfold P. rewrite <- Z.pow_succ_r by lia. f_equal. lia. }
    unfold nearest_even in Hnear. rewrite H2P in Hnear.
    set (r := round_shift _ _) in *.
    assert (Hfac : Z.pos p * P - r * (2 * P) = (Z.pos p - 2 * r) * P) by lia.
    rewrite Hfac, Z.abs_mul, (Z.abs_eq P) in Hnear by lia.
    destruct Hnear as [Hlt|[Heq Hev]].
    + exfalso. assert (Z.abs (Z.pos p - 2 * r) < 1) by nia. lia.
    + assert (Z.abs (Z.pos p - 2 * r) = 1) by nia.
      split; [lia | exact Hev].
  - change (Z.pos (digits2_pos ?q)) with (Zdigits2 (Z.pos q)).
    rewrite Z2Pos.id by exact Hpos. unfold P.
    rewrite Zdigits2_mul_pow2 by lia. lia.
  - lia.
Qed.

(** C6.  For sizes below [2^53], [_func_max_size] computes
    [scale = max_size / func(width, height)] in floating point; when
    [scale != 1.0] it returns, for each dimension, the floating-point
    product [dim * scale] rounded to the nearest integer with ties to even;
    when [scale == 1.0], as it is when [max_size] is the selected side, it
    returns [(height, width)] as they are.  A float of the form [n + 0.5]
    goes to the even neighbour: 3.5 to 4 and 2.5 to 2.  The function is
    total on these sizes, so equal inputs give equal results. *)
Theorem _func_max_size_rounds :
  (∀ (height width max_size : Z) (func : Z → Z → Z),
     0 < height < 2 ^ 53 → 0 < width < 2 ^ 53 → 0 < max_size < 2 ^ 53 →
     0 < func width height < 2 ^ 53 →
     ∃ fm fd scale fh fw,
       float_of_int max_size = Ok fm ∧
       float_of_int (func width height) = Ok fd ∧
       f_div fm fd = Ok scale ∧
       float_of_int height = Ok fh ∧ float_of_int width = Ok fw ∧
       (f_eqb scale f_one = false →
        ∃ h' w',
          _func_max_size height width max_size func = Ok (h', w') ∧
          rounds_half_even (f_mul fh scale) h' ∧
          rounds_half_even (f_mul fw scale) w') ∧
       (f_eqb scale f_one = true →
        _func_max_size height width max_size func = Ok (height, width)) ∧
       (max_size = func width height →
        _func_max_size height width max_size func = Ok (height, width))) ∧
  (∀ n : Z, 0 <= n < 2 ^ 52 →
     ∃ r, py3round (float_lit (2 * n + 1) (-1)) = Ok r ∧
          (r = n ∨ r = n + 1) ∧ Z.even r = true) ∧
  py3round (float_lit 7 (-1)) = Ok 4 ∧
  py3round (float_lit 5 (-1)) = Ok 2 ∧
  _func_max_size 7 14 7 Z.max = Ok (4, 7) ∧
  _func_max_size 5 10 5 Z.max = Ok (2, 5).
Proof.
  split; [|split; [exact py3round_half | split_and!; vm_compute; reflexivity]].
  intros height width max_size func Hh Hw Hm Hf.
  destruct (float_of_int_normal max_size Hm) as (fm & Hfm & Nm).
  destruct (float_of_int_normal (func width height) Hf) as (fd & Hfd & Nd).
  destruct (float_of_int_normal height Hh) as (fh & Hfh & Nh).
  destruct (float_of_int_normal width Hw) as (fw & Hfw & Nw).
  destruct (f_div_normal _ _ _ _ fm fd Nm Nd) as (scale & Hscale & Ns); try lia.
  exists fm, fd, scale, fh, fw. split_and!; try assumption.
  - intros Hne.
    pose proof (f_mul_normal _ _ _ _ fh scale Nh Ns ltac:(lia) ltac:(lia)) as Nph.
    pose proof (f_mul_normal _ _ _ _ fw scale Nw Ns ltac:(lia) ltac:(lia)) as Npw.
    destruct (py3round_of_normal _ _ _ Nph) as (h' & Hh' & Rh); try lia.
    destruct (py3round_of_normal _ _ _ Npw) as (w' & Hw' & Rw); try lia.
    exists h', w'. split; [|split; assumption].
    unfold _func_max_size. rewrite Hfm, Hfd. cbn [mbind result_bind].
    rewrite Hscale. cbn [mbind result_bind]. rewrite Hne. cbn [negb].
    rewrite Hfh. cbn [mbind result_bind]. rewrite Hh'. cbn [mbind result_bind].
    rewrite Hfw. cbn [mbind result_bind]. rewrite Hw'. reflexivity.
  - intros Heq. unfold _func_max_size. rewrite Hfm, Hfd. cbn [mbind result_bind].
    rewrite Hscale. cbn [mbind result_bind]. rewrite Heq. reflexivity.
  - intros ->. rewrite Hfm in Hfd. injection Hfd as <-.
    destruct Nm as (m & e & -> & _).
    unfold _func_max_size. rewrite Hfm. cbn [mbind result_bind].
    rewrite f_div_self. reflexivity.
Qed.

Lemma _func_max_size_rounds_witness :
  _func_max_size 480 640 640 Z.max = Ok (480, 640) ∧
  ∃ h' w', _func_max_size 300 500 256 Z.max = Ok (h', w').
Proof.
  split.
  - destruct (proj1 _func_max_size_rounds 480 640 640 Z.max
                (conj eq_refl eq_refl) (conj eq_refl eq_refl)
                (conj eq_refl eq_refl) (conj eq_refl eq_refl))
      as (fm & fd & scale & fh & fw & _ & _ & _ & _ & _ & _ & _ & Heq).
    exact (Heq eq_refl).
  - destruct (proj1 _func_max_size_rounds 300 500 256 Z.max
                (conj eq_refl eq_refl) (conj eq_refl eq_refl)
                (conj eq_refl eq_refl) (conj eq_refl eq_refl))
      as (fm & fd & scale & fh & fw & Hfm & Hfd & Hs & _ & _ & Hne & _).
    vm_compute in Hfm, Hfd. injection Hfm as <-. injection Hfd as <-.
    vm_compute in Hs. injection Hs as <-.
    destruct (Hne eq_refl) as (h' & w' & H & _). exists h', w'. exact H.
Defined.

(** * Further properties *)

(** ** Geometry filters *)

(** X1.  [filter_boxes] never enlarges a box: the left and top
    coordinates it returns are not below the incoming ones, the right and
    bottom coordinates are not above the incoming ones.  Clipping a clipped
    box with the same sizes changes nothing. *)
Theorem filter_boxes_shrinks_idempotent (x1 y1 x2 y2 h w : Z) :
  let '(x1', y1', x2', y2') := filter_boxes (x1, y1, x2, y2) h w in
  x1 <= x1' ∧ y1 <= y1' ∧ x2' <= x2 ∧ y2' <= y2 ∧
  filter_boxes (x1', y1', x2', y2') h w = (x1', y1', x2', y2').
Proof.
  unfold filter_boxes. destruct (w >=? h); cbv beta iota zeta.
  - split_and!; try lia.
    rewrite (Z.max_l (Z.max _ _)), (Z.min_l (Z.min _ _)) by lia. reflexivity.
  - split_and!; try lia.
    rewrite (Z.max_l (Z.max _ _)), (Z.min_l (Z.min _ _)) by lia. reflexivity.
Qed.

(** X2.  The two filters agree on the content region: a point that lies in a
    box and passes [_check_kps_coords] still lies in the box that
    [filter_boxes] returns. *)
Theorem filter_boxes_keeps_checked_points (x1 y1 x2 y2 x y h w : Z) :
  x1 <= x <= x2 → y1 <= y <= y2 →
  _check_kps_coords (x, y) h w = 1 →
  let '(x1', y1', x2', y2') := filter_boxes (x1, y1, x2, y2) h w in
  x1' <= x <= x2' ∧ y1' <= y <= y2'.
Proof.
  intros Hx Hy Hc.
  destruct (in_content_region_dec (x, y) h w) as [Hin|Hout];
    [|rewrite (_check_kps_coords_outside _ _ _ Hout) in Hc; discriminate].
  unfold in_content_region in Hin. unfold filter_boxes. cbn [fst snd] in Hin.
  destruct (w >=? h); cbv beta iota zeta; lia.
Qed.

Lemma filter_boxes_keeps_checked_points_witness :
  let '(x1', y1', x2', y2') := filter_boxes (10, 50, 200, 450) 300 500 in
  x1' <= 20 <= x2' ∧ y1' <= 150 <= y2'.
Proof.
  apply (filter_boxes_keeps_checked_points 10 50 200 450 20 150 300 500);
    [lia | lia | reflexivity].
Defined.

(** X3.  For a content region of positive size, a well-formed box stays
    well-formed exactly when it reaches strictly inside the clipping bounds of
    the padded axis; otherwise the clipped box is degenerate. *)
Theorem filter_boxes_well_formed_iff (x1 y1 x2 y2 h w : Z) :
  0 < h → 0 < w → x1 < x2 → y1 < y2 →
  let '(x1', y1', x2', y2') := filter_boxes (x1, y1, x2, y2) h w in
  (x1' < x2' ∧ y1' < y2') ↔
  if w >=? h then y1 < w - (w - h) / 2 ∧ (w - h) / 2 < y2
  else x1 < h - (h - w) / 2 ∧ (h - w) / 2 < x2.
Proof.
  intros Hh Hw Hx Hy. unfold filter_boxes.
  destruct (Z.geb_spec w h) as [Hwh|Hwh]; cbv beta iota zeta.
  - assert (2 * ((w - h) / 2) <= w - h) by (apply Z.mul_div_le; lia). lia.
  - assert (2 * ((h - w) / 2) <= h - w) by (apply Z.mul_div_le; lia). lia.
Qed.

Lemma filter_boxes_well_formed_iff_witness :
  filter_boxes (10, 50, 200, 450) 300 500 = (10, 100, 200, 400) ∧
  (10 < 200 ∧ 100 < 400).
Proof.
  pose proof (filter_boxes_well_formed_iff 10 50 200 450 300 500
                eq_refl eq_refl eq_refl eq_refl) as H.
  split; [reflexivity|]. apply H. vm_compute. split; reflexivity.
Defined.

Lemma filter_keypoint_idempotent (p : point) (h w vi : Z) :
  let t := filter_keypoint p h w vi in
  filter_keypoint (t.1.1, t.1.2) h w t.2 = t.
Proof.
  destruct (filter_keypoint_positive_rule p h w vi) as (H0 & Hin & Hout & Hneg).
  destruct (Z.lt_trichotomy vi 0) as [Hv|[Hv|Hv]].
  - cbv zeta. rewrite (Hneg Hv). simpl.
    destruct (filter_keypoint_positive_rule (p.1, p.2) h w vi) as (_ & _ & _ & H).
    rewrite (H Hv). reflexivity.
  - cbv zeta. rewrite (H0 Hv). reflexivity.
  - destruct (in_content_region_dec p h w) as [Hp|Hp]; cbv zeta.
    + rewrite (Hin Hv Hp). simpl.
      destruct (filter_keypoint_positive_rule (p.1, p.2) h w vi) as (_ & H & _).
      apply H; [exact Hv|]. destruct p; exact Hp.
    + rewrite (Hout Hv Hp). reflexivity.
Qed.

(** X4.  Filtering the filtered points again, with the visibilities that came
    back, returns them unchanged. *)
Theorem filter_keypoints_idempotent (tfms_kps : list point) (h w : Z) :
  ∀ (v : list Z) (T : list xyv),
    filter_keypoints tfms_kps h w v = Ok T →
    filter_keypoints ((λ t : xyv, (t.1.1, t.1.2)) <$> T) h w
      ((λ t : xyv, t.2) <$> T) = Ok T.
Proof.
  induction tfms_kps as [|p ps IH]; intros v T; simpl.
  - intros [= <-]. reflexivity.
  - destruct v as [|vi vs]; [discriminate|]. intros H.
    inv_bind H as rest Hrest. apply mret_Ok in H as <-.
    cbn [fmap list_fmap filter_keypoints]. rewrite (IH _ _ Hrest).
    cbn [mbind result_bind mret result_ret].
    rewrite (filter_keypoint_idempotent p h w vi). reflexivity.
Qed.

Lemma filter_keypoints_idempotent_witness :
  filter_keypoints [(10, 150); (0, 0); (0, 0); (700, 2)] 300 500 [2; 0; 0; -1]
  = Ok [(10, 150, 2); (0, 0, 0); (0, 0, 0); (700, 2, -1)].
Proof.
  exact (filter_keypoints_idempotent [(10, 150); (10, 50); (3, 4); (700, 2)]
           300 500 [2; 1; 0; -1] _ eq_refl).
Defined.

(** X5.  A point that comes back with a positive visibility is the incoming
    point with its incoming visibility, and lies in the content region; a
    point that comes back with visibility 0 is at [(0, 0)]. *)
Theorem filter_keypoints_visible_inside (tfms_kps : list point) (h w : Z) :
  ∀ (v : list Z) (T : list xyv),
    filter_keypoints tfms_kps h w v = Ok T →
    ∀ (i : nat) x y vis, T !! i = Some (x, y, vis) →
      (0 < vis → tfms_kps !! i = Some (x, y) ∧ v !! i = Some vis ∧
                 in_content_region (x, y) h w) ∧
      (vis = 0 → x = 0 ∧ y = 0).
Proof.
  induction tfms_kps as [|p ps IH]; intros v T; simpl.
  - intros [= <-] i x y vis Hi. destruct i; discriminate.
  - destruct v as [|vi vs]; [discriminate|]. intros H.
    inv_bind H as rest Hrest. apply mret_Ok in H as <-.
    intros [|i] x y vis Hi; [|exact (IH _ _ Hrest i x y vis Hi)].
    apply (inj Some) in Hi.
    destruct (filter_keypoint_positive_rule p h w vi) as (Hz & Hin & Hout & Hneg).
    destruct (Z.lt_trichotomy vi 0) as [Hv|[Hv|Hv]].
    + rewrite (Hneg Hv) in Hi. injection Hi as <- <- <-. split; intros; lia.
    + rewrite (Hz Hv) in Hi. injection Hi as <- <- <-. split; [lia | auto].
    + destruct (in_content_region_dec p h w) as [Hp|Hp].
      * rewrite (Hin Hv Hp) in Hi. injection Hi as <- <- <-.
        split; [|lia]. intros _. destruct p. auto.
      * rewrite (Hout Hv Hp) in Hi. injection Hi as <- <- <-. split; [lia | auto].
Qed.

Lemma filter_keypoints_visible_inside_witness :
  [(10, 150); (10, 50)] !! 0%nat = Some (10, 150) ∧
  in_content_region (10, 150) 300 500.
Proof.
  destruct (filter_keypoints_visible_inside [(10, 150); (10, 50)] 300 500
              [2; 1] _ eq_refl 0%nat 10 150 2 eq_refl) as [H _].
  destruct (H eq_refl) as (H1 & _ & H2). split; assumption.
Defined.

(** X6.  [filter_keypoints] returns one triple per point as soon as there is a
    visibility for every point, and raises IndexError otherwise. *)
Theorem filter_keypoints_IndexError (tfms_kps : list point) (h w : Z) (v : list Z) :
  ((length tfms_kps <= length v)%nat →
   ∃ T, filter_keypoints tfms_kps h w v = Ok T ∧ length T = length tfms_kps) ∧
  ((length v < length tfms_kps)%nat →
   filter_keypoints tfms_kps h w v = Raise IndexError).
Proof.
  revert v. induction tfms_kps as [|p ps IH]; intros v; simpl.
  - split; [eauto | lia].
  - destruct v as [|vi vs]; simpl.
    + split; [lia | reflexivity].
    + destruct (IH vs) as [IH1 IH2]. split; intros Hlen.
      * destruct IH1 as (T & -> & HT); [lia|]. eexists. split; [reflexivity|].
        simpl. lia.
      * rewrite IH2 by lia. reflexivity.
Qed.

Lemma filter_keypoints_IndexError_witness :
  filter_keypoints [(1, 2); (3, 4)] 10 10 [1] = Raise IndexError.
Proof.
  apply (proj2 (filter_keypoints_IndexError [(1, 2); (3, 4)] 10 10 [1])).
  simpl. lia.
Defined.

(** ** Pipeline introspection *)

Lemma prefix_append (t : string) : ∀ s,
  String.prefix t s = true ↔ ∃ post, s = t +:+ post.
Proof.
  induction t as [|a t IH]; intros s.
  - split; [intros _; exists s; reflexivity | intros _; destruct s; reflexivity].
  - destruct s as [|b s]; simpl; [split; [discriminate | intros [post [=]]]|].
    destruct (Ascii.ascii_dec a b) as [->|Hne].
    + rewrite IH. split; intros [post Hp]; exists post; [rewrite Hp; reflexivity|].
      injection Hp as ->. reflexivity.
    + split; [discriminate|]. intros [post [= -> _]]. contradiction.
Qed.

Lemma contains_occurs (t : string) : ∀ s,
  contains t s = true ↔ occurs_in t s.
Proof.
  unfold occurs_in. induction s as [|b s IH]; cbn [contains].
  - rewrite orb_false_r, prefix_append. split.
    + intros [post Hp]. exists "", post. exact Hp.
    + intros ([|c pre] & post & Hp); [exists post; exact Hp | discriminate].
  - rewrite orb_true_iff, prefix_append, IH. split.
    + intros [[post Hp]|(pre & post & Hp)].
      * exists "", post. exact Hp.
      * exists (String b pre), post. rewrite Hp. reflexivity.
    + intros ([|c pre] & post & Hp).
      * left. exists post. exact Hp.
      * right. injection Hp as -> ->. exists pre, post. reflexivity.
Qed.

(** X7.  [get_transform] returns the first element whose type name contains
    [t], and None exactly when no element does. *)
Theorem get_transform_first (tfms_list : list Transform) (t : string) :
  (get_transform tfms_list t = None ↔
   ∀ el, el ∈ tfms_list → ¬ occurs_in t (type_str el)) ∧
  (∀ el, get_transform tfms_list t = Some el →
     ∃ before after,
       tfms_list = before ++ el :: after ∧ occurs_in t (type_str el) ∧
       ∀ e, e ∈ before → ¬ occurs_in t (type_str e)).
Proof.
  unfold get_transform.
  induction tfms_list as [|x l [IHn IHs]]; cbn [List.find].
  - split; [split; [intros _ el Hel; inversion Hel | reflexivity] | discriminate].
  - destruct (contains t (type_str x)) eqn:Hx.
    + split.
      * split; [discriminate|]. intros H. exfalso.
        apply (H x); [left | apply contains_occurs; exact Hx].
      * intros el [= <-]. exists [], l. split; [reflexivity|].
        split; [apply contains_occurs; exact Hx|]. intros e He. inversion He.
    + assert (Hnx : ¬ occurs_in t (type_str x)).
      { rewrite <- contains_occurs. congruence. }
      split.
      * rewrite IHn. split.
        -- intros H el Hel. apply elem_of_cons in Hel as [->|Hel]; auto.
        -- intros H el Hel. apply H. right. exact Hel.
      * intros el Hel. destruct (IHs el Hel) as (before & after & -> & Hocc & Hb).
        exists (x :: before), after. split; [reflexivity|]. split; [exact Hocc|].
        intros e He. apply elem_of_cons in He as [->|He]; auto.
Qed.

Lemma get_transform_first_witness :
  ∃ before after,
    resize_and_pad (SizeInt 384) default_pad
    = before ++ PadIfNeeded 384 384 :: after ∧
    occurs_in "Pad" (type_str (PadIfNeeded 384 384)) ∧
    ∀ e, e ∈ before → ¬ occurs_in "Pad" (type_str e).
Proof.
  apply (proj2 (get_transform_first (resize_and_pad (SizeInt 384) default_pad)
                  "Pad")).
  reflexivity.
Defined.

Lemma get_transform_absent (tfms_list : list Transform) (t : string) :
  Forall (λ el, contains t (type_str el) = false) tfms_list →
  get_transform tfms_list t = None.
Proof.
  unfold get_transform. induction 1 as [|x l Hx Hl IH]; [reflexivity|].
  cbn [List.find]. rewrite Hx. exact IH.
Qed.

(** ** Builders and the adapter together *)

Lemma aug_tfms_has_crop size presize hf ssr rgb li bl crop_fn pad :
  OneOrOther (crop_fn (height_width size).1 (height_width size).2)
    (_resize size LongestMaxSize)
    (tfm_p (crop_fn (height_width size).1 (height_width size).2))
  ∈ aug_tfms size presize hf ssr rgb li bl (Some crop_fn) pad.
Proof.
  unfold aug_tfms. destruct (height_width size) as [height width]. simpl.
  destruct presize, hf, ssr, rgb, li, bl, pad; simpl;
    repeat first [apply list_elem_of_here | apply list_elem_of_further].
Qed.

Lemma aug_tfms_has_pad size presize hf ssr rgb li bl crop_fn pad :
  pad (height_width size).1 (height_width size).2
  ∈ aug_tfms size presize hf ssr rgb li bl crop_fn (Some pad).
Proof.
  unfold aug_tfms. destruct (height_width size) as [height width]. simpl.
  destruct presize, hf, ssr, rgb, li, bl, crop_fn; simpl;
    repeat first [apply list_elem_of_here | apply list_elem_of_further].
Qed.

(** X8.  An adapter over a pipeline that [aug_tfms] built with a crop function
    rejects every call that passes keypoints, before the pipeline runs and
    without touching the adapter. *)
Theorem aug_tfms_crop_rejects_keypoints {Image Mask Label KLabel : Type}
    (shape : Image → list Z)
    (run : Compose → @Params Image Mask KLabel → result (@Transformed Image Mask))
    (size : Size) (presize : option Size)
    (hf ssr rgb li bl : option Transform) (crop_fn : Z → Z → Transform)
    (pad : option (Z → Z → Transform)) (rest : list Transform)
    (img : Image) (labels : option (list Label)) (bboxes : option (list BBox))
    (masks : option (list Mask)) (iscrowds : option (list Z))
    (keypoints : list (KeyPoints KLabel)) :
  let self := Adapter_init
                (aug_tfms size presize hf ssr rgb li bl (Some crop_fn) pad ++ rest) in
  apply shape run self img labels bboxes masks iscrowds (Some keypoints)
  = (self, Raise ConfigurationError).
Proof.
  intros self. unfold apply, prepare_keypoints.
  rewrite (get_transform_elem _ "OneOrOther"
             (OneOrOther (crop_fn (height_width size).1 (height_width size).2)
                (_resize size LongestMaxSize)
                (tfm_p (crop_fn (height_width size).1 (height_width size).2))));
    [reflexivity| |reflexivity].
  apply elem_of_app. left. apply aug_tfms_has_crop.
Qed.

(** X9.  With [crop_fn=None], and steps whose type names do not contain
    ["OneOrOther"], the list that [aug_tfms] returns passes the keypoint
    assertion of [apply]. *)
Theorem aug_tfms_no_crop_accepts_keypoints (size : Size) (presize : option Size)
    (hf ssr rgb li bl : option Transform) (pad : option (Z → Z → Transform)) :
  Forall (λ el, contains "OneOrOther" (type_str el) = false)
    (omap id [hf; ssr; rgb; li; bl]) →
  (∀ f, pad = Some f →
        contains "OneOrOther"
          (type_str (f (height_width size).1 (height_width size).2)) = false) →
  get_transform (aug_tfms size presize hf ssr rgb li bl None pad) "OneOrOther"
  = None.
Proof.
  intros Hsteps Hpad. apply get_transform_absent.
  unfold aug_tfms. destruct (height_width size) as [height width]. simpl in *.
  assert (Hp : Forall (λ el, contains "OneOrOther" (type_str el) = false)
                 (option_list ((λ ps, _resize ps SmallestMaxSize) <$> presize))).
  { destruct presize as [[n|a b]|]; repeat constructor. }
  assert (Hr : contains "OneOrOther" (type_str (_resize size LongestMaxSize)) = false).
  { destruct size; reflexivity. }
  assert (Hq : Forall (λ el, contains "OneOrOther" (type_str el) = false)
                 (option_list ((λ f : Z → Z → Transform, f height width) <$> pad))).
  { destruct pad as [f|]; [|constructor]. repeat constructor. exact (Hpad f eq_refl). }
  destruct presize as [ps|], hf, ssr, rgb, li, bl, pad; simpl in *;
    repeat match goal with
           | H : Forall _ (_ :: _) |- _ => apply Forall_cons in H as [? H]
           end;
    repeat constructor; assumption.
Qed.

Lemma aug_tfms_no_crop_accepts_keypoints_witness :
  get_transform
    (aug_tfms (SizeInt 384) (Some (SizeInt 512)) (Some HorizontalFlip)
       (Some ShiftScaleRotate) (Some RGBShift) (Some RandomBrightnessContrast)
       (Some Blur) None (Some default_pad)) "OneOrOther" = None.
Proof.
  apply aug_tfms_no_crop_accepts_keypoints.
  - repeat constructor.
  - intros f [= <-]. reflexivity.
Defined.

(** ** The adapter: errors and edge cases *)

Lemma mapM_index_Ok {A} (l : list A) (idx : list nat) :
  Forall (λ i, (i < length l)%nat) idx → ∃ o, mapM (index l) idx = Ok o.
Proof.
  induction 1 as [|i idx Hi _ [o IH]]; [exists []; reflexivity|].
  apply lookup_lt_is_Some_2 in Hi as [a Ha].
  assert (Hia : index l i = Ok a) by (unfold index; rewrite Ha; reflexivity).
  exists (a :: o). rewrite mapM_cons, Hia.
  cbn [mbind result_bind]. rewrite IH. reflexivity.
Qed.

Lemma mapM_index_lookup {A} (l : list A) : ∀ (idx : list nat) o,
  mapM (index l) idx = Ok o →
  length o = length idx ∧
  ∀ (j i : nat), idx !! j = Some i → o !! j = l !! i ∧ (i < length l)%nat.
Proof.
  induction idx as [|i idx IH]; intros o H.
  - apply mret_Ok in H as <-. split; [reflexivity|]. intros j i' Hj. discriminate.
  - rewrite mapM_cons in H. inv_bind H as a Ha. inv_bind H as o' Ho'.
    apply mret_Ok in H as <-. destruct (IH _ Ho') as [Hlen Hidx].
    split; [simpl; lia|]. intros [|j] i' Hj.
    + injection Hj as <-. unfold index in Ha.
      destruct (l !! i) as [a'|] eqn:Hl; [|discriminate].
      injection Ha as ->. split; [reflexivity|].
      apply lookup_lt_Some in Hl. exact Hl.
    + apply Hidx. exact Hj.
Qed.

Lemma mapM_Raise {A B} (f : A → result B) (e : exn) (l : list A) :
  l ≠ [] → (∀ x, f x = Raise e) → mapM f l = Raise e.
Proof.
  intros Hl Hf. destruct l as [|x l]; [contradiction|].
  rewrite mapM_cons, Hf. reflexivity.
Qed.

(** X10.  With a pad step in the pipeline and no keypoints in the call, the
    content size was never computed: when the pipeline returns at least one
    box (and label indices within range, and a three-dimensional image),
    [apply] raises NameError on [height_size]. *)
Theorem apply_pad_boxes_NameError {Image Mask Label KLabel : Type}
    (shape : Image → list Z)
    (run : Compose → @Params Image Mask KLabel → result (@Transformed Image Mask))
    (self : Adapter) (img : Image) (labels : option (list Label))
    (bboxes : list BBox) (masks : option (list Mask))
    (iscrowds : option (list Z)) (d : Transformed) (h w ch : Z) :
  is_None (get_transform (transforms (tfms self)) "Pad") = false →
  run (tfms (disable_processors self false true))
      {| p_image := img;
         p_labels := match labels with
                     | Some labels => seq 0 (length labels)
                     | None => []
                     end;
         p_bboxes := bbox_xyxy <$> bboxes;
         p_keypoints := None; p_keypoints_labels := None;
         p_masks := masks |} = Ok d →
  shape (d_image d) = [h; w; ch] →
  d_bboxes d ≠ [] →
  (∀ ls, labels = Some ls → Forall (λ i, (i < length ls)%nat) (d_labels d)) →
  (apply shape run self img labels (Some bboxes) masks iscrowds None).2
  = Raise (NameError "height_size").
Proof.
  intros Hpad Hrun Hshape Hbb Hidx. unfold apply. cbn [snd is_None fmap option_fmap option_map].
  rewrite Hrun. cbn [mbind result_bind]. unfold reconstruct. rewrite Hshape.
  cbn [mbind result_bind fst snd option_bind].
  assert (Hl : ∃ ol, match labels with
                     | Some labels0 => o ← mapM (index labels0) (d_labels d); Ok (Some o)
                     | None => Ok None
                     end = Ok ol).
  { destruct labels as [ls|]; [|eauto].
    destruct (mapM_index_Ok ls (d_labels d) (Hidx ls eq_refl)) as [o Ho].
    rewrite Ho. eauto. }
  destruct Hl as [ol ->]. cbn [mbind result_bind].
  rewrite (mapM_Raise
             (λ b : xyxy,
                hw ← filter_size (transforms (tfms self)) None (h, w);
                mret (filter_boxes b hw.1 hw.2))
             (NameError "height_size")); [reflexivity | exact Hbb |].
  intros x. unfold filter_size.
  destruct (get_transform (transforms (tfms self)) "Pad"); [reflexivity | discriminate].
Qed.

Lemma apply_pad_boxes_NameError_witness :
  (Demo.apply Demo.run_identity
     (Adapter_init
        (resize_and_pad (SizeInt 384) default_pad
         ++ [Op "albumentations.augmentations.transforms.Normalize" 1 None]))
     [300; 400; 3] (Some ["person"]) (Some [from_xyxy' 10 20 110 220])
     (Some [7%nat]) (Some [0]) None).2
  = Raise (NameError "height_size").
Proof.
  apply (apply_pad_boxes_NameError (Label := string) Demo.shape
           Demo.run_identity _ _ _ _ _ _
           {| d_image := [300; 400; 3]; d_labels := [0%nat];
              d_bboxes := [(10, 20, 110, 220)]; d_keypoints := [];
              d_masks := [7%nat] |} 300 400 3).
  - reflexivity.
  - reflexivity.
  - reflexivity.
  - discriminate.
  - intros ls [= <-]. repeat constructor.
Defined.

(** ** The adapter: what a call with keypoints needs and returns *)

Lemma chunks_length (l : list Z) (c : nat) :
  length (chunks l c) = ((length l + c - 1) / c)%nat.
Proof. unfold chunks, range_step. rewrite !length_fmap, length_seq. reflexivity. Qed.

Lemma chunks_count_exact (L n : nat) :
  (0 < n)%nat → (0 < L / n)%nat → ((L + L / n - 1) / (L / n) = n)%nat →
  (L = L / n * n)%nat.
Proof.
  intros Hn Hc Hcnt.
  pose proof (Nat.div_mod_eq L n) as HL.
  pose proof (Nat.mod_upper_bound L n ltac:(lia)) as Hr.
  pose proof (Nat.div_mod_eq (L + L / n - 1) (L / n)) as HM.
  pose proof (Nat.mod_upper_bound (L + L / n - 1) (L / n) ltac:(lia)) as Hr'.
  rewrite Hcnt in HM. nia.
Qed.

Section Groups.
Context {Image Mask Label KLabel : Type}.
Variable shape : Image → list Z.
Variable run : Compose → @Params Image Mask KLabel → result (@Transformed Image Mask).

Lemma regroup_Ok tfms_list (keypoints : list (KeyPoints KLabel)) st
    (d : @Transformed Image Mask) out_hw l :
  regroup tfms_list keypoints st d out_hw = Ok l →
  ∃ c : nat,
    (0 < c)%nat ∧ (3 * length (ks_k st) = c * length keypoints)%nat ∧
    keypoints ≠ [] ∧ length l = length keypoints ∧
    Forall (λ g, length g = c) l.
Proof.
  unfold regroup. intros H.
  inv_bind H as u1 Hlen. apply assert_Ok, Nat.eqb_eq in Hlen.
  inv_bind H as hw Hhw. inv_bind H as T HT.
  apply filter_keypoints_length in HT.
  destruct (Nat.eqb_spec (length keypoints) 0) as [|Hn]; [discriminate|].
  set (L := length (flatten T)) in *.
  destruct (Nat.eqb_spec (L / length keypoints) 0) as [|Hc]; [discriminate|].
  inv_bind H as u2 Hcnt. apply assert_Ok, Nat.eqb_eq in Hcnt.
  apply mret_Ok in H as <-.
  rewrite chunks_length in Hcnt. fold L in Hcnt.
  assert (HL : (L = L / length keypoints * length keypoints)%nat).
  { apply chunks_count_exact; [lia | lia | exact Hcnt]. }
  exists (L / length keypoints)%nat. split_and!.
  - lia.
  - rewrite <- HL. unfold L. rewrite length_flatten. lia.
  - intros ->. apply Hn. reflexivity.
  - rewrite chunks_length. exact Hcnt.
  - rewrite (chunks_exact _ _ (length keypoints)); [|lia|fold L; lia].
    apply split_by_replicate_lengths. fold L. lia.
Qed.

End Groups.

(** X11.  A call with keypoints never returns when no instance is passed, or
    when the number of instances does not divide three times the total number
    of keypoints: the flat list of filtered values is cut into equal groups,
    and the count of groups is asserted to be the count of instances. *)
Theorem apply_keypoints_uneven_never_returns {Image Mask Label KLabel : Type}
    (shape : Image → list Z)
    (run : Compose → @Params Image Mask KLabel → result (@Transformed Image Mask))
    (self : Adapter) (img : Image) (labels : option (list Label))
    (bboxes : option (list BBox)) (masks : option (list Mask))
    (iscrowds : option (list Z)) (keypoints : list (KeyPoints KLabel)) :
  keypoints = [] ∨
  ((3 * length (concat (kp_xy <$> keypoints))) mod length keypoints ≠ 0)%nat →
  ∀ out,
    (apply shape run self img labels bboxes masks iscrowds (Some keypoints)).2
    ≠ Ok out.
Proof.
  intros Hun out Hout.
  apply apply_kp_Ok in Hout as (st & p & d & Hst & _ & _ & _ & _ & _ & Hrec).
  apply prepare_keypoints_Ok in Hst as (_ & Hk & _).
  apply reconstruct_keypoints in Hrec as (l & Hl & _).
  apply regroup_Ok in Hl as (c & Hc & Hdiv & Hne & _).
  destruct Hun as [->|Hmod]; [contradiction|].
  apply Hmod. rewrite <- Hk, Hdiv. apply Nat.Div0.mod_mul.
Qed.

Lemma apply_keypoints_uneven_never_returns_witness :
  match
    (apply Demo.shape Demo.run_identity (Adapter_init [Resize 100 100])
       [100; 100; 3] (Some ["a"; "b"]) None None None
       (Some [from_xyv [1; 2; 1] ["l"];
              from_xyv [5; 6; 1; 7; 8; 1] ["l"; "r"]])).2
  with
  | Ok _ => False
  | Raise _ => True
  end.
Proof.
  assert (Hne : Nat.modulo
                  (3 * length (concat (kp_xy <$>
                                 [from_xyv [1; 2; 1] ["l"];
                                  from_xyv [5; 6; 1; 7; 8; 1] ["l"; "r"]])))
                  (length [from_xyv [1; 2; 1] ["l"];
                           from_xyv [5; 6; 1; 7; 8; 1] ["l"; "r"]]) ≠ 0%nat)
    by (vm_compute; discriminate).
  generalize (apply_keypoints_uneven_never_returns Demo.shape Demo.run_identity
                (Adapter_init [Resize 100 100]) [100; 100; 3]
                (Some ["a"; "b"]) None None None
                [from_xyv [1; 2; 1] ["l"];
                 from_xyv [5; 6; 1; 7; 8; 1] ["l"; "r"]]
                (or_intror Hne)).
  generalize (apply Demo.shape Demo.run_identity (Adapter_init [Resize 100 100])
                [100; 100; 3] (Some ["a"; "b"]) None None None
                (Some [from_xyv [1; 2; 1] ["l"];
                       from_xyv [5; 6; 1; 7; 8; 1] ["l"; "r"]])).2.
  intros [out|e] H; [exact (H out eq_refl) | exact I].
Defined.

(** X12.  Every keypoint set that [apply] returns holds the same number of
    values, has a positive sum, and carries the labels of the first instance
    passed in; there are at most as many sets as instances. *)
Theorem apply_keypoints_sets {Image Mask Label KLabel : Type}
    (shape : Image → list Z)
    (run : Compose → @Params Image Mask KLabel → result (@Transformed Image Mask))
    (self : Adapter) (img : Image) (labels : option (list Label))
    (bboxes : option (list BBox)) (masks : option (list Mask))
    (iscrowds : option (list Z)) (keypoints : list (KeyPoints KLabel))
    (out : Out) :
  (apply shape run self img labels bboxes masks iscrowds (Some keypoints)).2
  = Ok out →
  ∃ (kps : list (KeyPoints KLabel)) (c : nat),
    out_keypoints out = Some kps ∧
    (length kps <= length keypoints)%nat ∧
    (c * length keypoints = 3 * length (concat (kp_xy <$> keypoints)))%nat ∧
    Forall (λ o, length (kp_keypoints o) = c ∧ 0 < sum (kp_keypoints o) ∧
                 Some (kp_labels o) = kp_labels <$> head keypoints) kps.
Proof.
  intros Hout.
  apply apply_kp_Ok in Hout as (st & p & d & Hst & _ & _ & _ & _ & _ & Hrec).
  apply prepare_keypoints_Ok in Hst as (_ & Hk & _).
  apply reconstruct_keypoints in Hrec as (l & Hl & Hok).
  apply regroup_Ok in Hl as (c & Hc & Hdiv & Hne & Hlen & Hall).
  eexists _, c. split; [exact Hok|]. split_and!.
  - rewrite length_fmap, <- Hlen. apply length_filter.
  - rewrite <- Hk. lia.
  - apply Forall_fmap, Forall_forall. intros k Hkin.
    apply list_elem_of_filter in Hkin as [Hpos Hkin].
    rewrite Forall_forall in Hall. cbn [from_xyv kp_keypoints kp_labels compose].
    split_and!; [apply Hall; exact Hkin | exact Hpos |].
    destruct keypoints as [|o os]; [contradiction | reflexivity].
Qed.

Lemma apply_keypoints_sets_witness :
  ∃ out,
    (Demo.apply Demo.run_identity (Adapter_init [Resize 100 100])
       [100; 100; 3] None None None None
       (Some [from_xyv [1; 2; 1] ["a"];
              from_xyv [3; 4; 1; 5; 6; 1; 7; 8; 1] ["b"; "c"; "d"]])).2 = Ok out ∧
    ∃ (kps : list (KeyPoints string)) (c : nat),
      out_keypoints out = Some kps ∧
      (length kps <= 2)%nat ∧
      (c * 2 = 3 * 4)%nat ∧
      Forall (λ o, length (kp_keypoints o) = c ∧ 0 < sum (kp_keypoints o) ∧
                   Some (kp_labels o) = Some ["a"]) kps.
Proof.
  eexists. split; [vm_compute; reflexivity|].
  eapply (apply_keypoints_sets Demo.shape Demo.run_identity
            (Adapter_init [Resize 100 100]) [100; 100; 3]
            None None None None
            [from_xyv [1; 2; 1] ["a"];
             from_xyv [3; 4; 1; 5; 6; 1; 7; 8; 1] ["b"; "c"; "d"]]).
  vm_compute. reflexivity.
Defined.

(** ** The adapter: the index list *)

Lemma kept_nil {A} (l : list (list Z)) : kept (@nil A) l = [].
Proof. reflexivity. Qed.

Lemma kept_sublist {A} (l : list (list Z)) : ∀ xs : list A,
  sublist (kept xs l) xs.
Proof.
  induction l as [|k l IH]; intros [|x xs]; try (apply sublist_nil_l).
  rewrite kept_cons. destruct (decide (0 < sum k)).
  - apply sublist_skip, IH.
  - apply sublist_cons, IH.
Qed.

(** X13.  When labels are not passed and the pipeline returns no label for
    none passed, every mask and every crowd flag is dropped: the masks and
    crowd flags are selected by the returned label indices. *)
Theorem apply_without_labels {Image Mask Label KLabel : Type}
    (shape : Image → list Z)
    (run : Compose → @Params Image Mask KLabel → result (@Transformed Image Mask))
    (self : Adapter) (img : Image)
    (bboxes : option (list BBox)) (masks : option (list Mask))
    (iscrowds : option (list Z)) (keypoints : option (list (KeyPoints KLabel)))
    (out : @Out Image Mask Label KLabel) :
  (∀ c p d, run c p = Ok d → p_labels p = [] → d_labels d = []) →
  (apply shape run self img None bboxes masks iscrowds keypoints).2 = Ok out →
  out_labels out = None ∧
  (is_Some masks → out_masks out = Some []) ∧
  (is_Some iscrowds → out_iscrowds out = Some []).
Proof.
  intros Hrun Hout.
  apply apply_Ok in Hout as (kp & p & d & _ & Hpl & _ & _ & Hd & Hrec).
  pose proof (Hrun _ _ _ Hd Hpl) as Hdl.
  unfold reconstruct in Hrec. rewrite Hdl in Hrec.
  inv_bind Hrec as out_hw Hhw. inv_bind Hrec as l Hl.
  inv_bind Hrec as o_labels Hol. inv_bind Hrec as o_bboxes Hob.
  inv_bind Hrec as o_masks Hom. inv_bind Hrec as o_iscrowds Hoc.
  apply mret_Ok in Hrec as <-. cbn [out_labels out_masks out_iscrowds].
  split_and!.
  - apply mret_Ok in Hol as <-. reflexivity.
  - intros [ms ->]. destruct l as [l|]; rewrite ?kept_nil in Hom;
      apply mret_Ok in Hom as <-; reflexivity.
  - intros [cs ->]. destruct l as [l|]; rewrite ?kept_nil in Hoc;
      apply mret_Ok in Hoc as <-; reflexivity.
Qed.

Lemma apply_without_labels_witness :
  ∃ out,
    (Demo.apply Demo.run_identity (Adapter_init [Resize 100 100])
       [100; 100; 3] None None (Some [7; 8]%nat) (Some [0; 1]) None).2 = Ok out ∧
    out_labels out = None ∧
    (is_Some (Some [7; 8]%nat) → out_masks out = Some []) ∧
    (is_Some (Some [0; 1]) → out_iscrowds out = Some []).
Proof.
  eexists. split; [vm_compute; reflexivity|].
  apply (apply_without_labels Demo.shape Demo.run_identity
           (Adapter_init [Resize 100 100]) [100; 100; 3]
           None (Some [7; 8]%nat) (Some [0; 1]) None).
  - intros c p d [= <-] Hp. exact Hp.
  - vm_compute. reflexivity.
Defined.

(** X14.  The labels, masks and crowd flags that [apply] returns are selected
    by one index list: a sublist of the label indices the pipeline returned
    (all of them without keypoints). Position [j] of each returned list holds
    the entry of input instance [idx[j]], and every index is within the labels
    passed in. *)
Theorem apply_aligned {Image Mask Label KLabel : Type}
    (shape : Image → list Z)
    (run : Compose → @Params Image Mask KLabel → result (@Transformed Image Mask))
    (self : Adapter) (img : Image) (labels : list Label)
    (bboxes : option (list BBox)) (masks : list Mask)
    (iscrowds : list Z) (keypoints : option (list (KeyPoints KLabel)))
    (out : Out) :
  (apply shape run self img (Some labels) bboxes (Some masks) (Some iscrowds)
     keypoints).2 = Ok out →
  ∃ p d idx ol om oc,
    run (tfms (disable_processors self (is_None bboxes) (is_None keypoints))) p
    = Ok d ∧
    sublist idx (d_labels d) ∧ (keypoints = None → idx = d_labels d) ∧
    out_labels out = Some ol ∧ out_masks out = Some om ∧
    out_iscrowds out = Some oc ∧
    length ol = length idx ∧ length om = length idx ∧ length oc = length idx ∧
    ∀ (j i : nat), idx !! j = Some i →
      (i < length labels)%nat ∧
      ol !! j = labels !! i ∧ om !! j = d_masks d !! i ∧ oc !! j = iscrowds !! i.
Proof.
  intros Hout.
  apply apply_Ok in Hout as (kp & p & d & Hkp & _ & _ & _ & Hd & Hrec).
  unfold reconstruct in Hrec.
  inv_bind Hrec as out_hw Hhw. inv_bind Hrec as l Hl.
  inv_bind Hrec as o_labels Hol. inv_bind Hrec as o_bboxes Hob.
  inv_bind Hrec as o_masks Hom. inv_bind Hrec as o_iscrowds Hoc.
  apply mret_Ok in Hrec as <-. cbn [out_labels out_masks out_iscrowds].
  inv_bind Hol as ol0 Hol0. inv_bind Hom as om0 Hom0. inv_bind Hoc as oc0 Hoc0.
  set (idx := match l with Some l => kept (d_labels d) l | None => d_labels d end).
  assert (Hsel : ∃ ol om oc,
            o_labels = Some ol ∧ o_masks = Some om ∧ o_iscrowds = Some oc ∧
            mapM (index labels) idx = Ok ol ∧
            mapM (index (d_masks d)) idx = Ok om ∧
            mapM (index iscrowds) idx = Ok oc).
  { subst idx. destruct l as [l|].
    - inv_fmap Hol. inv_fmap Hom. inv_fmap Hoc. eauto 10.
    - apply mret_Ok in Hol as <-. apply mret_Ok in Hom as <-.
      apply mret_Ok in Hoc as <-. eauto 10. }
  destruct Hsel as (ol & om & oc & -> & -> & -> & Hl1 & Hl2 & Hl3).
  apply mapM_index_lookup in Hl1 as [Hn1 Hi1].
  apply mapM_index_lookup in Hl2 as [Hn2 Hi2].
  apply mapM_index_lookup in Hl3 as [Hn3 Hi3].
  exists p, d, idx, ol, om, oc. split_and!; try done.
  - subst idx. destruct l; [apply kept_sublist | reflexivity].
  - intros ->. subst kp. apply mret_Ok in Hl as <-. reflexivity.
  - intros j i Hj. split_and!.
    + apply (Hi1 j i Hj).
    + apply (Hi1 j i Hj).
    + apply (Hi2 j i Hj).
    + apply (Hi3 j i Hj).
Qed.

Lemma apply_aligned_witness :
  ∃ out (p : Demo.Params) (d : Demo.Transformed) idx ol (om : list nat) oc,
    (Demo.apply Demo.run_lose_first (Adapter_init [Resize 500 500])
       [500; 500; 3] (Some ["a"; "b"; "c"])
       (Some [from_xyxy (10, 5, 50, 50); from_xyxy (11, 5, 50, 50);
              from_xyxy (12, 5, 50, 50)])
       (Some [7; 8; 9]%nat) (Some [0; 0; 1]) None).2 = Ok out ∧
    sublist idx (d_labels d) ∧
    out_labels out = Some ol ∧ out_masks out = Some om ∧
    out_iscrowds out = Some oc ∧
    ∀ (j i : nat), idx !! j = Some i →
      (i < 3)%nat ∧
      ol !! j = ["a"; "b"; "c"] !! i ∧ om !! j = d_masks d !! i ∧
      oc !! j = [0; 0; 1] !! i.
Proof.
  eexists.
  destruct (apply_aligned Demo.shape Demo.run_lose_first
              (Adapter_init [Resize 500 500]) [500; 500; 3] ["a"; "b"; "c"]
              (Some [from_xyxy (10, 5, 50, 50); from_xyxy (11, 5, 50, 50);
                     from_xyxy (12, 5, 50, 50)])
              [7; 8; 9]%nat [0; 0; 1] None
              {| out_img := [500; 500; 3]; out_height := 500; out_width := 500;
                 out_keypoints := None; out_labels := Some ["b"; "c"];
                 out_bboxes := Some [from_xyxy (11, 5, 50, 50);
                                     from_xyxy (12, 5, 50, 50)];
                 out_masks := Some [8; 9]%nat; out_iscrowds := Some [0; 1] |}
              eq_refl)
    as (p & d & idx & ol & om & oc & _ & Hsub & _ & Hol & Hom & Hoc & _ & _ & _ & Hal).
  exists p, d, idx, ol, om, oc. split; [reflexivity|]. auto.
Defined.

(** ** The adapter: its state over several calls *)

Section Calls.
Context {Image Mask Label KLabel : Type}.
Variable shape : Image → list Z.
Variable run : Compose → @Params Image Mask KLabel → result (@Transformed Image Mask).

Lemma disable_processors_transforms (self : Adapter) b k :
  transforms (tfms (disable_processors self b k)) = transforms (tfms self).
Proof. reflexivity. Qed.

Lemma disable_processors_twice (self : Adapter) b1 k1 b2 k2 :
  disable_processors (disable_processors self b1 k1) b2 k2
  = disable_processors self (b1 || b2) (k1 || k2).
Proof.
  unfold disable_processors. cbn [tfms processors transforms bbox_params keypoint_params].
  f_equal. f_equal.
  destruct b1, k1, b2, k2; cbn [orb];
    rewrite ?delete_delete_eq; try reflexivity;
    try (rewrite (delete_delete _ "bboxes" "keypoints"); rewrite ?delete_delete_eq;
         reflexivity).
Qed.

(** What [apply] does to the adapter, as a function of the flags of the
    call. *)
Lemma apply_fst_cases (self : Adapter) (img : Image) (labels : option (list Label))
    bboxes masks iscrowds (keypoints : option (list (KeyPoints KLabel))) :
  ∃ b k,
    (∀ s, transforms (tfms s) = transforms (tfms self) →
          (apply shape run s img labels bboxes masks iscrowds keypoints).1
          = disable_processors s b k).
Proof.
  unfold apply. destruct keypoints as [kps|].
  - destruct (prepare_keypoints shape (transforms (tfms self)) img kps) eqn:E.
    + exists (is_None bboxes), false. intros s ->. rewrite E. reflexivity.
    + exists false, false. intros s ->. rewrite E.
      symmetry. apply disable_processors_none.
  - exists (is_None bboxes), true. intros s _. reflexivity.
Qed.

End Calls.

(** X15.  The adapter that two calls leave behind does not depend on their
    order, and repeating a call changes nothing more: each call only removes
    the processors of its absent inputs, and whether it gets that far depends
    on the operation list alone, which no call changes. *)
Theorem apply_state_commutes {Image Mask Label KLabel : Type}
    (shape : Image → list Z)
    (run : Compose → @Params Image Mask KLabel → result (@Transformed Image Mask))
    (self : Adapter)
    (img1 : Image) (labels1 : option (list Label)) (bboxes1 : option (list BBox))
    (masks1 : option (list Mask)) (iscrowds1 : option (list Z))
    (keypoints1 : option (list (KeyPoints KLabel)))
    (img2 : Image) (labels2 : option (list Label)) (bboxes2 : option (list BBox))
    (masks2 : option (list Mask)) (iscrowds2 : option (list Z))
    (keypoints2 : option (list (KeyPoints KLabel))) :
  let call1 s := apply shape run s img1 labels1 bboxes1 masks1 iscrowds1 keypoints1 in
  let call2 s := apply shape run s img2 labels2 bboxes2 masks2 iscrowds2 keypoints2 in
  (call2 (call1 self).1).1 = (call1 (call2 self).1).1 ∧
  (call1 (call1 self).1).1 = (call1 self).1.
Proof.
  intros call1 call2. subst call1 call2. cbv beta.
  destruct (apply_fst_cases shape run self img1 labels1 bboxes1 masks1 iscrowds1
              keypoints1) as (b1 & k1 & H1).
  destruct (apply_fst_cases shape run self img2 labels2 bboxes2 masks2 iscrowds2
              keypoints2) as (b2 & k2 & H2).
  rewrite (H1 self eq_refl), (H2 self eq_refl).
  split.
  - rewrite (H1 _ (disable_processors_transforms _ _ _)).
    rewrite (H2 _ (disable_processors_transforms _ _ _)).
    rewrite !disable_processors_twice.
    rewrite (orb_comm b1 b2), (orb_comm k1 k2). reflexivity.
  - rewrite (H1 _ (disable_processors_transforms _ _ _)).
    rewrite disable_processors_twice, !orb_diag. reflexivity.
Qed.

(** ** The adapter: a pipeline that changes nothing *)

Lemma mapM_pure {A B} (f : A → B) (l : list A) :
  mapM (λ x, Ok (f x) : result B) l = Ok (f <$> l).
Proof.
  induction l as [|x l IH]; [reflexivity|].
  rewrite mapM_cons. cbn [mbind result_bind]. rewrite IH. reflexivity.
Qed.

Lemma from_xyxy_bbox_xyxy (b : BBox) : from_xyxy (bbox_xyxy b) = b.
Proof. destruct b. reflexivity. Qed.

Lemma mapM_index_seq_le {A} (l : list A) (n : nat) :
  n = length l → mapM (index l) (seq 0 n) = Ok l.
Proof. intros ->. apply mapM_index_seq. Qed.

(** X16.  Without keypoints and without a pad step, a pipeline that returns
    the image, the label indices, the boxes and the masks as it got them makes
    [apply] return the sample as it was passed, with every box clipped against
    the image size; boxes within the clipping bounds come back unchanged. *)
Theorem apply_unchanged_sample {Image Mask Label KLabel : Type}
    (shape : Image → list Z)
    (run : Compose → @Params Image Mask KLabel → result (@Transformed Image Mask))
    (self : Adapter) (img : Image) (labels : list Label) (bboxes : list BBox)
    (masks : list Mask) (iscrowds : list Z) (h w ch : Z) :
  get_transform (transforms (tfms self)) "Pad" = None →
  shape img = [h; w; ch] →
  length masks = length labels → length iscrowds = length labels →
  run (tfms (disable_processors self false true))
      {| p_image := img; p_labels := seq 0 (length labels);
         p_bboxes := bbox_xyxy <$> bboxes;
         p_keypoints := None; p_keypoints_labels := None;
         p_masks := Some masks |}
  = Ok {| d_image := img; d_labels := seq 0 (length labels);
          d_bboxes := bbox_xyxy <$> bboxes; d_keypoints := [];
          d_masks := masks |} →
  (apply shape run self img (Some labels) (Some bboxes) (Some masks)
     (Some iscrowds) None).2
  = Ok {| out_img := img; out_height := h; out_width := w;
          out_keypoints := None; out_labels := Some labels;
          out_bboxes :=
            Some ((λ b, from_xyxy (filter_boxes (bbox_xyxy b) h w)) <$> bboxes);
          out_masks := Some masks; out_iscrowds := Some iscrowds |} ∧
  (Forall (λ b, filter_boxes (bbox_xyxy b) h w = bbox_xyxy b) bboxes →
   (λ b, from_xyxy (filter_boxes (bbox_xyxy b) h w)) <$> bboxes = bboxes).
Proof.
  intros Hpad Hshape Hm Hc Hrun. split.
  - unfold apply. cbn [snd is_None fmap option_fmap option_map].
    rewrite Hrun. cbn [mbind result_bind]. unfold reconstruct.
    cbn [d_image d_labels d_bboxes d_masks]. rewrite Hshape.
    cbn [mbind result_bind fst snd option_bind].
    rewrite mapM_index_seq. cbn [mbind result_bind].
    unfold filter_size. rewrite Hpad. cbn [mbind result_bind mret result_ret fst snd].
    rewrite (mapM_pure (λ b : xyxy, filter_boxes b h w)). cbn [mbind result_bind].
    rewrite (mapM_index_seq_le masks) by (symmetry; exact Hm).
    cbn [mbind result_bind].
    rewrite (mapM_index_seq_le iscrowds) by (symmetry; exact Hc).
    cbn [mbind result_bind mret result_ret].
    rewrite <- !list_fmap_compose. reflexivity.
  - clear Hrun. intros Hin. induction Hin as [|b bs Hb _ IH]; [reflexivity|].
    cbn [fmap list_fmap]. rewrite Hb, from_xyxy_bbox_xyxy. f_equal. exact IH.
Qed.

Lemma apply_unchanged_sample_witness :
  (Demo.apply Demo.run_identity (Adapter_init [Resize 500 500])
     [500; 500; 3] (Some ["a"; "b"])
     (Some [from_xyxy (10, 5, 50, 50); from_xyxy (11, 5, 50, 50)])
     (Some [7; 8]%nat) (Some [0; 1]) None).2
  = Ok {| out_img := [500; 500; 3]; out_height := 500; out_width := 500;
          out_keypoints := None; out_labels := Some ["a"; "b"];
          out_bboxes := Some [from_xyxy (10, 5, 50, 50); from_xyxy (11, 5, 50, 50)];
          out_masks := Some [7; 8]%nat; out_iscrowds := Some [0; 1] |}.
Proof.
  exact (proj1 (apply_unchanged_sample (KLabel := string) Demo.shape
                  Demo.run_identity (Adapter_init [Resize 500 500])
                  [500; 500; 3] ["a"; "b"]
                  [from_xyxy (10, 5, 50, 50); from_xyxy (11, 5, 50, 50)]
                  [7; 8]%nat [0; 1] 500 500 3
                  eq_refl eq_refl eq_refl eq_refl eq_refl)).
Defined.

Lemma every_third_drop1 (b c : Z) (rest : list Z) :
  every_third (b :: c :: rest) = b :: every_third (drop 1 rest).
Proof. destruct rest as [|d r]; reflexivity. Qed.

Lemma every_third_drop2 (c : Z) (rest : list Z) :
  every_third (c :: rest) = c :: every_third (drop 2 rest).
Proof. destruct rest as [|d [|e r]]; reflexivity. Qed.

(** A flat list of [n] triples is its points zipped with its visibilities. *)
Lemma every_third_triples (n : nat) : ∀ ks : list Z,
  length ks = (3 * n)%nat →
  flatten (zip (zip (every_third ks) (every_third (drop 1 ks)))
             (every_third (drop 2 ks))) = ks ∧
  length (zip (every_third ks) (every_third (drop 1 ks))) = n ∧
  length (every_third (drop 2 ks)) = n.
Proof.
  induction n as [|n IH]; intros ks Hlen.
  - destruct ks; [repeat split | discriminate].
  - destruct ks as [|a [|b [|c rest]]]; try (simpl in Hlen; lia).
    destruct (IH rest) as (Hf & Hl1 & Hl2); [simpl in Hlen; lia|].
    change (drop 1 (a :: b :: c :: rest)) with (b :: c :: rest).
    change (drop 2 (a :: b :: c :: rest)) with (c :: rest).
    change (every_third (a :: b :: c :: rest)) with (a :: every_third rest).
    rewrite every_third_drop1, every_third_drop2.
    cbn [zip_with length]. rewrite Hl1, Hl2. split; [|split; reflexivity].
    change (flatten (?t :: ?g)) with (t.1.1 :: t.1.2 :: t.2 :: flatten g).
    cbn [fst snd]. rewrite Hf. reflexivity.
Qed.

Lemma flatten_concat (ls : list (list xyv)) :
  flatten (concat ls) = concat (flatten <$> ls).
Proof.
  induction ls as [|g ls IH]; [reflexivity|].
  cbn [concat fmap list_fmap]. rewrite <- IH. unfold flatten.
  rewrite fmap_app, concat_app. reflexivity.
Qed.

Lemma zip_concat {A B C} (f : A → list B) (g : A → list C) (l : list A) :
  Forall (λ o, length (f o) = length (g o)) l →
  zip (concat (f <$> l)) (concat (g <$> l))
  = concat ((λ o, zip (f o) (g o)) <$> l).
Proof.
  induction 1 as [|o l Ho _ IH]; [reflexivity|].
  cbn [fmap list_fmap concat]. rewrite zip_with_app by exact Ho.
  rewrite <- IH. reflexivity.
Qed.

Lemma concat_uniform_length {A B} (f : A → list B) (n : nat) (l : list A) :
  Forall (λ o, length (f o) = n) l →
  length (concat (f <$> l)) = (n * length l)%nat.
Proof.
  induction 1 as [|o l Ho _ IH]; [simpl; lia|].
  cbn [fmap list_fmap concat length]. rewrite length_app, IH, Ho. lia.
Qed.

Lemma split_by_concat {A B} (f : A → list B) (n : nat) (l : list A) :
  Forall (λ o, length (f o) = n) l →
  split_by (replicate (length l) n) (concat (f <$> l)) = f <$> l.
Proof.
  induction 1 as [|o l Ho _ IH]; [reflexivity|].
  cbn [fmap list_fmap concat length replicate split_by].
  rewrite take_app_length' by (symmetry; exact Ho).
  rewrite drop_app_length' by (symmetry; exact Ho). rewrite IH. reflexivity.
Qed.

(** Points that are visible and inside the content region pass
    [filter_keypoints] as they are. *)
Lemma filter_keypoints_visible (h w : Z) : ∀ (k : list point) (v : list Z),
  length v = length k →
  Forall (λ p, in_content_region p h w) k → Forall (λ vi, 0 < vi) v →
  filter_keypoints k h w v = Ok (zip k v).
Proof.
  induction k as [|p k IH]; intros [|vi v] Hlen Hk Hv; try discriminate;
    [reflexivity|].
  apply Forall_cons in Hk as [Hp Hk]. apply Forall_cons in Hv as [Hvi Hv].
  cbn [filter_keypoints]. rewrite IH by (simpl in Hlen; lia || assumption).
  cbn [mbind result_bind mret result_ret zip_with].
  destruct (filter_keypoint_positive_rule p h w vi) as (_ & Hin & _).
  rewrite (Hin Hvi Hp). destruct p. reflexivity.
Qed.

Lemma kept_all {A} (l : list (list Z)) : ∀ xs : list A,
  Forall (λ k, 0 < sum k) l → length xs = length l → kept xs l = xs.
Proof.
  induction l as [|k l IH]; intros [|x xs] Hl Hlen; try discriminate;
    [reflexivity|].
  apply Forall_cons in Hl as [Hk Hl]. rewrite kept_cons.
  destruct (decide (0 < sum k)); [|contradiction].
  f_equal. apply IH; [exact Hl | simpl in Hlen; lia].
Qed.

Lemma filter_all {A} (P : A → Prop) `{∀ x, Decision (P x)} (l : list A) :
  Forall P l → filter P l = l.
Proof.
  induction 1 as [|x l Hx _ IH]; [reflexivity|].
  rewrite filter_cons. destruct (decide (P x)); [|contradiction].
  rewrite IH. reflexivity.
Qed.

Lemma all_visible_facts {KLabel} (n : nat) (cl : list KLabel) (h w : Z)
    (keypoints : list (KeyPoints KLabel)) :
  (0 < n)%nat →
  Forall (all_visible n cl h w) keypoints →
  Forall (λ o, length (kp_xy o) = n) keypoints ∧
  Forall (λ o, length (kp_visible o) = n) keypoints ∧
  Forall (λ o, length (kp_xy o) = length (kp_visible o)) keypoints ∧
  (λ o, flatten (zip (kp_xy o) (kp_visible o))) <$> keypoints
  = kp_keypoints <$> keypoints ∧
  Forall (λ k, 0 < sum k) (kp_keypoints <$> keypoints) ∧
  Forall (λ o, length (kp_keypoints o) = (3 * n)%nat) keypoints ∧
  Forall (λ p, in_content_region p h w) (concat (kp_xy <$> keypoints)) ∧
  Forall (λ v, 0 < v) (concat (kp_visible <$> keypoints)).
Proof.
  intros Hn. induction 1 as [|o os (Hlen & Hcl & Hin & Hvis) _ IH].
  - repeat split; constructor.
  - destruct IH as (I1 & I2 & I3 & I4 & I5 & I6 & I7 & I8).
    destruct (every_third_triples n (kp_keypoints o) Hlen) as (Hf & Hl1 & Hl2).
    change (flatten (zip (kp_xy o) (kp_visible o)) = kp_keypoints o) in Hf.
    change (length (kp_xy o) = n) in Hl1.
    change (length (kp_visible o) = n) in Hl2.
    split_and!.
    + constructor; [exact Hl1 | exact I1].
    + constructor; [exact Hl2 | exact I2].
    + constructor; [transitivity n; [exact Hl1 | symmetry; exact Hl2] | exact I3].
    + cbn [fmap list_fmap]. rewrite Hf, I4. reflexivity.
    + cbn [fmap list_fmap]. constructor; [|exact I5].
      rewrite <- Hf.
      assert (Hz : Forall zero_or_visible (zip (kp_xy o) (kp_visible o))).
      { apply Forall_forall. intros [p v] Hpv.
        apply elem_of_zip_l in Hpv as Hp. apply elem_of_zip_r in Hpv as Hv.
        rewrite Forall_forall in Hin. rewrite Forall_forall in Hvis.
        destruct (in_content_region_nonneg p h w (Hin p Hp)).
        right. cbn [fst snd]. split_and!; [assumption.. | exact (Hvis v Hv)]. }
      destruct (sum_positive_iff _ Hz) as [_ Hiff]. apply Hiff.
      destruct (kp_xy o) as [|p ps] eqn:Exy; [simpl in Hl1; lia|].
      destruct (kp_visible o) as [|v vs] eqn:Evis; [simpl in Hl2; lia|].
      apply Forall_cons in Hvis as [Hv _].
      cbn [zip_with all_zero forallb fst snd].
      destruct (Z.eqb_spec v 0); [lia|]. rewrite andb_false_r. reflexivity.
    + constructor; [exact Hlen | exact I6].
    + cbn [fmap list_fmap concat]. apply Forall_app. split; assumption.
    + cbn [fmap list_fmap concat]. apply Forall_app. split; assumption.
Qed.


Lemma all_visible_labels {KLabel} (n : nat) (cl : list KLabel) (h w : Z)
    (keypoints : list (KeyPoints KLabel)) :
  length cl = n →
  Forall (all_visible n cl h w) keypoints →
  Forall (λ o, length (kp_labels o) = n) keypoints ∧
  (λ k, from_xyv k (default [] (kp_labels <$> head keypoints)))
  <$> (kp_keypoints <$> keypoints) = keypoints.
Proof.
  intros Hcl Hall. split.
  - eapply Forall_impl; [exact Hall|]. intros o (_ & -> & _). exact Hcl.
  - destruct keypoints as [|o0 os]; [reflexivity|].
    assert (H0 : kp_labels o0 = cl).
    { apply Forall_cons in Hall as [(_ & H & _) _]. exact H. }
    cbn [head fmap option_fmap option_map default]. rewrite H0.
    clear H0. induction Hall as [|o os' (_ & Ho & _) _ IH]; [reflexivity|].
    cbn [fmap list_fmap]. rewrite IH. f_equal.
    destruct o as [ks ls]. cbn in Ho. subst ls. reflexivity.
Qed.

Section Unchanged.
Context {Image Mask Label KLabel : Type}.
Variable shape : Image → list Z.

Lemma prepare_keypoints_no_pad tfms_list (img : Image)
    (keypoints : list (KeyPoints KLabel)) (n : nat) :
  get_transform tfms_list "OneOrOther" = None →
  get_transform tfms_list "Pad" = None →
  Forall (λ o, length (kp_xy o) = n) keypoints →
  Forall (λ o, length (kp_labels o) = n) keypoints →
  Forall (λ o, length (kp_visible o) = n) keypoints →
  prepare_keypoints shape tfms_list img keypoints
  = Ok {| ks_k := concat (kp_xy <$> keypoints);
          ks_c := concat (kp_labels <$> keypoints);
          ks_v := concat (kp_visible <$> keypoints);
          ks_size := None |}.
Proof.
  intros Hcrop Hpad Hxy Hl Hv. unfold prepare_keypoints, content_size.
  rewrite Hcrop, Hpad. cbn [is_None assert mbind result_bind].
  rewrite (concat_uniform_length _ n _ Hxy), (concat_uniform_length _ n _ Hl),
    (concat_uniform_length _ n _ Hv), Nat.eqb_refl.
  reflexivity.
Qed.

Lemma regroup_unchanged tfms_list (keypoints : list (KeyPoints KLabel))
    (d : @Transformed Image Mask) (n : nat) (cl : list KLabel) (h w : Z) :
  get_transform tfms_list "Pad" = None →
  (0 < n)%nat → keypoints ≠ [] →
  Forall (all_visible n cl h w) keypoints →
  d_keypoints d = concat (kp_xy <$> keypoints) →
  regroup tfms_list keypoints
    {| ks_k := concat (kp_xy <$> keypoints);
       ks_c := concat (kp_labels <$> keypoints);
       ks_v := concat (kp_visible <$> keypoints);
       ks_size := None |} d (h, w)
  = Ok (kp_keypoints <$> keypoints).
Proof.
  intros Hpad Hn Hne Hall Hd.
  destruct (all_visible_facts n cl h w keypoints Hn Hall)
    as (Hxy & Hvis & Hxv & Hflat & _ & Hlen & Hin & Hpos).
  unfold regroup. cbn [ks_k ks_v ks_size]. rewrite Hd, Nat.eqb_refl.
  cbn [assert mbind result_bind]. unfold filter_size. rewrite Hpad.
  cbn [mbind result_bind fst snd].
  rewrite filter_keypoints_visible; [| |exact Hin|exact Hpos].
  2: { rewrite (concat_uniform_length _ n _ Hxy),
         (concat_uniform_length _ n _ Hvis). reflexivity. }
  cbn [mbind result_bind].
  rewrite (zip_concat _ _ _ Hxv), flatten_concat, <- list_fmap_compose.
  change (flatten ∘ (λ o, zip (kp_xy o) (kp_visible o)))
    with (λ o : KeyPoints KLabel, flatten (zip (kp_xy o) (kp_visible o))).
  rewrite Hflat.
  assert (Hm : (0 < length keypoints)%nat).
  { destruct keypoints; [contradiction | simpl; lia]. }
  rewrite (concat_uniform_length _ (3 * n) _ Hlen).
  destruct (Nat.eqb_spec (length keypoints) 0) as [|_]; [lia|].
  rewrite Nat.div_mul by lia.
  destruct (Nat.eqb_spec (3 * n) 0) as [|_]; [lia|].
  rewrite (chunks_exact _ (3 * n) (length keypoints));
    [|lia|apply (concat_uniform_length _ (3 * n) _ Hlen)].
  rewrite (split_by_concat _ (3 * n) _ Hlen), length_fmap, Nat.eqb_refl.
  reflexivity.
Qed.

End Unchanged.

(** X17.  A pipeline that changes nothing, with keypoints: when every instance
    has the same number of keypoints and the same labels, every keypoint is
    visible and inside the image, and the pipeline (with no pad and no crop
    step) returns what it got, [apply] returns the keypoints, labels, masks
    and crowd flags as they were passed, and the boxes clipped against the
    image size. *)
Theorem apply_unchanged_keypoints {Image Mask Label KLabel : Type}
    (shape : Image → list Z)
    (run : Compose → @Params Image Mask KLabel → result (@Transformed Image Mask))
    (self : Adapter) (img : Image) (labels : list Label) (bboxes : list BBox)
    (masks : list Mask) (iscrowds : list Z)
    (keypoints : list (KeyPoints KLabel)) (cl : list KLabel) (n : nat)
    (h w ch : Z) :
  get_transform (transforms (tfms self)) "OneOrOther" = None →
  get_transform (transforms (tfms self)) "Pad" = None →
  shape img = [h; w; ch] →
  (0 < n)%nat → length cl = n → keypoints ≠ [] →
  Forall (all_visible n cl h w) keypoints →
  length labels = length keypoints → length bboxes = length keypoints →
  length masks = length keypoints → length iscrowds = length keypoints →
  run (tfms self)
      {| p_image := img; p_labels := seq 0 (length labels);
         p_bboxes := bbox_xyxy <$> bboxes;
         p_keypoints := Some (concat (kp_xy <$> keypoints));
         p_keypoints_labels := Some (concat (kp_labels <$> keypoints));
         p_masks := Some masks |}
  = Ok {| d_image := img; d_labels := seq 0 (length labels);
          d_bboxes := bbox_xyxy <$> bboxes;
          d_keypoints := concat (kp_xy <$> keypoints);
          d_masks := masks |} →
  (apply shape run self img (Some labels) (Some bboxes) (Some masks)
     (Some iscrowds) (Some keypoints)).2
  = Ok {| out_img := img; out_height := h; out_width := w;
          out_keypoints := Some keypoints; out_labels := Some labels;
          out_bboxes :=
            Some ((λ b, from_xyxy (filter_boxes (bbox_xyxy b) h w)) <$> bboxes);
          out_masks := Some masks; out_iscrowds := Some iscrowds |}.
Proof.
  intros Hcrop Hpad Hshape Hn Hcl Hne Hall Hl Hb Hm Hc Hrun.
  destruct (all_visible_facts n cl h w keypoints Hn Hall)
    as (Hxy & Hvis & _ & _ & Hsum & _).
  destruct (all_visible_labels n cl h w keypoints Hcl Hall) as [Hlab Hkps].
  unfold apply.
  rewrite (prepare_keypoints_no_pad shape _ img keypoints n Hcrop Hpad Hxy Hlab Hvis).
  cbn [mbind result_bind mret result_ret snd is_None fmap option_fmap option_map
       compose ks_k ks_c].
  rewrite disable_processors_none, Hrun. cbn [mbind result_bind].
  unfold reconstruct. cbn [d_image d_labels d_bboxes d_masks]. rewrite Hshape.
  cbn [mbind result_bind fst snd].
  rewrite (regroup_unchanged (transforms (tfms self)) keypoints
             {| d_image := img; d_labels := seq 0 (length labels);
                d_bboxes := bbox_xyxy <$> bboxes;
                d_keypoints := concat (kp_xy <$> keypoints);
                d_masks := masks |} n cl h w Hpad Hn Hne Hall eq_refl).
  cbn [fmap result_fmap mbind result_bind].
  assert (Hlen : ∀ {A} (xs : list A), length xs = length keypoints →
                 kept xs (kp_keypoints <$> keypoints) = xs).
  { intros A xs Hxs. apply kept_all; [exact Hsum|]. rewrite length_fmap. exact Hxs. }
  rewrite mapM_index_seq. cbn [mbind result_bind].
  rewrite (Hlen _ (seq 0 (length labels))) by (rewrite length_seq; exact Hl).
  rewrite mapM_index_seq. cbn [fmap result_fmap mbind result_bind].
  unfold filter_size. rewrite Hpad.
  cbn [mbind result_bind mret result_ret fst snd option_bind compose ks_size].
  rewrite (mapM_pure (λ b : xyxy, filter_boxes b h w)). cbn [mbind result_bind].
  rewrite Hlen by (rewrite !length_fmap; exact Hb).
  rewrite (mapM_index_seq_le masks) by congruence.
  cbn [fmap result_fmap mbind result_bind].
  rewrite (mapM_index_seq_le iscrowds) by congruence.
  cbn [fmap result_fmap mbind result_bind mret result_ret].
  rewrite (filter_all _ _ Hsum), Hkps, <- !list_fmap_compose. reflexivity.
Qed.

Lemma apply_unchanged_keypoints_witness :
  (Demo.apply Demo.run_identity (Adapter_init [Resize 500 500])
     [500; 500; 3] (Some ["a"; "b"])
     (Some [from_xyxy (10, 5, 50, 50); from_xyxy (11, 5, 50, 50)])
     (Some [7; 8]%nat) (Some [0; 1])
     (Some [from_xyv [1; 2; 1; 3; 4; 2] ["l"; "r"];
            from_xyv [5; 6; 2; 7; 8; 1] ["l"; "r"]])).2
  = Ok {| out_img := [500; 500; 3]; out_height := 500; out_width := 500;
          out_keypoints := Some [from_xyv [1; 2; 1; 3; 4; 2] ["l"; "r"];
                                 from_xyv [5; 6; 2; 7; 8; 1] ["l"; "r"]];
          out_labels := Some ["a"; "b"];
          out_bboxes := Some [from_xyxy (10, 5, 50, 50); from_xyxy (11, 5, 50, 50)];
          out_masks := Some [7; 8]%nat; out_iscrowds := Some [0; 1] |}.
Proof.
  apply (apply_unchanged_keypoints Demo.shape Demo.run_identity
           (Adapter_init [Resize 500 500]) [500; 500; 3] ["a"; "b"]
           [from_xyxy (10, 5, 50, 50); from_xyxy (11, 5, 50, 50)]
           [7; 8]%nat [0; 1]
           [from_xyv [1; 2; 1; 3; 4; 2] ["l"; "r"];
            from_xyv [5; 6; 2; 7; 8; 1] ["l"; "r"]]
           ["l"; "r"] 2%nat 500 500 3);
    try reflexivity; try lia; try discriminate.
  repeat constructor; vm_compute; intros; discriminate.
Defined.

(** ** The content size of the standard pipelines *)

(** X18.  For the pipelines the two builders return with their default pad
    (and the default augmentations, without a crop), the content size that
    [apply] computes for a call with keypoints follows the resize steps that
    take an [int]: [presize] through the shorter side, then [size] through the
    longer side. A [(height, width)] tuple builds a [Resize] step, which the
    computation does not see: the content size is then that of the step
    before, in the end the shape of the input image. *)
Theorem content_size_of_builders {Image : Type} (shape : Image → list Z)
    (img : Image) (h w : Z) (rest : list Z)
    (size : Size) (presize : option Size) :
  shape img = h :: w :: rest →
  let longest hw :=
    match size with
    | SizeInt n => _func_max_size hw.1 hw.2 n Z.max
    | SizeTuple _ _ => Ok hw
    end in
  let shortest hw :=
    match presize with
    | Some (SizeInt n) => _func_max_size hw.1 hw.2 n Z.min
    | _ => Ok hw
    end in
  content_size shape (resize_and_pad size default_pad) img
  = Some <$> longest (h, w) ∧
  content_size shape
    (aug_tfms size presize (Some HorizontalFlip) (Some ShiftScaleRotate)
       (Some RGBShift) (Some RandomBrightnessContrast) (Some Blur)
       None (Some default_pad)) img
  = Some <$> (shortest (h, w) ≫= longest).
Proof.
  intros Hshape longest shortest. subst longest shortest.
  unfold content_size. rewrite Hshape. split.
  - destruct size as [n|a b]; cbv -[_func_max_size Z.max Z.min].
    + destruct (_func_max_size h w n Z.max) as [[h' w']|e]; reflexivity.
    + reflexivity.
  - destruct size as [n|a b], presize as [[ps|pa pb]|];
      cbv -[_func_max_size Z.max Z.min];
      repeat match goal with
             | |- context [_func_max_size ?a ?b ?c ?f] =>
                 destruct (_func_max_size a b c f) as [[? ?]|?]
             end; reflexivity.
Qed.

Lemma content_size_of_builders_witness :
  content_size Demo.shape (resize_and_pad (SizeInt 384) default_pad)
    [300; 400; 3] = Some <$> _func_max_size 300 400 384 Z.max ∧
  content_size Demo.shape
    (aug_tfms (SizeInt 384) (Some (SizeInt 512)) (Some HorizontalFlip)
       (Some ShiftScaleRotate) (Some RGBShift) (Some RandomBrightnessContrast)
       (Some Blur) None (Some default_pad)) [300; 400; 3]
  = Some <$> (_func_max_size 300 400 512 Z.min
              ≫= λ hw, _func_max_size hw.1 hw.2 384 Z.max).
Proof.
  exact (content_size_of_builders Demo.shape [300; 400; 3] 300 400 [3]
           (SizeInt 384) (Some (SizeInt 512)) eq_refl).
Defined.

(** ** Size arithmetic: errors and rounding *)

(** X19.  When [func(width, height)] is zero, as for an image with an empty
    side under [min], the scale cannot be computed: [_func_max_size] raises
    ZeroDivisionError for every [max_size] that converts to a float. *)
Theorem _func_max_size_zero_side (height width max_size : Z)
    (func : Z → Z → Z) (fm : float) :
  float_of_int max_size = Ok fm →
  func width height = 0 →
  _func_max_size height width max_size func = Raise ZeroDivisionError.
Proof.
  intros Hfm Hzero. unfold _func_max_size. rewrite Hfm, Hzero. reflexivity.
Qed.

Lemma _func_max_size_zero_side_witness :
  _func_max_size 0 400 384 Z.min = Raise ZeroDivisionError.
Proof.
  apply (_func_max_size_zero_side 0 400 384 Z.min (float_lit 384 0));
    vm_compute; reflexivity.
Defined.

(** X20.  On every positive normal float with an exponent between -1000 and
    971, [py3round] returns what the built-in [round] returns: the branch for
    ties never changes the result. *)
Theorem py3round_is_round (x : float) :
  normal (-1000) 971 x → py3round x = py_round x.
Proof.
  intros (m & e & -> & Hm & He). apply py3round_normal; assumption.
Qed.

Lemma py3round_is_round_witness :
  py3round (float_lit 7 (-1)) = py_round (float_lit 7 (-1)).
Proof.
  apply py3round_is_round.
  exists (Z.to_pos (7 * 2 ^ 50)), (-51). split; [vm_compute; reflexivity|].
  split; [vm_compute; reflexivity | lia].
Defined.

(** ** Size arithmetic: the side that is resized to [max_size] *)

(** Rounding a mantissa of at least 53 bits moves it by at most one unit of
    its 53rd bit. *)
Lemma binary_round_aux_close (s : bool) (M E : Z) (l : location) :
  0 < M → 53 <= Zdigits2 M →
  -1074 <= Zdigits2 M + E - 53 → Zdigits2 M + E - 52 <= 971 →
  ∃ m e,
    binary_round_aux prec emax s M E l = S754_finite s m e ∧
    Z.pos (digits2_pos m) = 53 ∧
    E <= e <= Zdigits2 M + E - 52 ∧
    2 ^ 52 * Z.abs (Z.pos m * 2 ^ (e - E) - M) <= M.
Proof.
  intros HM Hd Hlo Hhi. set (d := Zdigits2 M) in *.
  set (n := d - 53). set (m1 := M / 2 ^ n).
  assert (Hn : 0 <= n) by (unfold n; lia).
  assert (HP : 0 < 2 ^ n) by (apply Z.pow_pos_nonneg; lia).
  destruct (div_mod_pow2 M n Hn) as [HMeq HMr]. fold m1 in HMeq.
  assert (HMlo : 2 ^ 52 * 2 ^ n <= M).
  { rewrite <- Z.pow_add_r by lia.
    pose proof (Zdigits2_bounds M HM) as [Hb _]. fold d in Hb.
    replace (52 + n) with (d - 1) by (unfold n; lia). exact Hb. }
  assert (Hm1 : Zdigits2 m1 = 53).
  { unfold m1. rewrite Zdigits2_div_pow2; fold d; unfold n; lia. }
  assert (Hm1b : 2 ^ 52 <= m1 < 2 ^ 53).
  { assert (0 < m1).
    { unfold m1. apply Z.div_str_pos. split; [exact HP|].
      pose proof (Zdigits2_bounds M HM) as [Hb _]. fold d in Hb.
      eapply Z.le_trans; [|exact Hb]. apply Z.pow_le_mono_r; unfold n; lia. }
    pose proof (Zdigits2_bounds m1 ltac:(lia)) as Hb. rewrite Hm1 in Hb. exact Hb. }
  unfold binary_round_aux, shr_fexp. fold d.
  rewrite fexp_eq. replace (Z.max (d + E - 53) (-1074) - E) with n by (unfold n; lia).
  assert (Hrec : ∃ r s', shr_record_of_loc M l
                         = {| shr_m := M; shr_r := r; shr_s := s' |}).
  { destruct l as [|[]]; simpl; eauto. }
  destruct Hrec as (r & s' & ->).
  destruct (shr_div M E n r s') as (r' & s'' & ->); [lia | lia|].
  fold m1. cbn [shr_m].
  set (m2 := round_nearest_even m1 _).
  assert (Hm2 : m2 = m1 ∨ m2 = m1 + 1).
  { unfold m2. destruct r', s''; simpl; auto. destruct (Z.even m1); auto. }
  assert (Hclose : 2 ^ 52 * Z.abs (m2 * 2 ^ n - M) <= M).
  { assert (Hle : Z.abs (m2 * 2 ^ n - M) <= 2 ^ n)
      by (destruct Hm2 as [->| ->]; lia).
    apply (Z.mul_le_mono_nonneg_l _ _ (2 ^ 52)) in Hle; lia. }
  destruct (Z.eq_dec m2 (2 ^ 53)) as [Heq|Hne].
  - rewrite Heq. change (Zdigits2 (2 ^ 53)) with 54.
    rewrite fexp_eq. replace (Z.max (54 + (E + n) - 53) (-1074) - (E + n)) with 1 by lia.
    change (shr_record_of_loc (2 ^ 53) loc_Exact)
      with {| shr_m := 2 ^ 52 * 2 ^ 1; shr_r := false; shr_s := false |}.
    rewrite shr_exact by lia. cbn [shr_m].
    change (2 ^ 52) with (Z.pos (Z.to_pos (2 ^ 52))) at 1.
    destruct (Z.leb_spec (E + n + 1) (emax - prec)) as [_|Hgt];
      [|unfold emax, prec in Hgt; lia].
    eexists _, _. split; [reflexivity|]. split; [reflexivity|].
    split; [unfold n; lia|].
    replace (E + n + 1 - E) with (1 + n) by lia.
    rewrite Z.pow_add_r by lia.
    change (Z.pos (Z.to_pos (2 ^ 52))) with (2 ^ 52). change (2 ^ 1) with 2.
    replace (2 ^ 52 * (2 * 2 ^ n)) with (2 ^ 53 * 2 ^ n) by lia.
    rewrite <- Heq. exact Hclose.
  - assert (Hm2b : 2 ^ 52 <= m2 < 2 ^ 53) by lia.
    rewrite (Zdigits2_unique m2 53) by lia.
    rewrite fexp_eq. replace (Z.max (53 + (E + n) - 53) (-1074) - (E + n)) with 0 by lia.
    cbn [shr_record_of_loc shr shr_m].
    destruct m2 as [|p|p] eqn:Hp; try lia.
    destruct (Z.leb_spec (E + n) (emax - prec)) as [_|Hgt];
      [|unfold emax, prec in Hgt; lia].
    exists p, (E + n). split; [reflexivity|]. split; [apply digits_53; exact Hm2b|].
    split; [unfold n; lia|].
    replace (E + n - E) with n by lia. exact Hclose.
Qed.

(** The quotient of two normal floats: the mantissa [ms] at exponent
    [ea - eb - 53 + t] is the integer quotient [q] of the mantissas, up to
    one unit of its 53rd bit. *)
Lemma f_div_close (ma mb : positive) (ea eb : Z) :
  Z.pos (digits2_pos ma) = 53 → Z.pos (digits2_pos mb) = 53 →
  -1021 <= ea - eb → ea - eb <= 1022 →
  ∃ ms t q,
    f_div (S754_finite false ma ea) (S754_finite false mb eb)
    = Ok (S754_finite false ms (ea - eb - 53 + t)) ∧
    Z.pos (digits2_pos ms) = 53 ∧ 0 <= t <= 2 ∧
    2 ^ 52 <= q ∧
    q * Z.pos mb <= Z.pos ma * 2 ^ 53 < (q + 1) * Z.pos mb ∧
    2 ^ 52 * Z.abs (Z.pos ms * 2 ^ t - q) <= q.
Proof.
  intros Hda Hdb Hlo Hhi.
  unfold f_div, SFdiv, SFdiv_core_binary. cbn [xorb Zdigits2]. rewrite Hda, Hdb.
  replace (53 + ea - (53 + eb)) with (ea - eb) by lia.
  rewrite fexp_eq.
  replace (Z.min (Z.max (ea - eb - 53) (-1074)) (ea - eb)) with (ea - eb - 53) by lia.
  replace (ea - eb - (ea - eb - 53)) with 53 by lia.
  rewrite Z.shiftl_mul_pow2 by lia.
  apply digits_53 in Hda, Hdb.
  pose proof (Z_div_mod (Z.pos ma * 2 ^ 53) (Z.pos mb) ltac:(lia)) as Hdm.
  destruct (Z.div_eucl (Z.pos ma * 2 ^ 53) (Z.pos mb)) as [q r].
  destruct Hdm as [Hq Hr].
  assert (Hqb : 2 ^ 52 <= q < 2 ^ 54).
  { change (2 ^ 53) with 9007199254740992 in *.
    change (2 ^ 52) with 4503599627370496 in *.
    change (2 ^ 54) with 18014398509481984 in *. nia. }
  assert (Hd : Zdigits2 q = 53 ∨ Zdigits2 q = 54).
  { destruct (Z.lt_ge_cases q (2 ^ 53)).
    - left. apply Zdigits2_unique; lia.
    - right. apply Zdigits2_unique; lia. }
  destruct (binary_round_aux_close false q (ea - eb - 53) (new_location (Z.pos mb) r))
    as (m & e & -> & Hm & He & Hclose); try lia.
  exists m, (e - (ea - eb - 53)), q.
  replace (ea - eb - 53 + (e - (ea - eb - 53))) with e by lia.
  split; [reflexivity|]. split; [exact Hm|]. split; [lia|]. split; [lia|].
  split; [lia | exact Hclose].
Qed.

(** The product of two normal floats: the mantissa [mp] at exponent
    [ea + eb + u] is the product of the mantissas, up to one unit of its
    53rd bit. *)
Lemma f_mul_close (ma mb : positive) (ea eb : Z) :
  Z.pos (digits2_pos ma) = 53 → Z.pos (digits2_pos mb) = 53 →
  -1126 <= ea + eb → ea + eb <= 917 →
  ∃ mp u,
    f_mul (S754_finite false ma ea) (S754_finite false mb eb)
    = S754_finite false mp (ea + eb + u) ∧
    Z.pos (digits2_pos mp) = 53 ∧ 0 <= u <= 54 ∧
    2 ^ 52 * Z.abs (Z.pos mp * 2 ^ u - Z.pos ma * Z.pos mb)
    <= Z.pos ma * Z.pos mb.
Proof.
  intros Hda Hdb Hlo Hhi. apply digits_53 in Hda, Hdb.
  unfold f_mul, SFmul. cbn [xorb].
  assert (Hprod : 2 ^ 104 <= Z.pos (ma * mb) < 2 ^ 106).
  { rewrite Pos2Z.inj_mul. change (2 ^ 104) with (2 ^ 52 * 2 ^ 52).
    change (2 ^ 106) with (2 ^ 53 * 2 ^ 53). nia. }
  assert (Hd : Zdigits2 (Z.pos (ma * mb)) = 105 ∨ Zdigits2 (Z.pos (ma * mb)) = 106).
  { destruct (Z.lt_ge_cases (Z.pos (ma * mb)) (2 ^ 105)).
    - left. apply Zdigits2_unique; lia.
    - right. apply Zdigits2_unique; lia. }
  destruct (binary_round_aux_close false (Z.pos (ma * mb)) (ea + eb) loc_Exact)
    as (m & e & -> & Hm & He & Hclose); try lia.
  exists m, (e - (ea + eb)).
  replace (ea + eb + (e - (ea + eb))) with e by lia.
  split; [reflexivity|]. split; [exact Hm|]. split; [lia|].
  rewrite Pos2Z.inj_mul in Hclose. exact Hclose.
Qed.

(** Three steps that each move a quantity by at most one part in [K] move
    it by at most four parts in [K]. *)
Lemma close_chain (K A0 A1 A2 A3 : Z) :
  4 <= K → 0 <= A0 →
  K * Z.abs (A1 - A0) <= A0 →
  K * Z.abs (A2 - A1) <= A1 →
  K * Z.abs (A3 - A2) <= A2 →
  K * Z.abs (A3 - A0) <= 4 * A0.
Proof.
  intros HK HA0 H1 H2 H3.
  assert (Ht : Z.abs (A3 - A0)
               <= Z.abs (A3 - A2) + Z.abs (A2 - A1) + Z.abs (A1 - A0)) by lia.
  assert (HKt : K * Z.abs (A3 - A0)
                <= K * (Z.abs (A3 - A2) + Z.abs (A2 - A1) + Z.abs (A1 - A0)))
    by (apply Z.mul_le_mono_nonneg_l; lia).
  assert (Hs : K * Z.abs (A3 - A0) <= A2 + A1 + A0) by lia.
  assert (Hb1 : 4 * Z.abs (A1 - A0) <= K * Z.abs (A1 - A0))
    by (apply Z.mul_le_mono_nonneg_r; lia).
  assert (HA1 : 4 * A1 <= 5 * A0) by lia.
  assert (HA1' : 0 <= A1) by lia.
  assert (Hb2 : 4 * Z.abs (A2 - A1) <= K * Z.abs (A2 - A1))
    by (apply Z.mul_le_mono_nonneg_r; lia).
  assert (HA2 : 4 * A2 <= 5 * A1) by lia.
  lia.
Qed.

(** [round] of a positive float, seen at a scale [2^j] at which the float
    is an integer. *)
Lemma py_round_scaled (mp : positive) (ep j : Z) :
  0 <= j → 0 <= ep + j →
  ∃ r, py_round (S754_finite false mp ep) = Ok r ∧
       2 * Z.abs (Z.pos mp * 2 ^ (ep + j) - r * 2 ^ j) <= 2 ^ j.
Proof.
  intros Hj Hepj. cbn [py_round cond_Zopp].
  assert (HJ : 0 < 2 ^ j) by (apply Z.pow_pos_nonneg; lia).
  destruct (Z.leb_spec 0 ep) as [Hpos|Hneg].
  - eexists. split; [reflexivity|].
    rewrite Z.pow_add_r by lia.
    replace (Z.pos mp * (2 ^ ep * 2 ^ j) - Z.pos mp * 2 ^ ep * 2 ^ j) with 0 by lia.
    simpl. lia.
  - eexists. split; [reflexivity|].
    pose proof (round_shift_nearest (Z.pos mp) (- ep) ltac:(lia)) as Hnear.
    set (r := round_shift (Z.pos mp) (- ep)) in *.
    assert (Hle : 2 * Z.abs (Z.pos mp - r * 2 ^ (- ep)) <= 2 ^ (- ep)).
    { destruct Hnear as [H|[H _]]; lia. }
    assert (HJeq : 2 ^ j = 2 ^ (- ep) * 2 ^ (ep + j)).
    { rewrite <- Z.pow_add_r by lia. f_equal. lia. }
    assert (HQ : 0 < 2 ^ (ep + j)) by (apply Z.pow_pos_nonneg; lia).
    rewrite HJeq.
    replace (Z.pos mp * 2 ^ (ep + j) - r * (2 ^ (- ep) * 2 ^ (ep + j)))
      with ((Z.pos mp - r * 2 ^ (- ep)) * 2 ^ (ep + j)) by lia.
    rewrite Z.abs_mul, (Z.abs_eq (2 ^ (ep + j))) by lia.
    apply (Z.mul_le_mono_nonneg_r _ _ (2 ^ (ep + j))) in Hle; lia.
Qed.

Lemma mul_abs_bound (K z B : Z) :
  0 <= K → K * Z.abs z <= B → K * z <= B ∧ K * (- z) <= B.
Proof.
  intros HK H. destruct (Z.abs_spec z) as [[_ E]|[_ E]]; rewrite E in H.
  - split; [exact H|]. assert (0 <= K * z) by (apply Z.mul_nonneg_nonneg; lia). lia.
  - split; [|exact H]. assert (0 <= K * (- z)) by (apply Z.mul_nonneg_nonneg; lia). lia.
Qed.

Lemma round_of_close (K D W m x n r : Z) :
  0 < D → 0 < m → 0 < x → 0 < n → 8 * n < K →
  K * Z.abs (W * m - x * n * D) <= 4 * (x * n * D) →
  2 * Z.abs (W - r * D) <= D →
  (x <= m → r <= n) ∧ (m <= x → n <= r).
Proof.
  intros HD Hm Hx Hn HK Hchain Hnear.
  apply mul_abs_bound in Hchain as [Hup Hdn]; [|lia].
  assert (HDm : 0 < D * m) by (apply Z.mul_pos_pos; lia).
  assert (HnD : 0 < n * D) by (apply Z.mul_pos_pos; lia).
  split.
  - intros Hxm. destruct (Z.le_gt_cases r n) as [|Hgt]; [assumption|]. exfalso.
    assert (Hr : (n + 1) * D <= r * D) by (apply Z.mul_le_mono_nonneg_r; lia).
    assert (H1 : (2 * n + 1) * D <= 2 * W) by lia.
    assert (H2 : (2 * n + 1) * D * m <= 2 * W * m)
      by (apply Z.mul_le_mono_nonneg_r; lia).
    assert (H3 : K * (W * m) <= (K + 4) * (x * n * D)) by lia.
    assert (H4 : x * (n * D) <= m * (n * D))
      by (apply Z.mul_le_mono_nonneg_r; lia).
    assert (H5 : (K + 4) * (x * n * D) <= (K + 4) * (m * (n * D))).
    { apply Z.mul_le_mono_nonneg_l; lia. }
    assert (H6 : K * ((2 * n + 1) * D * m) <= K * (2 * W * m))
      by (apply Z.mul_le_mono_nonneg_l; lia).
    assert (H7 : K * ((2 * n + 1) * (D * m)) <= 2 * ((K + 4) * (n * (D * m)))) by lia.
    assert (H8 : (K - 8 * n) * (D * m) <= 0) by lia.
    assert (H9 : 0 < (K - 8 * n) * (D * m)) by (apply Z.mul_pos_pos; lia).
    lia.
  - intros Hxm. destruct (Z.le_gt_cases n r) as [|Hgt]; [assumption|]. exfalso.
    assert (Hr : r * D <= (n - 1) * D) by (apply Z.mul_le_mono_nonneg_r; lia).
    assert (H1 : 2 * W <= (2 * n - 1) * D) by lia.
    assert (H2 : 2 * W * m <= (2 * n - 1) * D * m)
      by (apply Z.mul_le_mono_nonneg_r; lia).
    assert (H3 : (K - 4) * (x * n * D) <= K * (W * m)) by lia.
    assert (H4 : m * (n * D) <= x * (n * D))
      by (apply Z.mul_le_mono_nonneg_r; lia).
    assert (H5 : (K - 4) * (m * (n * D)) <= (K - 4) * (x * n * D)).
    { apply Z.mul_le_mono_nonneg_l; lia. }
    assert (H6 : K * (2 * W * m) <= K * ((2 * n - 1) * D * m))
      by (apply Z.mul_le_mono_nonneg_l; lia).
    assert (H7 : 2 * ((K - 4) * (n * (D * m))) <= K * ((2 * n - 1) * (D * m))) by lia.
    assert (H8 : (K - 8 * n) * (D * m) <= 0) by lia.
    assert (H9 : 0 < (K - 8 * n) * (D * m)) by (apply Z.mul_pos_pos; lia).
    lia.
Qed.

Lemma equal_of_close (K Dn M q m n : Z) :
  0 < K → 0 < Dn → 0 < M → 16 * M < Dn → 0 < n → 8 * n < K → 0 < m →
  K <= q →
  q * M <= Dn * n < (q + 1) * M →
  K * Z.abs (Dn * m - q * M) <= q * M →
  n = m.
Proof.
  intros HK HDn HM HM16 Hn HK8 Hm Hq Hqm Hclose.
  assert (HqM : 0 <= q * M) by (apply Z.mul_nonneg_nonneg; lia).
  apply mul_abs_bound in Hclose as [Hup Hdn]; [|lia].
  assert (H2 : K * (Dn * n) < K * (q * M) + K * M).
  { replace (K * (q * M) + K * M) with (K * ((q + 1) * M)) by lia.
    apply Z.mul_lt_mono_pos_l; lia. }
  assert (H2' : K * (q * M) <= K * (Dn * n))
    by (apply Z.mul_le_mono_nonneg_l; lia).
  assert (H3 : K * Z.abs (Dn * m - Dn * n) < Dn * n + K * M).
  { destruct (Z.abs_spec (Dn * m - Dn * n)) as [[_ E]|[_ E]]; rewrite E; lia. }
  assert (H4 : 8 * (Dn * n) < K * Dn).
  { replace (8 * (Dn * n)) with (Dn * (8 * n)) by lia.
    replace (K * Dn) with (Dn * K) by lia.
    apply Z.mul_lt_mono_pos_l; lia. }
  assert (H5 : 16 * (K * M) < K * Dn).
  { replace (16 * (K * M)) with (K * (16 * M)) by lia.
    apply Z.mul_lt_mono_pos_l; lia. }
  assert (H6 : K * Z.abs (Dn * m - Dn * n) < K * Dn) by lia.
  destruct (Z.lt_trichotomy m n) as [Hlt|[Heq|Hgt]]; [exfalso| lia |exfalso].
  - assert (Dn * (m + 1) <= Dn * n) by (apply Z.mul_le_mono_nonneg_l; lia).
    assert (K * Dn <= K * (Dn * n - Dn * m)) by (apply Z.mul_le_mono_nonneg_l; lia).
    lia.
  - assert (Dn * (n + 1) <= Dn * m) by (apply Z.mul_le_mono_nonneg_l; lia).
    assert (K * Dn <= K * (Dn * m - Dn * n)) by (apply Z.mul_le_mono_nonneg_l; lia).
    lia.
Qed.

Lemma close_scale (K A B C : Z) :
  0 <= K → 0 <= C → K * Z.abs (B - A) <= A → K * Z.abs (B * C - A * C) <= A * C.
Proof.
  intros HK HC H. replace (B * C - A * C) with ((B - A) * C) by lia.
  rewrite Z.abs_mul, (Z.abs_eq C) by lia.
  assert (K * Z.abs (B - A) * C <= A * C) by (apply Z.mul_le_mono_nonneg_r; lia).
  lia.
Qed.

Lemma close_quotient (K X M N2 q : Z) :
  0 < K → 0 < X → 0 < M → K <= q →
  q * M <= N2 < (q + 1) * M →
  K * Z.abs (X * (q * M) - X * N2) <= X * N2.
Proof.
  intros HK HX HM Hq [Hlo Hhi].
  assert (H1 : X * (q * M) <= X * N2) by (apply Z.mul_le_mono_nonneg_l; lia).
  assert (H2 : X * N2 <= X * (q * M + M)) by (apply Z.mul_le_mono_nonneg_l; lia).
  assert (HXM : 0 <= X * M) by (apply Z.mul_nonneg_nonneg; lia).
  assert (H3 : K * (X * M) <= q * (X * M)) by (apply Z.mul_le_mono_nonneg_r; lia).
  assert (H4 : K * (X * N2 - X * (q * M)) <= K * (X * M))
    by (apply Z.mul_le_mono_nonneg_l; lia).
  rewrite Z.abs_neq by lia. lia.
Qed.

(** The scaled side before the last rounding: the mantissa [r] of the
    product, at the scale [pt] of the quotient, against the exact value. *)
Lemma scale_chain (K X M N2 q s pt r : Z) :
  4 <= K → 0 < X → 0 < M → 0 < pt → 0 < s → K <= q →
  q * M <= N2 < (q + 1) * M →
  K * Z.abs (s * pt - q) <= q →
  K * Z.abs (r - X * s) <= X * s →
  K * Z.abs (r * pt * M - X * N2) <= 4 * (X * N2).
Proof.
  intros HK HX HM Hpt Hs Hq Hqm HS HR.
  assert (HXM : 0 <= X * M) by (apply Z.mul_nonneg_nonneg; lia).
  assert (HptM : 0 <= pt * M) by (apply Z.mul_nonneg_nonneg; lia).
  assert (HqM : 0 <= q * M) by (apply Z.mul_nonneg_nonneg; lia).
  apply (close_chain K _ (X * (q * M)) (X * (s * pt) * M)).
  - exact HK.
  - apply Z.mul_nonneg_nonneg; lia.
  - apply close_quotient; lia.
  - replace (X * (s * pt) * M) with (s * pt * (X * M)) by lia.
    replace (X * (q * M)) with (q * (X * M)) by lia.
    apply close_scale; [lia | exact HXM | exact HS].
  - replace (r * pt * M) with (r * (pt * M)) by lia.
    replace (X * (s * pt) * M) with (X * s * (pt * M)) by lia.
    apply close_scale; [lia | exact HptM | exact HR].
Qed.

Lemma f_one_eq : f_one = S754_finite false (Z.to_pos (2 ^ 52)) (-52).
Proof. reflexivity. Qed.

(** [float(n)] as mantissa and exponent: [n = m * 2^(-a)]. *)
Lemma float_of_int_exact (n : Z) :
  0 < n < 2 ^ 53 →
  ∃ m a,
    float_of_int n = Ok (S754_finite false m (- a)) ∧
    Z.pos (digits2_pos m) = 53 ∧ 0 <= a <= 52 ∧ Z.pos m = n * 2 ^ a ∧
    (n < 2 ^ 49 → 4 <= a).
Proof.
  intros Hn. destruct (float_of_int_small n Hn) as (m & e & Hf & Hd & He & Hm).
  assert (1 <= Zdigits2 n) by (destruct n; simpl; lia).
  assert (Zdigits2 n <= 53) by (apply Zdigits2_le; lia).
  exists m, (53 - Zdigits2 n). subst e.
  replace (- (53 - Zdigits2 n)) with (Zdigits2 n - 53) by lia.
  split; [exact Hf|]. split; [exact Hd|]. split; [lia|]. split; [exact Hm|].
  intros H49. assert (Zdigits2 n <= 49) by (apply Zdigits2_le; lia). lia.
Qed.

(** One side [x] of an image scaled by [n / m]: the rounded product is at
    most [n] when [x <= m] and at least [n] when [x >= m]; and the scale is
    [1.0] only when [n = m]. *)
Lemma scaled_side (x m n : Z) :
  0 < x < 2 ^ 53 → 0 < m < 2 ^ 53 → 0 < n < 2 ^ 49 →
  ∃ fx fm fn scale r,
    float_of_int x = Ok fx ∧ float_of_int m = Ok fm ∧
    float_of_int n = Ok fn ∧ f_div fn fm = Ok scale ∧
    py3round (f_mul fx scale) = Ok r ∧
    (x <= m → r <= n) ∧ (m <= x → n <= r) ∧
    (f_eqb scale f_one = true → n = m).
Proof.
  intros Hx Hm Hn.
  destruct (float_of_int_exact x Hx) as (mx & a & Hfx & Hdx & Ha & Hmx & _).
  destruct (float_of_int_exact m Hm) as (mm & b & Hfm & Hdm & Hb & Hmm & _).
  destruct (float_of_int_exact n ltac:(lia)) as (mn & c & Hfn & Hdn & Hc & Hmn & Hc4).
  specialize (Hc4 ltac:(lia)).
  destruct (f_div_close mn mm (- c) (- b) Hdn Hdm ltac:(lia) ltac:(lia))
    as (ms & t & q & Hdiv & Hds & Ht & Hq52 & Hqm & HS).
  destruct (f_mul_close mx ms (- a) (- c - - b - 53 + t) Hdx Hds
              ltac:(lia) ltac:(lia))
    as (mp & u & Hmul & Hdp & Hu & HR).
  set (ep := - a + (- c - - b - 53 + t) + u) in *.
  destruct (py_round_scaled mp ep (a + c + 53) ltac:(lia) ltac:(unfold ep; lia))
    as (r & Hr & Hnear).
  exists (S754_finite false mx (- a)), (S754_finite false mm (- b)),
    (S754_finite false mn (- c)), (S754_finite false ms (- c - - b - 53 + t)), r.
  split; [exact Hfx|]. split; [exact Hfm|]. split; [exact Hfn|].
  split; [exact Hdiv|].
  split; [rewrite Hmul; fold ep; rewrite py3round_normal by (unfold ep; lia);
          exact Hr|].
  (* the powers of two *)
  assert (HPa : 0 < 2 ^ a) by (apply Z.pow_pos_nonneg; lia).
  assert (HPb : 0 < 2 ^ b) by (apply Z.pow_pos_nonneg; lia).
  assert (HPc : 16 <= 2 ^ c).
  { change 16 with (2 ^ 4). apply Z.pow_le_mono_r; lia. }
  assert (HPt : 0 < 2 ^ t) by (apply Z.pow_pos_nonneg; lia).
  assert (HPu : 0 < 2 ^ u) by (apply Z.pow_pos_nonneg; lia).
  assert (HD : 2 ^ (a + c + 53) = 2 ^ a * 2 ^ c * 2 ^ 53).
  { rewrite !Z.pow_add_r by lia. reflexivity. }
  assert (HW : 2 ^ (ep + (a + c + 53)) = 2 ^ b * 2 ^ t * 2 ^ u).
  { replace (ep + (a + c + 53)) with (b + t + u) by (unfold ep; lia).
    rewrite !Z.pow_add_r by lia. reflexivity. }
  rewrite HD, HW in Hnear.
  apply digits_53 in Hdm, Hdn, Hdx, Hds.
  assert (HT : 2 ^ 53 = 2 * 2 ^ 52) by reflexivity.
  assert (HK8 : 8 * n < 2 ^ 52).
  { change (2 ^ 52) with (8 * 2 ^ 49). lia. }
  rewrite HT in *.
  set (K := 2 ^ 52) in *.
  set (Pa := 2 ^ a) in *. set (Pb := 2 ^ b) in *. set (Pc := 2 ^ c) in *.
  set (Pt := 2 ^ t) in *. set (Pu := 2 ^ u) in *.
  set (X := Z.pos mx) in *. set (M := Z.pos mm) in *. set (N := Z.pos mn) in *.
  set (S := Z.pos ms) in *. set (P := Z.pos mp) in *.
  assert (HK4 : 4 <= K) by (unfold K; lia).
  assert (HKpos : 0 < K) by (clear - HK4; lia).
  assert (HXpos : 0 < X) by (clear - Hdx HKpos; lia).
  assert (HMpos : 0 < M) by (clear - Hdm HKpos; lia).
  assert (HSpos : 0 < S) by (clear - Hds HKpos; lia).
  pose proof (scale_chain K X M (N * (2 * K)) q S Pt (P * Pu)
                HK4 HXpos HMpos HPt HSpos Hq52 Hqm HS HR) as Hchain.
  set (D := Pa * Pc * (2 * K)) in *.
  set (W := P * (Pb * Pt * Pu)) in *.
  assert (HA3 : P * Pu * Pt * M = W * m) by (unfold W; rewrite Hmm; ring).
  assert (HA0 : X * (N * (2 * K)) = x * n * D) by (unfold D; rewrite Hmx, Hmn; ring).
  rewrite HA3, HA0 in Hchain.
  assert (HDpos : 0 < D).
  { unfold D. apply Z.mul_pos_pos; [apply Z.mul_pos_pos|];
      [exact HPa | clear - HPc; lia | clear - HKpos; lia]. }
  destruct (round_of_close K D W m x n r HDpos (proj1 Hm) (proj1 Hx) (proj1 Hn)
              HK8 Hchain Hnear) as [Hle Hge].
  split; [exact Hle|]. split; [exact Hge|].
  intros Heq. rewrite f_one_eq in Heq. apply f_eqb_finite in Heq as [He Hms].
  assert (HSK : S = K) by (unfold S; rewrite Hms; reflexivity).
  assert (Ht' : t = c - b + 1) by (clear - He; lia).
  assert (HPtb : Pt * Pb = 2 * Pc).
  { unfold Pt, Pb, Pc. rewrite Ht', <- Z.pow_add_r by (clear - Hb Hc Ht Ht'; lia).
    replace (c - b + 1 + b) with (1 + c) by ring.
    rewrite Z.pow_add_r by (clear - Hc; lia). reflexivity. }
  rewrite HSK in HS.
  assert (H1 : K * Z.abs (K * Pt * M - q * M) <= q * M).
  { apply close_scale; [clear - HKpos; lia | clear - HMpos; lia | exact HS]. }
  assert (H2 : K * Pt * M = 2 * K * Pc * m).
  { rewrite Hmm. replace (K * Pt * (m * Pb)) with (K * (Pt * Pb) * m) by ring.
    rewrite HPtb. ring. }
  rewrite H2 in H1.
  assert (H3 : N * (2 * K) = 2 * K * Pc * n) by (rewrite Hmn; ring).
  rewrite H3 in Hqm.
  assert (HKPc : 2 * K * 16 <= 2 * K * Pc).
  { apply Z.mul_le_mono_nonneg_l; [clear - HKpos; lia | exact HPc]. }
  apply (equal_of_close K (2 * K * Pc) M q m n);
    [exact HKpos | clear - HKPc HKpos; lia | exact HMpos
    | clear - HKPc Hdm; lia | exact (proj1 Hn) | exact HK8 | exact (proj1 Hm)
    | exact Hq52 | exact Hqm | exact H1].
Qed.

Lemma _func_max_size_sides (height width max_size : Z) (func : Z → Z → Z) :
  0 < height < 2 ^ 53 → 0 < width < 2 ^ 53 → 0 < max_size < 2 ^ 49 →
  0 < func width height < 2 ^ 53 →
  ∃ h' w',
    _func_max_size height width max_size func = Ok (h', w') ∧
    (height <= func width height → h' <= max_size) ∧
    (func width height <= height → max_size <= h') ∧
    (width <= func width height → w' <= max_size) ∧
    (func width height <= width → max_size <= w').
Proof.
  intros Hh Hw Hn Hm. set (m := func width height) in *.
  destruct (scaled_side height m max_size Hh Hm Hn)
    as (fh & fm & fn & scale & rh & Hfh & Hfm & Hfn & Hdiv & Hrh & Hh1 & Hh2 & Hone).
  destruct (scaled_side width m max_size Hw Hm Hn)
    as (fw & fm' & fn' & scale' & rw & Hfw & Hfm' & Hfn' & Hdiv' & Hrw & Hw1 & Hw2 & _).
  rewrite Hfm in Hfm'. injection Hfm' as <-.
  rewrite Hfn in Hfn'. injection Hfn' as <-.
  rewrite Hdiv in Hdiv'. injection Hdiv' as <-.
  unfold _func_max_size. fold m. rewrite Hfn, Hfm. cbn [mbind result_bind].
  rewrite Hdiv. cbn [mbind result_bind].
  destruct (f_eqb scale f_one) eqn:E; cbn [negb].
  - specialize (Hone eq_refl). exists height, width.
    split; [reflexivity|]. lia.
  - rewrite Hfh. cbn [mbind result_bind]. rewrite Hrh. cbn [mbind result_bind].
    rewrite Hfw. cbn [mbind result_bind]. rewrite Hrw.
    exists rh, rw. split; [reflexivity|]. auto.
Qed.

(** X21.  For an image with sides below [2^53] and a [max_size] below [2^49],
    [_func_max_size] returns, and the side it scales by comes out as
    [max_size] exactly: with [max] the longer returned side is [max_size],
    with [min] the shorter one. *)
Theorem _func_max_size_reaches_max_size (height width max_size : Z) :
  0 < height < 2 ^ 53 → 0 < width < 2 ^ 53 → 0 < max_size < 2 ^ 49 →
  (∃ h' w', _func_max_size height width max_size Z.max = Ok (h', w') ∧
            Z.max h' w' = max_size) ∧
  (∃ h' w', _func_max_size height width max_size Z.min = Ok (h', w') ∧
            Z.min h' w' = max_size).
Proof.
  intros Hh Hw Hn. split.
  - destruct (_func_max_size_sides height width max_size Z.max Hh Hw Hn ltac:(lia))
      as (h' & w' & Hok & H1 & H2 & H3 & H4).
    exists h', w'. split; [exact Hok|]. lia.
  - destruct (_func_max_size_sides height width max_size Z.min Hh Hw Hn ltac:(lia))
      as (h' & w' & Hok & H1 & H2 & H3 & H4).
    exists h', w'. split; [exact Hok|]. lia.
Qed.

Lemma _func_max_size_reaches_max_size_witness :
  (∃ h' w', _func_max_size 300 400 384 Z.max = Ok (h', w') ∧ Z.max h' w' = 384) ∧
  (∃ h' w', _func_max_size 300 400 384 Z.min = Ok (h', w') ∧ Z.min h' w' = 384).
Proof.
  apply (_func_max_size_reaches_max_size 300 400 384); lia.
Defined.

(** ** Model configurations *)

(** X22.  Without weights to load, [pretrained=False] or an empty
    [weights_url], [create_model_config] never returns: it reads the
    configuration and then fails on the local [weights_path], which was never
    bound. Nothing but [Config.fromfile] is run. *)
Theorem create_model_config_without_weights {World Path Config : Type}
    (Path_new : string → Path) (Path_div : Path → string → Path)
    (Path_name : Path → string) (Path_str : Path → string)
    (Path_mkdir : Path → World → World * result unit)
    (Path_exists : Path → World → bool)
    (download_url : string → string → World → World * result unit)
    (Config_fromfile : string → World → World * result Config)
    (backbone : MMDetBackboneConfig) (pretrained : bool)
    (checkpoints_path : string) (force_download : bool) (w : World) :
  pretrained = false ∨ weights_url backbone = EmptyString →
  create_model_config Path_new Path_div Path_name Path_str Path_mkdir
    Path_exists download_url Config_fromfile backbone pretrained
    checkpoints_path force_download w
  = match Config_fromfile (cfg_url backbone) w with
    | (w', Raise e) => (w', Raise e)
    | (w', Ok _) => (w', Raise (NameError "weights_path"))
    end.
Proof.
  intros H. unfold create_model_config, download_weights.
  assert (Hc : pretrained && negb (String.eqb (weights_url backbone) EmptyString)
               = false).
  { destruct H as [->| ->]; [reflexivity|]. apply andb_false_r. }
  rewrite Hc. destruct (Config_fromfile (cfg_url backbone) w) as [w' [cfg|e]];
    reflexivity.
Qed.

Lemma create_model_config_without_weights_witness :
  create_model_config (World := list string) (Config := string)
    (λ s : string, s) (λ p s, p +:+ "/" +:+ s) (λ p : string, p) (λ p : string, p)
    (λ p w, (p :: w, Ok tt)) (λ p w, bool_decide (p ∈ w))
    (λ url p w, (p :: w, Ok tt)) (λ url w, (w, Ok url))
    {| model_name := "retinanet"; cfg_url := "retinanet.py";
       weights_url := "retinanet.pth" |} false "checkpoints" false []
  = ([], Raise (NameError "weights_path")).
Proof.
  apply (create_model_config_without_weights (World := list string)
           (Config := string)
           (λ s : string, s) (λ p s, p +:+ "/" +:+ s) (λ p : string, p)
           (λ p : string, p) (λ p w, (p :: w, Ok tt)) (λ p w, bool_decide (p ∈ w))
           (λ url p w, (p :: w, Ok tt)) (λ url w, (w, Ok url))
           {| model_name := "retinanet"; cfg_url := "retinanet.py";
              weights_url := "retinanet.pth" |} false "checkpoints" false []).
  left. reflexivity.
Defined.

(** X23.  Weights that are already in the checkpoint directory are not
    downloaded again: when the file exists after [mkdir] and [force_download]
    is false, the result is that of [Config.fromfile] in the state [mkdir]
    left, with the path [checkpoints_path / model_name /
    Path(weights_url).name], whatever [download_url] would do. *)
Theorem create_model_config_cached {World Path Config : Type}
    (Path_new : string → Path) (Path_div : Path → string → Path)
    (Path_name : Path → string) (Path_str : Path → string)
    (Path_mkdir : Path → World → World * result unit)
    (Path_exists : Path → World → bool)
    (download_url : string → string → World → World * result unit)
    (Config_fromfile : string → World → World * result Config)
    (backbone : MMDetBackboneConfig) (checkpoints_path : string)
    (w w1 : World) :
  let save_dir := Path_div (Path_new checkpoints_path) (model_name backbone) in
  let weights_path :=
    Path_div save_dir (Path_name (Path_new (weights_url backbone))) in
  weights_url backbone ≠ EmptyString →
  Path_mkdir save_dir w = (w1, Ok tt) →
  Path_exists weights_path w1 = true →
  create_model_config Path_new Path_div Path_name Path_str Path_mkdir
    Path_exists download_url Config_fromfile backbone true
    checkpoints_path false w
  = match Config_fromfile (cfg_url backbone) w1 with
    | (w2, Raise e) => (w2, Raise e)
    | (w2, Ok cfg) => (w2, Ok (cfg, weights_path))
    end.
Proof.
  intros save_dir weights_path Hurl Hmk Hex.
  unfold create_model_config, download_weights.
  apply String.eqb_neq in Hurl. rewrite Hurl. cbn [andb negb].
  fold save_dir. rewrite Hmk. fold weights_path. rewrite Hex. cbn [negb orb].
  destruct (Config_fromfile (cfg_url backbone) w1) as [w2 [cfg|e]]; reflexivity.
Qed.

Lemma create_model_config_cached_witness :
  create_model_config (World := list string) (Config := string)
    (λ s : string, s) (λ p s, p +:+ "/" +:+ s) (λ p : string, p) (λ p : string, p)
    (λ p w, (w, Ok tt)) (λ p w, bool_decide (p ∈ w))
    (λ url p w, (w, Raise (PipelineError 0))) (λ url w, (w, Ok url))
    {| model_name := "retinanet"; cfg_url := "retinanet.py";
       weights_url := "retinanet.pth" |} true "checkpoints" false
    ["checkpoints/retinanet/retinanet.pth"]
  = (["checkpoints/retinanet/retinanet.pth"],
     Ok ("retinanet.py", "checkpoints/retinanet/retinanet.pth")).
Proof.
  apply (create_model_config_cached (World := list string) (Config := string)
           (λ s : string, s) (λ p s, p +:+ "/" +:+ s) (λ p : string, p)
           (λ p : string, p) (λ p w, (w, Ok tt)) (λ p w, bool_decide (p ∈ w))
           (λ url p w, (w, Raise (PipelineError 0))) (λ url w, (w, Ok url))
           {| model_name := "retinanet"; cfg_url := "retinanet.py";
              weights_url := "retinanet.pth" |} "checkpoints"
           ["checkpoints/retinanet/retinanet.pth"]
           ["checkpoints/retinanet/retinanet.pth"]).
  - discriminate.
  - reflexivity.
  - vm_compute. reflexivity.
Defined.
